(** * mdx_latex: a Rocq model of the Markdown-to-LaTeX extension

    The development follows [mdx_latex.py].  Strings are lists of
    characters, of which the model has the 256 with the codes below 256; the
    texts Markdown and minidom hand to the code are text (unicode) strings,
    so [strip] removes the whitespace of such strings, while [\s] in a
    pattern, compiled without [re.UNICODE], is the ASCII whitespace.  The
    regular expressions of the module are written as abstract syntax and run
    by a small backtracking matcher that follows the [re] module (leftmost
    match, greedy repetition, non-overlapping substitution); the DOM the
    table and image converters walk is produced by a parser for the part of
    XML the converters are fed with. *)

From Stdlib Require Import Ascii String DecimalString.
From Stdlib.Strings Require Import Byte.
From Stdlib Require Import List ZArith Lia Bool Arith.
From Stdlib Require DecimalPos.
Import ListNotations.

Set Implicit Arguments.

(** ** Strings *)

Module PyStr.

(** A string: a sequence of characters with codes below 256. *)
Definition str := list ascii.

Inductive str_lit : Set := LNil | LCons (c : ascii) (s : str_lit).

Fixpoint lit_of_bytes (bs : list byte) : str_lit :=
  match bs with
  | [] => LNil
  | b :: r => LCons (ascii_of_byte b) (lit_of_bytes r)
  end.

Fixpoint bytes_of_lit (s : str_lit) : list byte :=
  match s with
  | LNil => []
  | LCons c r => byte_of_ascii c :: bytes_of_lit r
  end.

End PyStr.
Export PyStr.

Declare Scope str_scope.
Delimit Scope str_scope with str.
#[warnings="-via-type-remapping,-via-type-mismatch"]
String Notation str lit_of_bytes bytes_of_lit
  (via str_lit mapping [[nil] => LNil, [cons] => LCons]) : str_scope.
Bind Scope str_scope with str.
Open Scope str_scope.
Open Scope list_scope.

(** Characters that have no literal form inside a Rocq string. *)
Definition NL : ascii := "010"%char.   (* \n *)
Definition TAB : ascii := "009"%char.  (* \t *)
Definition VT : ascii := "011"%char.   (* \v *)
Definition FF : ascii := "012"%char.   (* \f *)
Definition CR : ascii := "013"%char.   (* \r *)
Definition DQ : ascii := "034"%char.   (* the double quote *)
Definition BS : ascii := "\"%char.     (* the backslash *)
Definition DOLLAR : ascii := "$"%char.
Definition PERCENT : ascii := "%"%char.

Module Py.

(** [s == t] on strings. *)
Fixpoint str_eqb (a b : str) : bool :=
  match a, b with
  | [], [] => true
  | x :: a', y :: b' => Ascii.eqb x y && str_eqb a' b'
  | _, _ => false
  end.

(** [c in l] for a character and a list of characters. *)
Fixpoint mem (c : ascii) (l : list ascii) : bool :=
  match l with
  | [] => false
  | x :: l' => Ascii.eqb c x || mem c l'
  end.

(** [s.startswith(p)] *)
Fixpoint startswith (p s : str) : bool :=
  match p, s with
  | [], _ => true
  | x :: p', y :: s' => Ascii.eqb x y && startswith p' s'
  | _ :: _, [] => false
  end.

(** [old in s] *)
Fixpoint contains (old s : str) : bool :=
  startswith old s ||
  match s with
  | [] => false
  | _ :: t => contains old t
  end.

(** [s.replace(old, new)]: the occurrences of [old] are found from the left
    and do not overlap.  [skip] counts the characters of the occurrence being
    replaced that are still to be dropped. *)
Fixpoint replace_from (old new : str) (skip : nat) (s : str) : str :=
  match s with
  | [] => []
  | c :: t =>
      match skip with
      | S n => replace_from old new n t
      | O =>
          if startswith old s
          then new ++ replace_from old new (length old - 1) t
          else c :: replace_from old new 0 t
      end
  end.

Definition replace (old new s : str) : str :=
  match old with
  | [] => new ++ flat_map (fun c => c :: new) s
  | _ :: _ => replace_from old new 0 s
  end.

(** The whitespace [strip()] removes from a text string: the space, \t,
    \n, \r, \f, \v, the four separators U+001C to U+001F, the next-line
    character U+0085 and the no-break space U+00A0. *)
Definition isspace (c : ascii) : bool :=
  mem c [" "%char; TAB; NL; CR; FF; VT;
         "028"%char; "029"%char; "030"%char; "031"%char;
         "133"%char; "160"%char].

Fixpoint lstrip (s : str) : str :=
  match s with
  | [] => []
  | c :: t => if isspace c then lstrip t else s
  end.

Definition rstrip (s : str) : str := rev (lstrip (rev s)).

(** [s.strip()] *)
Definition strip (s : str) : str := rstrip (lstrip s).

(** [sep.join(l)] *)
Fixpoint join (sep : str) (l : list str) : str :=
  match l with
  | [] => []
  | [x] => x
  | x :: l' => x ++ sep ++ join sep l'
  end.

(** ['%s' % n] for an integer. *)
Definition str_of_int (n : Z) : str :=
  list_ascii_of_string (NilZero.string_of_int (Z.to_int n)).

Definition isdigit (c : ascii) : bool :=
  (48 <=? nat_of_ascii c)%nat && (nat_of_ascii c <=? 57)%nat.

Fixpoint digits_value (acc : Z) (s : str) : option Z :=
  match s with
  | [] => Some acc
  | c :: t =>
      if isdigit c
      then digits_value (10 * acc + Z.of_nat (nat_of_ascii c - 48)) t
      else None
  end.

(** [int(s)]: surrounding whitespace is dropped, one sign is allowed, and at
    least one decimal digit must follow; [None] stands for [ValueError]. *)
Definition int (s : str) : option Z :=
  match strip s with
  | [] => None
  | "-"%char :: ((_ :: _) as d) => option_map Z.opp (digits_value 0 d)
  | "+"%char :: ((_ :: _) as d) => digits_value 0 d
  | d => digits_value 0 d
  end.

(** [s * n]: repetition. *)
Fixpoint repeat_str (s : str) (n : nat) : str :=
  match n with
  | O => []
  | S m => s ++ repeat_str s m
  end.

End Py.
Import Py.

(** ** Regular expressions

    The patterns of the module use literal characters, [[^c]], [\s], [.],
    greedy [*] over one of these, [^], [$], alternation, groups and one
    negative look-ahead.  [rmatch] is a backtracking matcher in
    continuation-passing style: alternatives are tried from the left and a
    repetition takes as many characters as it can before it gives some back,
    which is the order in which [re] explores them. *)

Module Re.

Record flags := { MULTILINE : bool; DOTALL : bool }.

Definition no_flags : flags := {| MULTILINE := false; DOTALL := false |}.

(** What matches exactly one character. *)
Inductive item :=
| Lit (c : ascii)       (* a character standing for itself *)
| NotLit (c : ascii)    (* [^c] *)
| Space                 (* \s *)
| Dot.                  (* . *)

(** The whitespace of [\s] in a pattern compiled without [re.UNICODE]:
    space, \t, \n, \r, \f, \v, also when the subject is a text string. *)
Definition is_space (c : ascii) : bool :=
  mem c [" "%char; TAB; NL; CR; FF; VT].

Definition item_ok (fl : flags) (i : item) (c : ascii) : bool :=
  match i with
  | Lit x => Ascii.eqb c x
  | NotLit x => negb (Ascii.eqb c x)
  | Space => is_space c
  | Dot => DOTALL fl || negb (Ascii.eqb c NL)
  end.

Inductive regex :=
| Empty
| One (i : item)
| Star (i : item)               (* i*, greedy *)
| Bol                           (* ^ *)
| Eol                           (* $ *)
| Seq (a b : regex)
| Alt (a b : regex)
| Group (n : nat) (a : regex)
| NotAhead (a : regex).         (* (?!a) *)

(** A literal string as a pattern. *)
Fixpoint Str (s : str) : regex :=
  match s with
  | [] => Empty
  | c :: t => Seq (One (Lit c)) (Str t)
  end.

(** A position in the subject: the character before it, what is left, how
    many characters the match has taken so far, and the groups closed so
    far. *)
Record mstate := {
  before : option ascii;
  rest : str;
  pos : nat;
  groups : list (nat * str)
}.

Definition advance (c : ascii) (t : str) (st : mstate) : mstate :=
  {| before := Some c; rest := t; pos := S (pos st); groups := groups st |}.

Definition set_group (n : nat) (v : str) (st : mstate) : mstate :=
  {| before := before st; rest := rest st; pos := pos st;
     groups := (n, v) :: groups st |}.

(** [^]: the start of the string, and with MULTILINE also after a newline. *)
Definition at_bol (fl : flags) (st : mstate) : bool :=
  match before st with
  | None => true
  | Some c => MULTILINE fl && Ascii.eqb c NL
  end.

(** [$]: the end of the string or just before the newline that ends it, and
    with MULTILINE before any newline. *)
Definition at_eol (fl : flags) (st : mstate) : bool :=
  match rest st with
  | [] => true
  | c :: t =>
      Ascii.eqb c NL && (MULTILINE fl || match t with [] => true | _ => false end)
  end.

Definition cont := mstate -> option mstate.

Fixpoint star (fl : flags) (i : item) (s : str) (st : mstate) (k : cont)
  : option mstate :=
  match s with
  | c :: t =>
      if item_ok fl i c
      then match star fl i t (advance c t st) k with
           | Some r => Some r
           | None => k st
           end
      else k st
  | [] => k st
  end.

Fixpoint rmatch (fl : flags) (r : regex) (st : mstate) (k : cont)
  : option mstate :=
  match r with
  | Empty => k st
  | One i =>
      match rest st with
      | c :: t => if item_ok fl i c then k (advance c t st) else None
      | [] => None
      end
  | Star i => star fl i (rest st) st k
  | Bol => if at_bol fl st then k st else None
  | Eol => if at_eol fl st then k st else None
  | Seq a b => rmatch fl a st (fun st' => rmatch fl b st' k)
  | Alt a b =>
      match rmatch fl a st k with
      | Some r => Some r
      | None => rmatch fl b st k
      end
  | Group n a =>
      rmatch fl a st
        (fun st' => k (set_group n (firstn (pos st' - pos st) (rest st)) st'))
  | NotAhead a =>
      match rmatch fl a st Some with
      | Some _ => None
      | None => k st
      end
  end.

(** A match object: the text matched and the groups. *)
Record matchobj := { m_text : str; m_groups : list (nat * str) }.

Fixpoint lookup (n : nat) (gs : list (nat * str)) : str :=
  match gs with
  | [] => []
  | (m, v) :: gs' => if Nat.eqb n m then v else lookup n gs'
  end.

(** [m.group(n)]; in every pattern of the module each group takes part in
    every match. *)
Definition group (m : matchobj) (n : nat) : str :=
  match n with
  | O => m_text m
  | _ => lookup n (m_groups m)
  end.

(** The match that starts at the current position, if there is one. *)
Definition match_here (fl : flags) (r : regex) (prev : option ascii) (s : str)
  : option matchobj :=
  match rmatch fl r {| before := prev; rest := s; pos := 0; groups := [] |} Some with
  | Some st => Some {| m_text := firstn (pos st) s; m_groups := groups st |}
  | None => None
  end.

(** A replacement template: literal text and [\g<n>] references. *)
Inductive piece := T (s : str) | G (n : nat).

Definition expand (tpl : list piece) (m : matchobj) : str :=
  flat_map (fun p => match p with T s => s | G n => group m n end) tpl.

(** [re.sub] with a callable replacement.  The subject is scanned from the
    left; [skip] counts the characters of the last match still to be passed,
    [adj] tells that the position is the end of the last match, where an
    empty match is not replaced. *)
Fixpoint sub_from (fl : flags) (r : regex) (repl : matchobj -> str)
  (skip : nat) (adj : bool) (prev : option ascii) (s : str) : str :=
  let step_over :=
    match s with
    | [] => []
    | c :: t => c :: sub_from fl r repl 0 false (Some c) t
    end in
  match skip with
  | S n =>
      match s with
      | [] => []
      | c :: t => sub_from fl r repl n (Nat.eqb n 0) (Some c) t
      end
  | O =>
      match match_here fl r prev s with
      | None => step_over
      | Some m =>
          match List.length (m_text m) with
          | O => if adj then step_over else repl m ++ step_over
          | S n =>
              repl m ++
              match s with
              | [] => []
              | c :: t => sub_from fl r repl n (Nat.eqb n 0) (Some c) t
              end
          end
      end
  end.

Definition sub_fn (fl : flags) (r : regex) (repl : matchobj -> str) (s : str)
  : str :=
  sub_from fl r repl 0 false None s.

(** [re.sub] with a template. *)
Definition sub (fl : flags) (r : regex) (tpl : list piece) (s : str) : str :=
  sub_fn fl r (expand tpl) s.

(** The non-overlapping matches from the left, each with the offset at which
    it starts. *)
Fixpoint scan (fl : flags) (r : regex) (skip : nat) (prev : option ascii)
  (off : nat) (s : str) : list (nat * matchobj) :=
  let next :=
    match s with
    | [] => []
    | c :: t => scan fl r 0 (Some c) (S off) t
    end in
  match skip with
  | S n =>
      match s with
      | [] => []
      | c :: t => scan fl r n (Some c) (S off) t
      end
  | O =>
      match match_here fl r prev s with
      | None => next
      | Some m =>
          (off, m) ::
          match List.length (m_text m), s with
          | S n, c :: t => scan fl r n (Some c) (S off) t
          | _, _ => next
          end
      end
  end.

(** [findall] for a pattern without groups: the texts matched. *)
Definition findall (fl : flags) (r : regex) (s : str) : list str :=
  map (fun om => m_text (snd om)) (scan fl r 0 None 0 s).

Fixpoint cut (s : str) (off : nat) (ms : list (nat * matchobj)) : list str :=
  match ms with
  | [] => [s]
  | (b, m) :: ms' =>
      let n := List.length (m_text m) in
      firstn (b - off) s :: cut (skipn (b - off + n) s) (b + n) ms'
  end.

(** [split] for a pattern without groups: the pieces between the matches
    that are not empty. *)
Definition split (fl : flags) (r : regex) (s : str) : list str :=
  cut s 0
    (filter (fun om => negb (Nat.eqb (List.length (m_text (snd om))) 0))
       (scan fl r 0 None 0 s)).

End Re.
Import Re.

(** ** Escaping (lines 65-114) *)

(** [(^|\s|Q)'], where Q is the double quote *)
Definition start_single_quote_re : regex :=
  Seq (Group 1 (Alt Bol (Alt (One Space) (One (Lit DQ))))) (One (Lit "'"%char)).

(** [(^|\s|'|`)Q] *)
Definition start_double_quote_re : regex :=
  Seq (Group 1 (Alt Bol (Alt (One Space)
                          (Alt (One (Lit "'"%char)) (One (Lit "`"%char))))))
      (One (Lit DQ)).

(** [Q(,|\.|\s|$)] *)
Definition end_double_quote_re : regex :=
  Seq (One (Lit DQ))
      (Group 1 (Alt (One (Lit ","%char))
                 (Alt (One (Lit "."%char)) (Alt (One Space) Eol)))).

Definition html_tags : list str := ["h1"; "h2"; "h3"; "h4"; "p"; "li"; "em"].

Definition remove_html_entities (text : str) : str :=
  let out := replace "&amp;" "\&" text in
  let out := replace "&lt;" "<" out in
  let out := replace "&gt;" "<" out in
  let out := replace "&quot;" [DQ] out in
  fold_left
    (fun out tag =>
       let out := replace ("<" ++ tag ++ ">") "" out in
       replace ("</" ++ tag ++ ">") "" out)
    html_tags out.

Definition escape_latex_entities (text : str) : str :=
  let out := text in
  let out := remove_html_entities out in
  let out := replace "%" "\%" out in
  let out := replace "&" "\&" out in
  let out := replace "#" "\#" out in
  let out := sub no_flags start_single_quote_re [G 1; T "`"] out in
  let out := sub no_flags start_double_quote_re [G 1; T "``"] out in
  let out := sub no_flags end_double_quote_re [T "''"; G 1] out in
  out.

Definition unescape_latex_entities (text : str) : str :=
  let out := text in
  let out := replace "\&" "&" out in
  out.

(** ** The math postprocessor (lines 284-322) *)

Definition ML : flags := {| MULTILINE := true; DOTALL := false |}.

Module MathTextPostProcessor.

Definition repl_1 (matchobj : Re.matchobj) : str :=
  let text := unescape_latex_entities (group matchobj 1) in
  let tmp := strip text in
  if startswith "\[" tmp || startswith "\begin" tmp
  then text
  else "\[" ++ text ++ "\]".

Definition repl_2 (matchobj : Re.matchobj) : str :=
  let text := unescape_latex_entities (group matchobj 1) in
  "$" ++ text ++ "$".

(** The end [\$\$ ( [^\$]* ) \$\$ \s* $] shared by the two display patterns
    (written here with blanks between the tokens). *)
Definition display_tail : regex :=
  Seq (Str "$$") (Seq (Group 1 (Star (NotLit DOLLAR)))
    (Seq (Str "$$") (Seq (Star Space) Eol))).

(** [<p> \$\$ ( [^\$]* ) \$\$ \s* $] *)
Definition pat : regex := Seq (Str "<p>") display_tail.

(** [^ \$\$ ( [^\$]* ) \$\$ \s* $] *)
Definition pat1 : regex := Seq Bol display_tail.

(** [( [^\$] ) \$ ( [^\$] )] *)
Definition pat2 : regex :=
  Seq (Group 1 (One (NotLit DOLLAR)))
    (Seq (One (Lit DOLLAR)) (Group 2 (One (NotLit DOLLAR)))).

(** [\$\$ ( [^\$]* ) \$\$] *)
Definition pat3 : regex :=
  Seq (Str "$$") (Seq (Group 1 (Star (NotLit DOLLAR))) (Str "$$")).

(** [\% (?! \s -* )] *)
Definition percent_re : regex :=
  Seq (One (Lit PERCENT)) (NotAhead (Seq (One Space) (Star (Lit "-"%char)))).

(** The two display-math substitutions. *)
Definition display_passes (instr : str) : str :=
  let out := sub_fn ML pat repl_1 instr in
  sub_fn ML pat1 repl_1 out.

(** The currency substitution, template [\g<1>\$\g<2>]. *)
Definition currency_pass (out : str) : str :=
  sub no_flags pat2 [G 1; T "\$"; G 2] out.

Definition inline_pass (out : str) : str := sub_fn no_flags pat3 repl_2 out.

(** The percent substitution, template [\%]. *)
Definition percent_pass (out : str) : str :=
  sub no_flags percent_re [T "\%"] out.

Definition run (instr : str) : str :=
  let out := display_passes instr in
  let out := currency_pass out in
  let out := inline_pass out in
  let out := percent_pass out in
  let out := replace "\lt" "<" out in
  let out := replace " * " " \cdot " out in
  let out := replace "\del" "\partial" out in
  out.

End MathTextPostProcessor.

(** ** Outcomes of the code that can fail *)

(** The exceptions the modelled code raises.  [Unmodelled] is no Python
    exception: the XML parser below returns it for a document that uses a
    construct outside the part of XML it models, and the repetition of a
    string returns it for a count whose outcome depends on the memory of the
    machine, so that the model never invents an answer there. *)
Inductive error := IndexError | ValueError | ExpatError | OverflowError | Unmodelled.

Inductive result (A : Type) : Type :=
| Ok (a : A)
| Raise (e : error).

Arguments Ok {A} a.
Arguments Raise {A} e.

(** ** The DOM of xml.dom.minidom, and parseString

    [parseString] belongs to the Python library, not to the module.  It is
    modelled for documents made of elements, attributes, character data and
    the five predefined entities, in printable ASCII with tabs and newlines
    and without namespaces: these are parsed as expat does, a document that
    is not well formed is answered with [ExpatError], and any other
    construct (comments, processing instructions, declarations, CDATA
    sections, character references, other characters, a name with a colon
    and the attribute [xmlns], which the namespace processing of minidom
    acts on) with [Unmodelled]. *)

Module Dom.

#[warnings="-register-all"]
Inductive node :=
| Element (tagName : str) (attributes : list (str * str)) (childNodes : list node)
| Text (data : str).

Definition is_element (n : node) : bool :=
  match n with Element _ _ _ => true | Text _ => false end.

Definition tagName_of (n : node) : str :=
  match n with Element t _ _ => t | Text _ => [] end.

Fixpoint assoc (name : str) (l : list (str * str)) : option str :=
  match l with
  | [] => None
  | (k, v) :: l' => if str_eqb k name then Some v else assoc name l'
  end.

Definition hasAttribute (n : node) (name : str) : bool :=
  match n with
  | Element _ attrs _ => match assoc name attrs with Some _ => true | None => false end
  | Text _ => false
  end.

(** [getAttribute] answers the empty string for an attribute that is absent. *)
Definition getAttribute (n : node) (name : str) : str :=
  match n with
  | Element _ attrs _ => match assoc name attrs with Some v => v | None => [] end
  | Text _ => []
  end.

(** [getElementsByTagName]: the descendants with that tag, in document order. *)
Fixpoint descendants_by_tag (name : str) (n : node) : list node :=
  match n with
  | Text _ => []
  | Element _ _ kids =>
      flat_map
        (fun k =>
           (if is_element k && str_eqb (tagName_of k) name then [k] else [])
           ++ descendants_by_tag name k)
        kids
  end.

Definition getElementsByTagName (n : node) (name : str) : list node :=
  descendants_by_tag name n.

(** *** The parser *)

Definition is_alpha (c : ascii) : bool :=
  let n := nat_of_ascii c in
  ((65 <=? n) && (n <=? 90) || (97 <=? n) && (n <=? 122))%nat.

Definition is_name_start (c : ascii) : bool :=
  is_alpha c || Ascii.eqb c "_"%char || Ascii.eqb c ":"%char.

Definition is_name_char (c : ascii) : bool :=
  is_name_start c || isdigit c || Ascii.eqb c "-"%char || Ascii.eqb c "."%char.

Definition is_plain (c : ascii) : bool :=
  let n := nat_of_ascii c in
  ((32 <=? n) && (n <=? 126))%nat || Ascii.eqb c TAB || Ascii.eqb c NL.

Fixpoint span (p : ascii -> bool) (s : str) : str * str :=
  match s with
  | [] => ([], [])
  | c :: t => if p c then let (a, b) := span p t in (c :: a, b) else ([], s)
  end.

(** The whitespace of XML: space, tab, newline and carriage return. *)
Definition xml_space (c : ascii) : bool :=
  mem c [" "%char; TAB; NL; CR].

Definition skip_space (s : str) : str := snd (span xml_space s).

(** A name the namespace processing acts on: one with a colon (a prefix
    that must be declared) or the declaration [xmlns] itself. *)
Definition namespaced (name : str) : bool :=
  mem ":"%char name || str_eqb name "xmlns".

(** What follows an ampersand: one of the predefined entities. *)
Definition reference (s : str) : result (ascii * str) :=
  if startswith "amp;" s then Ok ("&"%char, skipn 4 s)
  else if startswith "lt;" s then Ok ("<"%char, skipn 3 s)
  else if startswith "gt;" s then Ok (">"%char, skipn 3 s)
  else if startswith "quot;" s then Ok (DQ, skipn 5 s)
  else if startswith "apos;" s then Ok ("'"%char, skipn 5 s)
  else if startswith "#" s then Raise Unmodelled
  else Raise ExpatError.

(** An attribute value up to the closing quote [q]; a tab or a newline in it
    is normalised to a space. *)
Fixpoint att_value (fuel : nat) (q : ascii) (acc : str) (s : str)
  : result (str * str) :=
  match fuel with
  | O => Raise Unmodelled
  | S fuel' =>
      match s with
      | [] => Raise ExpatError
      | c :: t =>
          if Ascii.eqb c q then Ok (rev acc, t)
          else if Ascii.eqb c "<"%char then Raise ExpatError
          else if Ascii.eqb c "&"%char then
            match reference t with
            | Ok (x, t') => att_value fuel' q (x :: acc) t'
            | Raise e => Raise e
            end
          else if xml_space c then att_value fuel' q (" "%char :: acc) t
          else att_value fuel' q (c :: acc) t
      end
  end.

(** The attributes of a start tag and its end: [true] for [/>]. *)
Fixpoint attributes_of (fuel : nat) (acc : list (str * str)) (s : str)
  : result (list (str * str) * bool * str) :=
  match fuel with
  | O => Raise Unmodelled
  | S fuel' =>
      let (ws, s1) := span xml_space s in
      match s1 with
      | ">"%char :: t => Ok (rev acc, false, t)
      | "/"%char :: ">"%char :: t => Ok (rev acc, true, t)
      | c :: _ =>
          if is_name_start c && negb (Nat.eqb (List.length ws) 0) then
            let (name, s2) := span is_name_char s1 in
            if namespaced name then Raise Unmodelled else
            match skip_space s2 with
            | "="%char :: s3 =>
                match skip_space s3 with
                | q :: s4 =>
                    if Ascii.eqb q DQ || Ascii.eqb q "'"%char then
                      match att_value fuel' q [] s4 with
                      | Ok (v, s5) =>
                          match assoc name acc with
                          | Some _ => Raise ExpatError
                          | None => attributes_of fuel' ((name, v) :: acc) s5
                          end
                      | Raise e => Raise e
                      end
                    else Raise ExpatError
                | [] => Raise ExpatError
                end
            | _ => Raise ExpatError
            end
          else Raise ExpatError
      | [] => Raise ExpatError
      end
  end.

Definition flush (text : str) (kids : list node) : list node :=
  match text with
  | [] => kids
  | _ => Text (rev text) :: kids
  end.

(** [element] reads an element whose [<] has been read; [content] reads the
    content of the element [tag] up to and including its end tag.  [kids]
    and [text] hold, in reverse, the children read so far and the character
    data of the text node being read. *)
Fixpoint element (fuel : nat) (s : str) : result (node * str) :=
  match fuel with
  | O => Raise Unmodelled
  | S fuel' =>
      match s with
      | [] => Raise ExpatError
      | c :: _ =>
          if Ascii.eqb c "!"%char || Ascii.eqb c "?"%char then Raise Unmodelled
          else if is_name_start c then
            let (name, s1) := span is_name_char s in
            if namespaced name then Raise Unmodelled else
            match attributes_of fuel' [] s1 with
            | Ok (attrs, true, s2) => Ok (Element name attrs [], s2)
            | Ok (attrs, false, s2) =>
                match content fuel' name [] [] s2 with
                | Ok (kids, s3) => Ok (Element name attrs kids, s3)
                | Raise e => Raise e
                end
            | Raise e => Raise e
            end
          else Raise ExpatError
      end
  end
with content (fuel : nat) (tag : str) (kids : list node) (text : str) (s : str)
  : result (list node * str) :=
  match fuel with
  | O => Raise Unmodelled
  | S fuel' =>
      match s with
      | [] => Raise ExpatError
      | "<"%char :: "/"%char :: t =>
          let (name, s1) := span is_name_char t in
          match skip_space s1 with
          | ">"%char :: s2 =>
              if str_eqb name tag then Ok (rev (flush text kids), s2)
              else Raise ExpatError
          | _ => Raise ExpatError
          end
      | "<"%char :: t =>
          match element fuel' t with
          | Ok (k, s1) => content fuel' tag (k :: flush text kids) [] s1
          | Raise e => Raise e
          end
      | "&"%char :: t =>
          match reference t with
          | Ok (x, s1) => content fuel' tag kids (x :: text) s1
          | Raise e => Raise e
          end
      | c :: t => content fuel' tag kids (c :: text) t
      end
  end.

(** [xml.dom.minidom.parseString(instr).documentElement] *)
Definition parseString (instr : str) : result node :=
  if negb (forallb is_plain instr) || contains "]]>" instr then Raise Unmodelled
  else
    match skip_space instr with
    | "<"%char :: s =>
        match element (S (List.length instr)) s with
        | Ok (root, s1) =>
            match skip_space s1 with
            | [] => Ok root
            | "<"%char :: c :: _ =>
                if Ascii.eqb c "!"%char || Ascii.eqb c "?"%char
                then Raise Unmodelled else Raise ExpatError
            | _ => Raise ExpatError
            end
        | Raise e => Raise e
        end
    | _ => Raise ExpatError
    end.

End Dom.
Import Dom.

(** ** The table converter (lines 350-453) *)

Module Table2Latex.

(** The two counters of the converter object. *)
Record self := { numcols : Z; maxcols : Z }.

(** A method that reads and writes the counters and can raise. *)
Definition M (A : Type) : Type := self -> result (A * self).

Definition ret {A} (a : A) : M A := fun s => Ok (a, s).

Definition bind {A B} (m : M A) (f : A -> M B) : M B :=
  fun s => match m s with
           | Ok (a, s') => f a s'
           | Raise e => Raise e
           end.

Definition raise {A} (e : error) : M A := fun _ => Raise e.

Notation "x <- m ;; f" := (bind m (fun x => f))
  (at level 61, m at next level, right associativity).

(** The largest size of a string, [sys.maxsize] of a 64-bit build. *)
Definition max_size : Z := 2 ^ 63 - 1.

(** The number of copies up to which the model builds a repeated string. *)
Definition repeat_limit : Z := 2 ^ 20.

(** ['|c' * self.maxcols + '|']: the repetition raises [OverflowError] when
    the repeated string cannot have a size, which for the two characters of
    ['|c'] is a count above half of [max_size]; up to [repeat_limit] copies
    the string is built; in between the machine decides between a result
    and [MemoryError], which the model leaves open. *)
Definition colformat : M str :=
  fun s =>
    if (max_size <? 2 * maxcols s)%Z then Raise OverflowError
    else if (repeat_limit <? maxcols s)%Z then Raise Unmodelled
    else Ok (repeat_str "|c" (Z.to_nat (maxcols s)) ++ "|", s).

Fixpoint get_text (element : node) : str :=
  match element with
  | Text data => escape_latex_entities data
  | Element _ _ childNodes =>
      fold_left
        (fun result child =>
           let text := get_text child in
           if negb (str_eqb (strip text) "") then result ++ text else result)
        childNodes ""
  end.

(** [nextSibling] is the node after [element] in the list of its parent's
    children, [None] after the last one. *)
Definition process_cell (element : node) (nextSibling : option node) : M str :=
  let colspan := 1%Z in
  let subcontent := get_text element in
  let buffer := "" in
  let subcontent :=
    if str_eqb (tagName_of element) "th"
    then "\textbf{" ++ subcontent ++ "}" else subcontent in
  cb <- (if hasAttribute element "colspan" then
           match int (getAttribute element "colspan") with
           | Some colspan =>
               ret (colspan,
                    buffer ++ " \multicolumn{" ++ str_of_int colspan
                      ++ "}{|c|}{" ++ subcontent ++ "}")
           | None => raise ValueError
           end
         else ret (colspan, buffer ++ " " ++ subcontent)) ;;
  let (colspan, buffer) := (cb : Z * str) in
  let notLast :=
    match nextSibling with
    | Some sib =>
        is_element sib &&
        (str_eqb (tagName_of sib) "td" || str_eqb (tagName_of sib) "th")
    | None => false
    end in
  let buffer := if notLast then buffer ++ " &" else buffer in
  fun s => Ok (buffer, {| numcols := numcols s + colspan; maxcols := maxcols s |}).

Fixpoint tolatex (element : node) (nextSibling : option node) : M str :=
  match element with
  | Text _ => ret ""
  | Element tagName _ childNodes =>
      let buffer := "" in
      let subcontent := "" in
      subcontent <-
        (fix children (l : list node) (subcontent : str) : M str :=
           match l with
           | [] => ret subcontent
           | child :: l' =>
               text <- tolatex child (hd_error l') ;;
               children l'
                 (if negb (str_eqb (strip text) "")
                  then subcontent ++ text else subcontent)
           end) childNodes subcontent ;;
      let subcontent := strip subcontent in
      if str_eqb tagName "thead" then
        ret (buffer ++ subcontent ++ [NL])
      else if str_eqb tagName "tr" then
        fun s =>
          let s := {| numcols := numcols s;
                      maxcols := Z.max (numcols s) (maxcols s) |} in
          let s := {| numcols := 0; maxcols := maxcols s |} in
          Ok (buffer ++ [NL] ++ "\hline" ++ [NL] ++ subcontent ++ " \\", s)
      else if str_eqb tagName "td" || str_eqb tagName "th" then
        process_cell element nextSibling
      else
        ret (buffer ++ subcontent)
  end.

(** The template of [convert], filled with its three arguments. *)
Definition table_latex (colformatting core caption : str) : str :=
  [NL] ++ "\begin{table}" ++ [NL]
  ++ "\begin{tabular}{" ++ colformatting ++ "}" ++ [NL]
  ++ core ++ [NL]
  ++ "\hline" ++ [NL]
  ++ "\end{tabular}" ++ [NL]
  ++ "\\[5pt]" ++ [NL]
  ++ "\caption{" ++ caption ++ "}" ++ [NL]
  ++ "\end{table}" ++ [NL].

(** [convert] after [parseString]: [documentElement] is the root element. *)
Definition convert_dom (documentElement : node) : M str :=
  core <- tolatex documentElement None ;;
  let captionElements := getElementsByTagName documentElement "caption" in
  let caption :=
    match captionElements with
    | [] => ""
    | c :: _ => get_text c
    end in
  colformatting <- colformat ;;
  ret (table_latex colformatting core caption).

Definition convert (instr : str) : M str :=
  fun _ =>
    let s := {| numcols := 0; maxcols := 0 |} in
    match parseString instr with
    | Ok documentElement => convert_dom documentElement s
    | Raise e => Raise e
    end.

(** A fresh converter, as [Table2Latex()] makes it: no counter is set before
    the first [convert], which sets both. *)
Definition new : self := {| numcols := 0; maxcols := 0 |}.

End Table2Latex.

(** ** The table postprocessor (lines 328-347) *)

Module TableTextPostProcessor.

Definition DOTALL_flags : flags := {| MULTILINE := false; DOTALL := true |}.

(** [<table.*</table>] *)
Definition tablematch : regex :=
  Seq (Str "<table") (Seq (Star Dot) (Str "</table>")).

(** [l.pop()]: the last element and the list without it. *)
Definition pop {A} (l : list A) : result (A * list A) :=
  match rev l with
  | [] => Raise IndexError
  | x :: r => Ok (x, rev r)
  end.

(** The [while] loop; each turn pops two elements of [nontables], so
    [fuel] turns suffice when [fuel] is the length of [nontables]. *)
Fixpoint loop (fuel : nat) (converter : Table2Latex.self)
  (nontables tables new_blocks : list str) : option (result (list str)) :=
  if Nat.ltb 0 (List.length nontables) then
    match fuel with
    | O => None
    | S fuel' =>
        match pop nontables with
        | Raise e => Some (Raise e)
        | Ok (x, nontables) =>
            let new_blocks := new_blocks ++ [x] in
            match pop tables with
            | Raise e => Some (Raise e)
            | Ok (t, tables) =>
                match Table2Latex.convert t converter with
                | Raise e => Some (Raise e)
                | Ok (latex, converter) =>
                    let new_blocks := new_blocks ++ [strip latex] in
                    match pop nontables with
                    | Raise e => Some (Raise e)
                    | Ok (y, nontables) =>
                        let new_blocks := new_blocks ++ [y] in
                        loop fuel' converter nontables tables new_blocks
                    end
                end
            end
        end
    end
  else Some (Ok new_blocks).

(** [run]; [None] would mean that the loop was cut short, which the length
    of [nontables] as fuel excludes. *)
Definition run (instr : str) : option (result str) :=
  let tables := findall DOTALL_flags tablematch instr in
  let nontables := split DOTALL_flags tablematch instr in
  let converter := Table2Latex.new in
  let new_blocks := [] in
  match loop (List.length nontables) converter nontables tables new_blocks with
  | Some (Ok new_blocks) => Some (Ok (join [NL] (rev new_blocks)))
  | Some (Raise e) => Some (Raise e)
  | None => None
  end.

End TableTextPostProcessor.

(** ** The image converter (lines 480-495) *)

Module Img2Latex.

Definition figure (src alt : str) : str :=
  [NL] ++ "\begin{figure}" ++ [NL]
  ++ "\centering" ++ [NL]
  ++ "\includegraphics[width=\textwidth]{" ++ src ++ "}" ++ [NL]
  ++ "\caption{" ++ alt ++ "}" ++ [NL]
  ++ "\end{figure}" ++ [NL].

Definition convert (instr : str) : result str :=
  match parseString instr with
  | Raise e => Raise e
  | Ok img =>
      let src := getAttribute img "src" in
      let alt := getAttribute img "alt" in
      Ok (figure src alt)
  end.

End Img2Latex.

(** ** The tree walker (lines 242-272) *)

Module LaTeXTreeProcessor.

(** An ElementTree element: its tag, its text ([None] when the element has
    none) and its children.  The walker corrects texts in place and never
    changes the shape of the tree, so the model returns the corrected tree;
    an element is taken to occur once in the tree, as in a parsed document. *)
#[warnings="-register-all"]
Inductive Element :=
| Elem (tag : str) (text : option str) (children : list Element).

Definition tag (e : Element) : str := match e with Elem t _ _ => t end.
Definition text (e : Element) : option str := match e with Elem _ x _ => x end.
Definition children (e : Element) : list Element := match e with Elem _ _ l => l end.

(** [elem.text = t] *)
Definition set_text (e : Element) (t : str) : Element :=
  Elem (tag e) (Some t) (children e).

(** ['%s' % x] for a text: [None] is written as the word None. *)
Definition pct_s (x : option str) : str :=
  match x with
  | Some s => s
  | None => "None"
  end.

Definition rule : str :=
  "% ----------------------------------------------------------------".

(** The seven [if] statements of the loop body, one definition each. *)
Definition if_h1 (elem : Element) : Element :=
  if str_eqb (tag elem) "h1" then
    let elem := set_text elem ([NL] ++ "\title{" ++ pct_s (text elem) ++ "}" ++ [NL]) in
    set_text elem
      (pct_s (text elem) ++ [NL] ++ rule ++ [NL] ++ "\maketitle" ++ [NL]
         ++ rule ++ [NL])
  else elem.

Definition if_h2 (elem : Element) : Element :=
  if str_eqb (tag elem) "h2" then
    set_text elem ([NL] ++ "\section{" ++ pct_s (text elem) ++ "}" ++ [NL])
  else elem.

Definition if_h3 (elem : Element) : Element :=
  if str_eqb (tag elem) "h3" then
    set_text elem ([NL] ++ "\subsection{" ++ pct_s (text elem) ++ "}" ++ [NL])
  else elem.

Definition if_h4 (elem : Element) : Element :=
  if str_eqb (tag elem) "h4" then
    set_text elem ([NL] ++ "\subsubsection{" ++ pct_s (text elem) ++ "}" ++ [NL])
  else elem.

Definition if_li (elem : Element) : Element :=
  if str_eqb (tag elem) "li" then
    set_text elem ("  \item " ++ pct_s (text elem))
  else elem.

(** [tags] are the tags of the direct children. *)
Definition if_p (tags : list str) (elem : Element) : Element :=
  if str_eqb (tag elem) "p"
     && negb (existsb (str_eqb "sup") tags)
     && negb (existsb (str_eqb "em") tags) then
    set_text elem (pct_s (text elem) ++ [NL])
  else elem.

Definition if_em (elem : Element) : Element :=
  if str_eqb (tag elem) "em" then
    set_text elem ("\emph{" ++ pct_s (text elem) ++ "}")
  else elem.

(** The body of the loop after the recursive call: the seven statements in
    their order. *)
Definition rewrite (tags : list str) (elem : Element) : Element :=
  let elem := if_h1 elem in
  let elem := if_h2 elem in
  let elem := if_h3 elem in
  let elem := if_h4 elem in
  let elem := if_li elem in
  let elem := if_p tags elem in
  let elem := if_em elem in
  elem.

(** [tolatex ournode]: the loop over the children of [ournode]; [ournode]
    itself is not rewritten. *)
Fixpoint tolatex (ournode : Element) : Element :=
  match ournode with
  | Elem tg tx kids =>
      Elem tg tx
        (map
           (fun elem =>
              let tags := map tag (children elem) in
              let elem :=
                if Nat.ltb 0 (List.length (children elem))
                then tolatex elem else elem in
              rewrite tags elem)
           kids)
  end.

Definition run (root : Element) : Element := tolatex root.

End LaTeXTreeProcessor.

(** ** More of Python's strings *)

Module PyMore.

(** [s.endswith(p)] *)
Definition endswith (p s : str) : bool := startswith (rev p) (rev s).

(** [s[1:-1]] *)
Definition slice_1_m1 (s : str) : str := removelast (tl s).

(** [s.split(c)] for a separator of one character: the pieces between the
    separators, a single empty piece for the empty string. *)
Fixpoint split_on (c : ascii) (s : str) : list str :=
  match s with
  | [] => [[]]
  | x :: t =>
      if Ascii.eqb x c then [] :: split_on c t
      else match split_on c t with
           | h :: r => (x :: h) :: r
           | [] => [[x]]
           end
  end.

End PyMore.
Import PyMore.

(** ** The helpers on whole texts (lines 69-80, 201-207, 621-624) *)

Definition fix_html_blocks (text : str) : str :=
  let out := replace "<ul>" "\begin{itemize}" text in
  let out := replace "</ul>" ("\end{itemize}" ++ [NL]) out in
  let out := replace "<ol>" "\begin{enumerate}" out in
  let out := replace "</ol>" ("\end{enumerate}" ++ [NL]) out in
  let out := replace "<sup>" "\footnote{" out in
  let out := replace "</sup>" "}" out in
  let out := replace "<blockquote>" "\begin{quotation}" out in
  let out := replace "</blockquote>" ("\end{quotation}" ++ [NL]) out in
  let out := replace "<pre><code>" ("\begin{verbatim}" ++ [NL]) out in
  let out := replace "</code></pre>" ("\end{verbatim}" ++ [NL]) out in
  out.

Definition dequote (string : str) : str :=
  if (startswith [DQ] string && endswith [DQ] string)
     || (startswith "'" string && endswith "'" string)
  then slice_1_m1 string
  else string.

(** [template]: [tmpl] is what [template_fo.read()] returns. *)
Definition template (tmpl latex_to_insert : str) : str :=
  replace "INSERT-TEXT-HERE" latex_to_insert tmpl.

(** ** The postprocessor run last (lines 275-280) *)

Module UnescapeHtmlTextPostProcessor.

(** [run] prints its argument and returns the text without the HTML that
    is left: the first component is the line written to the standard
    output, the second the value returned. *)
Definition run (text : str) : str * str :=
  (text ++ [NL], remove_html_entities (fix_html_blocks text)).

End UnescapeHtmlTextPostProcessor.

(** ** The image postprocessor (lines 458-478) *)

Module ImageTextPostProcessor.

(** The body of the loop for one block: what is appended to
    [new_blocks]. *)
Definition block_out (block : str) : result str :=
  let stripped := strip block in
  let stripped := replace "<p>" "" stripped in
  if startswith "<img" stripped then
    match Img2Latex.convert stripped with
    | Ok latex_img => Ok (strip latex_img)
    | Raise e => Raise e
    end
  else Ok block.

(** The loop over the blocks, which stops at the first block whose
    conversion raises. *)
Fixpoint loop (blocks new_blocks : list str) : result (list str) :=
  match blocks with
  | [] => Ok new_blocks
  | block :: blocks' =>
      match block_out block with
      | Ok b => loop blocks' (new_blocks ++ [b])
      | Raise e => Raise e
      end
  end.

Definition run (instr : str) : result str :=
  match loop (split_on NL instr) [] with
  | Ok new_blocks => Ok (join [NL] new_blocks)
  | Raise e => Raise e
  end.

End ImageTextPostProcessor.

(** * Vocabulary of the statements *)

(** ** Counting the columns of a table *)

Module Columns.
Import Table2Latex.

(** The loop of [tolatex] over the children of an element. *)
Fixpoint children_loop (l : list node) (subcontent : str) : M str :=
  match l with
  | [] => ret subcontent
  | child :: l' =>
      text <- tolatex child (hd_error l') ;;
      children_loop l'
        (if negb (str_eqb (strip text) "") then subcontent ++ text else subcontent)
  end.

(** What [tolatex] does with an element once its children are walked: the
    branches on its tag. *)
Definition finish (element : node) (nextSibling : option node) (tagName subcontent : str)
  : M str :=
  let subcontent := strip subcontent in
  if str_eqb tagName "thead" then
    ret ("" ++ subcontent ++ [NL])
  else if str_eqb tagName "tr" then
    fun s =>
      let s := {| numcols := numcols s; maxcols := Z.max (numcols s) (maxcols s) |} in
      let s := {| numcols := 0; maxcols := maxcols s |} in
      Ok ("" ++ [NL] ++ "\hline" ++ [NL] ++ subcontent ++ " \\", s)
  else if str_eqb tagName "td" || str_eqb tagName "th" then
    process_cell element nextSibling
  else
    ret ("" ++ subcontent).

(** A node adds [w] to the running count of columns and leaves the maximum
    alone, whatever follows it and whatever the counters are. *)
Definition contributes (c : node) (w : Z) : Prop :=
  forall next s, exists buffer,
    tolatex c next s = Ok (buffer, {| numcols := numcols s + w; maxcols := maxcols s |}).

(** [n.nodeType == TEXT_NODE] *)
Definition is_text (n : node) : bool := negb (is_element n).

(** [tg in ['td', 'th']] *)
Definition is_cell_tag (tg : str) : bool := str_eqb tg "td" || str_eqb tg "th".

(** A table whose children are rows: the rows are walked in order and the
    counters end where the last row leaves them. *)
Definition row_like (r : node) (w : Z) : Prop :=
  forall next s, exists buffer,
    tolatex r next s
    = Ok (buffer, {| numcols := 0; maxcols := Z.max (numcols s + w) (maxcols s) |}).

(** The cells of a table: a cell is a [td] or a [th] (a header cell) with
    its text. *)
Definition cell (header : bool) (t : str) : node :=
  Element (if header then "th" else "td") [] [Text t].

Definition cell_span (header : bool) (n t : str) : node :=
  Element (if header then "th" else "td") [("colspan", n)] [Text t].

Definition two_row_table (h1 h2 h3 h4 h5 : bool) (t1 t2 t3 t4 t5 : str) : node :=
  Element "table" []
    [Element "tr" [] [cell h1 t1; cell h2 t2; cell h3 t3];
     Element "tr" [] [cell_span h4 "2" t4; cell h5 t5]].

End Columns.

(** ** The text of a cell *)

Module Cells.
Import Table2Latex.

(** What [process_cell] writes before the separator for a cell without
    [colspan]. *)
Definition plain_content (el : node) : str :=
  " " ++ (if str_eqb (tagName_of el) "th"
          then "\textbf{" ++ get_text el ++ "}" else get_text el).

Definition bump (s : self) (w : Z) : self :=
  {| numcols := numcols s + w; maxcols := maxcols s |}.

End Cells.

(** ** Elements of a tree by their path *)

Module Paths.
Import LaTeXTreeProcessor.

(** The element reached from [e] by following the children numbered in
    [p]; the empty path is [e] itself. *)
Fixpoint at_path (e : Element) (p : list nat) : option Element :=
  match p with
  | [] => Some e
  | i :: p' =>
      match nth_error (children e) i with
      | Some c => at_path c p'
      | None => None
      end
  end.

(** [t in tags] for the tags of the direct children of [e]. *)
Definition has_child (t : str) (e : Element) : bool :=
  existsb (str_eqb t) (map tag (children e)).

(** What the loop of [tolatex] does with one child. *)
Definition step (elem : Element) : Element :=
  let tags := map tag (children elem) in
  let elem :=
    if Nat.ltb 0 (List.length (children elem)) then tolatex elem else elem in
  rewrite tags elem.

End Paths.

(** ** Vocabulary for the currency substitution *)

Module Currency.
Import MathTextPostProcessor.

Definition not_dollar (c : ascii) : bool := negb (Ascii.eqb c DOLLAR).

(** [s] does not end with the character [c]. *)
Fixpoint last_is (c : ascii) (s : str) : bool :=
  match s with
  | [] => false
  | [x] => Ascii.eqb x c
  | _ :: t => last_is c t
  end.

Definition tpl : list piece := [G 1; T "\$"; G 2].

Definition starts_ok (rest : str) : bool :=
  match rest with
  | [] => true
  | c :: _ => not_dollar c
  end.

End Currency.

(** ** Vocabulary for the percent substitution *)

Module Percent.
Import MathTextPostProcessor.

(** The text starts with a whitespace character of [\s]. *)
Definition starts_space (t : str) : bool :=
  match t with
  | [] => false
  | c :: _ => is_space c
  end.

(** What follows a percent sign: [Some true] when the text ends there or
    goes on with a character that is no whitespace, [Some false] when it
    goes on with a whitespace character and a dash, as in a comment rule;
    a whitespace character followed by anything else is not spoken of. *)
Definition follows (post : str) : option bool :=
  match post with
  | [] => Some true
  | c :: t =>
      if is_space c then
        match t with
        | d :: _ => if Ascii.eqb d "-" then Some false else None
        | [] => None
        end
      else Some true
  end.

(** The substitution, character by character. *)
Fixpoint percent_spec (s : str) : str :=
  match s with
  | [] => []
  | c :: t =>
      if Ascii.eqb c PERCENT && negb (starts_space t)
      then BS :: PERCENT :: percent_spec t
      else c :: percent_spec t
  end.

End Percent.

(** ** Vocabulary for the display substitutions *)

Module Display.
Import MathTextPostProcessor.

Definition not_dollar (c : ascii) : bool := negb (Ascii.eqb c DOLLAR).

(** The position reached from [st] once the characters of [c] are taken and
    [t] is left. *)
Definition after (c t : str) (st : mstate) : mstate :=
  {| before := match rev c with [] => before st | x :: _ => Some x end;
     rest := t;
     pos := List.length c + pos st;
     groups := groups st |}.

Definition dollars (s : str) : nat := count_occ ascii_dec s DOLLAR.

(** The guard of [repl_1]: the text, stripped, starts with [\[] or with
    [\begin]. *)
Definition already_latex (text : str) : bool :=
  startswith "\[" (strip text) || startswith "\begin" (strip text).

(** What [repl_1] puts in the place of a block with content [c]. *)
Definition converted (c : str) : str :=
  let text := unescape_latex_entities c in
  if already_latex text then text else "\[" ++ text ++ "\]".

(** The block starts a line: nothing, or a newline, stands before it. *)
Definition line_start (pre : str) : bool :=
  match rev pre with
  | [] => true
  | x :: _ => Ascii.eqb x NL
  end.

(** The text goes on, after blanks of the same line, with a character
    that is no whitespace. *)
Fixpoint reaches_word (t : str) : bool :=
  match t with
  | [] => false
  | y :: t' => if is_space y then negb (Ascii.eqb y NL) && reaches_word t' else true
  end.

(** The block, with the whitespace after it, ends a line: the text ends
    there, or goes on with a newline and a line that is not blank. *)
Definition line_end (rest : str) : bool :=
  match rest with
  | [] => true
  | x :: t => Ascii.eqb x NL && reaches_word t
  end.

End Display.

(** ** Vocabulary for the escaping *)

Module Escape.

(** The characters [escape_latex_entities] puts a backslash before. *)
Definition special (c : ascii) : bool :=
  Ascii.eqb c "%"%char || Ascii.eqb c "&"%char || Ascii.eqb c "#"%char.

(** A backslash or one of the three characters. *)
Definition sharp (c : ascii) : bool := Ascii.eqb c BS || special c.

(** The text holds [\%], [\&] or [\#]. *)
Definition escaped_in (s : str) : bool :=
  contains "\%" s || contains "\&" s || contains "\#" s.

(** The text holds [\\%], [\\&] or [\\#]. *)
Definition double_escaped (s : str) : bool :=
  contains "\\%" s || contains "\\&" s || contains "\\#" s.

(** One backslash before each of the three characters. *)
Definition esc (x : ascii) : str := if special x then [BS; x] else [x].

(** [requote new s o]: [o] is [s] with some of its characters, none of them
    a backslash or one of the three characters, replaced by the text
    [new]. *)
Inductive requote (new : str) : str -> str -> Prop :=
| rq_nil : requote new [] []
| rq_keep x s o : requote new s o -> requote new (x :: s) (x :: o)
| rq_new x s o : sharp x = false -> requote new s o -> requote new (x :: s) (new ++ o).

(** The three shapes a match of the quote patterns takes: the quote alone,
    the quote after the character of group 1, the quote before it. *)
Definition shape (new : str) (tpl : list piece) (s : str) (m : matchobj) : Prop :=
  (exists q t, s = q :: t /\ sharp q = false /\ m_text m = [q] /\ expand tpl m = new)
  \/ (exists w q t, s = w :: q :: t /\ sharp q = false
                    /\ m_text m = [w; q] /\ expand tpl m = w :: new)
  \/ (exists q x t, s = q :: x :: t /\ sharp q = false
                    /\ m_text m = [q; x] /\ expand tpl m = new ++ [x]).




Definition no_backslash (s : str) : bool :=
  forallb (fun x => negb (Ascii.eqb x BS)) s.

End Escape.

(** ** Occurrences of a text in a text *)

Module Occurrences.

(** The comparison of [old] with the start of [p] fails on a character of
    [p]: whatever follows [p], [old] does not start there. *)
Fixpoint decided_no (old p : str) : bool :=
  match old, p with
  | o :: old', x :: p' => if Ascii.eqb o x then decided_no old' p' else true
  | _, _ => false
  end.

(** [old] starts at no position of [p], whatever follows [p]. *)
Fixpoint never_starts (old p : str) : bool :=
  match p with
  | [] => true
  | _ :: p' => decided_no old p && never_starts old p'
  end.

(** The ampersand escape of [escape_latex_entities], character by
    character. *)
Definition amp (x : ascii) : str := if Ascii.eqb "&" x then "\&" else [x].

End Occurrences.

(** ** Texts without markup *)

Module Plain.
Import MathTextPostProcessor Display.

(** The character is not [c]. *)
Definition is_not (c : ascii) (x : ascii) : bool := negb (Ascii.eqb x c).

(** None of the four entities occurs in the text. *)
Definition no_entity (text : str) : bool :=
  negb (contains "&amp;" text) && negb (contains "&lt;" text)
  && negb (contains "&gt;" text) && negb (contains "&quot;" text).

(** The character is no quote. *)
Definition no_quote (c : ascii) : bool := is_not "'" c && is_not DQ c.

(** The character starts no tag and is no quote. *)
Definition no_markup (c : ascii) : bool := is_not "<" c && no_quote c.

(** The character is none of [$], [%], the backslash and [*]. *)
Definition prose (c : ascii) : bool :=
  not_dollar c && is_not PERCENT c && is_not BS c && is_not "*" c.

End Plain.

(** ** Lines that hold an image *)

Module Images.
Import ImageTextPostProcessor.

(** The block is taken for an image: stripped and without [<p>], it
    starts with [<img]. *)
Definition is_img_block (block : str) : bool :=
  startswith "<img" (replace "<p>" "" (strip block)).

End Images.

(** ** Rows and cells of a table *)

Module Rows.
Import Table2Latex Columns Cells.

(** Induction on a node with the property known of all the children. *)
Section NodeInduction.
Variable P : node -> Prop.
Hypothesis Htext : forall d, P (Text d).
Hypothesis Helem : forall tg attrs kids, Forall P kids -> P (Element tg attrs kids).

End NodeInduction.



(** The columns a child of a row counts for: text counts for none, a cell
    whose children are text for one or for what its [colspan] says. *)
Definition cell_width (c : node) : option Z :=
  match c with
  | Text _ => Some 0%Z
  | Element tg attrs kids =>
      if is_cell_tag tg && forallb is_text kids then
        match assoc "colspan" attrs with
        | None => Some 1%Z
        | Some v => int v
        end
      else None
  end.

(** The sum of what the children of a row count for. *)
Definition cells_width (cells : list node) : option Z :=
  fold_right
    (fun c acc =>
       match cell_width c, acc with
       | Some w, Some a => Some (w + a)%Z
       | _, _ => None
       end)
    (Some 0%Z) cells.

(** The width of a child of the table: text has none, a row has the sum of
    what its children count for. *)
Definition row_width (r : node) : option Z :=
  match r with
  | Text _ => Some 0%Z
  | Element tg _ cells => if str_eqb tg "tr" then cells_width cells else None
  end.

(** The width of a node of the table, zero where it has none. *)
Definition width_or_zero (r : node) : Z :=
  match row_width r with
  | Some w => w
  | None => 0%Z
  end.

(** A cell whose children are text and whose [colspan] is the decimal
    numeral of [n]. *)
Definition spanning_cell (n : Z) (c : node) : bool :=
  match c with
  | Text _ => false
  | Element tg attrs kids =>
      is_cell_tag tg && forallb is_text kids
      && match assoc "colspan" attrs with
         | Some v => str_eqb v (str_of_int n)
         | None => false
         end
  end.

(** The largest of the widths, and zero when there is none. *)
Definition widest (ws : list Z) : Z := fold_left (fun m w => Z.max w m) ws 0%Z.

(** A cell without [colspan] whose children are text. *)
Definition plain_cell (c : node) : bool :=
  match c with
  | Text _ => false
  | Element tg attrs kids =>
      is_cell_tag tg && negb (hasAttribute c "colspan") && forallb is_text kids
  end.

(** The cells of a row, each followed by the separator but the last, which
    is left out when it is blank. *)
Fixpoint row_body (cells : list node) : str :=
  match cells with
  | [] => ""
  | c :: rest =>
      match rest with
      | [] => if str_eqb (strip (plain_content c)) "" then "" else plain_content c
      | _ :: _ => (plain_content c ++ " &") ++ row_body rest
      end
  end.

End Rows.

(** ** Decimal numerals *)

Module Numerals.

(** The digits of a decimal number as a string. *)
Definition chars (d : Decimal.uint) : str :=
  list_ascii_of_string (NilEmpty.string_of_uint d).

End Numerals.

(** ** The rules of the tree walker *)

Module Rules.
Import LaTeXTreeProcessor.

(** The text one pass of the loop body leaves in an element with tag [tg]
    and text [t] whose children have the tags [tags]: the seven statements
    as one choice by the tag. *)
Definition text_after (tags : list str) (tg : str) (t : option str) : option str :=
  if str_eqb tg "h1" then
    Some ([NL] ++ "\title{" ++ pct_s t ++ "}" ++ [NL] ++ [NL] ++ rule ++ [NL]
            ++ "\maketitle" ++ [NL] ++ rule ++ [NL])
  else if str_eqb tg "h2" then Some ([NL] ++ "\section{" ++ pct_s t ++ "}" ++ [NL])
  else if str_eqb tg "h3" then Some ([NL] ++ "\subsection{" ++ pct_s t ++ "}" ++ [NL])
  else if str_eqb tg "h4" then Some ([NL] ++ "\subsubsection{" ++ pct_s t ++ "}" ++ [NL])
  else if str_eqb tg "li" then Some ("  \item " ++ pct_s t)
  else if str_eqb tg "p" then
    if existsb (str_eqb "sup") tags || existsb (str_eqb "em") tags
    then t else Some (pct_s t ++ [NL])
  else if str_eqb tg "em" then Some ("\emph{" ++ pct_s t ++ "}")
  else t.


End Rules.

(** ** The end of a table *)

Module Tables.
Import TableTextPostProcessor.

(** The end tag, as the continuation of the repetition. *)
Definition close : cont := fun st' => rmatch DOTALL_flags (Str "</table>") st' Some.

End Tables.

(** * Properties *)

(** ** Strings *)

Lemma str_eqb_refl (a : str) : str_eqb a a = true.
Proof.
  induction a as [|x a IH]; simpl; [reflexivity|].
  rewrite Ascii.eqb_refl, IH. reflexivity.
Qed.

Lemma str_eqb_eq (a b : str) : str_eqb a b = true <-> a = b.
Proof.
  split.
  - revert b. induction a as [|x a IH]; intros [|y b] H; simpl in H;
      try discriminate; [reflexivity|].
    apply andb_true_iff in H. destruct H as [Hxy Hab].
    apply Ascii.eqb_eq in Hxy. apply IH in Hab. congruence.
  - intros ->. apply str_eqb_refl.
Qed.

(** ** The table postprocessor on a text without a table *)

(** C1.  When the pattern [<table.*</table>] matches nowhere in the input
    ([findall] finds nothing), [TableTextPostProcessor.run] does not return
    the text: it raises [IndexError], from popping the empty list of
    tables. *)
Theorem C1_run_without_table_raises (instr : str) :
  findall TableTextPostProcessor.DOTALL_flags TableTextPostProcessor.tablematch instr = [] ->
  TableTextPostProcessor.run instr = Some (Raise IndexError).
Proof.
  intros H. unfold TableTextPostProcessor.run.
  rewrite H. unfold split. unfold findall in H.
  apply map_eq_nil in H. rewrite H. reflexivity.
Qed.

Lemma C1_run_without_table_raises_witness :
  findall TableTextPostProcessor.DOTALL_flags TableTextPostProcessor.tablematch
    "Some text, no table." = []
  /\ TableTextPostProcessor.run "Some text, no table." = Some (Raise IndexError).
Proof.
  split.
  - vm_compute. reflexivity.
  - apply (C1_run_without_table_raises "Some text, no table."). vm_compute. reflexivity.
Defined.

(** With one table in the text the loop ends normally. *)
Example run_with_one_table :
  TableTextPostProcessor.run "abc <table><tr><td>a</td></tr></table> def"
  = Some (Ok (join [NL]
       ["abc ";
        strip (Table2Latex.table_latex "|c|" ("\hline" ++ [NL] ++ "a \\") "");
        " def"])).
Proof. vm_compute. reflexivity. Qed.

(** ** The image converter *)

(** C2, the claim as stated fails: [<img>] is an unclosed tag, the XML parser
    rejects it and [convert] raises. *)
Lemma C2_img_unclosed_raises :
  Img2Latex.convert "<img>" = Raise ExpatError
  /\ Img2Latex.convert "<img>" <> Ok (Img2Latex.figure "" "").
Proof.
  split; [vm_compute; reflexivity | vm_compute; discriminate].
Qed.

(** C2, amended.  [Img2Latex.convert] applied to the well-formed fragment
    [<img/>], an img tag with no attributes, does not raise and returns the
    figure block whose [\includegraphics] path and [\caption] are both
    empty. *)
Theorem C2_img_no_attributes :
  Img2Latex.convert "<img/>" = Ok (Img2Latex.figure "" "").
Proof. vm_compute. reflexivity. Qed.

(** ** The math postprocessor on the two documented inputs *)

(** C8.  The line [$$ x^2 $$] alone becomes the display block [\[ x^2 \]];
    in [Price is $5 and $$E=mc^2$$ today] the currency dollar is escaped and
    the math in the middle of the sentence becomes inline math. *)
Theorem C8_math_examples :
  MathTextPostProcessor.run "$$ x^2 $$" = "\[ x^2 \]"
  /\ MathTextPostProcessor.run "Price is $5 and $$E=mc^2$$ today"
     = "Price is \$5 and $E=mc^2$ today".
Proof. split; vm_compute; reflexivity. Qed.

(** ** The table converter: counting columns *)

Module TableFacts.
Import Table2Latex Columns.

Lemma tolatex_unfold (tg : str) (attrs : list (str * str)) (kids : list node)
  (next : option node) (s : self) :
  tolatex (Element tg attrs kids) next s
  = (subcontent <- children_loop kids "" ;;
     finish (Element tg attrs kids) next tg subcontent) s.
Proof.
  enough (L : forall l acc s0,
    (fix children (l : list node) (subcontent : str) : M str :=
       match l with
       | [] => ret subcontent
       | child :: l' =>
           text <- tolatex child (hd_error l') ;;
           children l'
             (if negb (str_eqb (strip text) "")
              then subcontent ++ text else subcontent)
       end) l acc s0 = children_loop l acc s0).
  { simpl. unfold bind. rewrite L. reflexivity. }
  induction l as [|c l IH]; intros acc s0; [reflexivity|].
  simpl. unfold bind.
  destruct (tolatex c (hd_error l) s0) as [[text s1]|e]; [apply IH | reflexivity].
Qed.

Lemma children_loop_text (l : list node) (acc : str) (s : self) :
  forallb is_text l = true -> children_loop l acc s = Ok (acc, s).
Proof.
  revert acc. induction l as [|c l IH]; intros acc H; [reflexivity|].
  simpl in H. apply andb_true_iff in H. destruct H as [Hc Hl].
  destruct c as [tg a k|d]; [discriminate|].
  simpl. unfold bind. simpl. apply IH, Hl.
Qed.

Lemma finish_cell (el : node) (next : option node) (tg sub : str) (s : self) :
  is_cell_tag tg = true -> finish el next tg sub s = process_cell el next s.
Proof.
  unfold is_cell_tag, finish. intros H.
  destruct (str_eqb tg "thead") eqn:E1.
  { apply str_eqb_eq in E1. subst tg. discriminate. }
  destruct (str_eqb tg "tr") eqn:E2.
  { apply str_eqb_eq in E2. subst tg. discriminate. }
  rewrite H. reflexivity.
Qed.

(** A cell without [colspan] whose children are text counts for one column. *)
Lemma plain_cell_contributes (tg : str) (attrs : list (str * str)) (kids : list node) :
  is_cell_tag tg = true -> assoc "colspan" attrs = None ->
  forallb is_text kids = true ->
  contributes (Element tg attrs kids) 1.
Proof.
  intros Htg Hattr Hkids next s. rewrite tolatex_unfold. unfold bind.
  rewrite children_loop_text by assumption.
  rewrite finish_cell by assumption.
  unfold process_cell, bind, hasAttribute. rewrite Hattr. unfold ret.
  eexists. reflexivity.
Qed.

(** A cell that declares [colspan] counts for the number it declares. *)
Lemma spanning_cell_contributes (tg : str) (attrs : list (str * str)) (kids : list node)
  (v : str) (n : Z) :
  is_cell_tag tg = true -> assoc "colspan" attrs = Some v -> int v = Some n ->
  forallb is_text kids = true ->
  contributes (Element tg attrs kids) n.
Proof.
  intros Htg Hattr Hint Hkids next s. rewrite tolatex_unfold. unfold bind.
  rewrite children_loop_text by assumption.
  rewrite finish_cell by assumption.
  unfold process_cell, bind, hasAttribute, getAttribute. rewrite Hattr, Hint.
  unfold ret. eexists. reflexivity.
Qed.

(** Text between the cells (which [tolatex] answers with the empty string)
    counts for nothing. *)
Lemma text_contributes (d : str) : contributes (Text d) 0.
Proof.
  intros next s. exists "". simpl. unfold ret.
  rewrite Z.add_0_r. destruct s; reflexivity.
Qed.

Lemma children_loop_contributes (l : list node) (ws : list Z) :
  Forall2 contributes l ws ->
  forall acc s, exists out,
    children_loop l acc s
    = Ok (out, {| numcols := numcols s + fold_right Z.add 0%Z ws; maxcols := maxcols s |}).
Proof.
  induction 1 as [|c w l ws Hc Hl IH]; intros acc s.
  - exists acc. simpl. unfold ret. rewrite Z.add_0_r. destruct s; reflexivity.
  - simpl. unfold bind.
    destruct (Hc (hd_error l) s) as [b Hb]. rewrite Hb.
    match goal with |- context [children_loop l ?a ?t] =>
      destruct (IH a t) as [out Hout]; rewrite Hout end.
    exists out. simpl. rewrite Z.add_assoc. reflexivity.
Qed.

(** A row: the maximum becomes the larger of the old maximum and the count
    the cells have reached, and the count starts again from zero. *)
Lemma row_updates_maxcols (attrs : list (str * str)) (cells : list node) (ws : list Z) :
  Forall2 contributes cells ws ->
  forall next s, exists buffer,
    tolatex (Element "tr" attrs cells) next s
    = Ok (buffer,
          {| numcols := 0;
             maxcols := Z.max (numcols s + fold_right Z.add 0%Z ws) (maxcols s) |}).
Proof.
  intros H next s. rewrite tolatex_unfold. unfold bind.
  destruct (children_loop_contributes H "" s) as [out Hout]. rewrite Hout.
  eexists. reflexivity.
Qed.

Lemma table_of_two_rows (attrs : list (str * str)) (r1 r2 : node) (w1 w2 : Z) :
  row_like r1 w1 -> row_like r2 w2 ->
  exists core,
    tolatex (Element "table" attrs [r1; r2]) None new
    = Ok (core, {| numcols := 0; maxcols := Z.max w2 (Z.max w1 0) |}).
Proof.
  intros H1 H2. rewrite tolatex_unfold. unfold bind. simpl children_loop. unfold bind.
  match goal with |- context [tolatex r1 ?n ?t] =>
    destruct (H1 n t) as [b1 E1]; rewrite E1 end.
  match goal with |- context [tolatex r2 ?n ?t] =>
    destruct (H2 n t) as [b2 E2]; rewrite E2 end.
  eexists. reflexivity.
Qed.

Lemma cell_contributes (h : bool) (t : str) : contributes (cell h t) 1.
Proof.
  apply plain_cell_contributes; [destruct h| |]; reflexivity.
Qed.

Lemma cell_span_2_contributes (h : bool) (t : str) : contributes (cell_span h "2" t) 2.
Proof.
  apply spanning_cell_contributes with (v := "2"); [destruct h| | |]; reflexivity.
Qed.

(** A table of two rows once parsed. *)
Lemma two_row_table_converted (h1 h2 h3 h4 h5 : bool) (t1 t2 t3 t4 t5 : str) :
  exists core,
    convert_dom (two_row_table h1 h2 h3 h4 h5 t1 t2 t3 t4 t5) new
    = Ok (table_latex "|c|c|c|" core "", {| numcols := 0; maxcols := 3 |}).
Proof.
  unfold convert_dom, bind, two_row_table.
  destruct (@table_of_two_rows []
              (Element "tr" [] [cell h1 t1; cell h2 t2;
                                cell h3 t3])
              (Element "tr" [] [cell_span h4 "2" t4; cell h5 t5])
              3 3) as [core E].
  - intros next s.
    destruct (@row_updates_maxcols [] _ [1; 1; 1]%Z
                (Forall2_cons _ _ (cell_contributes h1 t1)
                  (Forall2_cons _ _ (cell_contributes h2 t2)
                    (Forall2_cons _ _ (cell_contributes h3 t3)
                      (Forall2_nil _)))) next s) as [b Hb].
    exists b. exact Hb.
  - intros next s.
    destruct (@row_updates_maxcols [] _ [2; 1]%Z
                (Forall2_cons _ _ (cell_span_2_contributes h4 t4)
                  (Forall2_cons _ _ (cell_contributes h5 t5)
                    (Forall2_nil _))) next s) as [b Hb].
    exists b. exact Hb.
  - rewrite E. exists core.
    destruct h1, h2, h3, h4, h5; reflexivity.
Qed.

End TableFacts.

(** The table of two rows as a document, and what [convert] makes of it. *)
Example two_row_table_parsed :
  parseString
    "<table><tr><td>a</td><td>b</td><td>c</td></tr><tr><td colspan='2'>d</td><td>e</td></tr></table>"
  = Ok (Columns.two_row_table false false false false false "a" "b" "c" "d" "e").
Proof. vm_compute. reflexivity. Qed.

Example two_row_table_output :
  Table2Latex.convert
    "<table><tr><td>a</td><td>b</td><td>c</td></tr><tr><td colspan='2'>d</td><td>e</td></tr></table>"
    Table2Latex.new
  = Ok (Table2Latex.table_latex "|c|c|c|"
          ("\hline" ++ [NL] ++ "a & b & c \\" ++ [NL] ++ "\hline" ++ [NL]
           ++ "\multicolumn{2}{|c|}{d} & e \\") "",
        {| Table2Latex.numcols := 0; Table2Latex.maxcols := 3 |}).
Proof. vm_compute. reflexivity. Qed.

(** ** The table converter: the column separator *)

Module CellFacts.
Import Table2Latex Cells.

(** The separator is written when the node right after the cell is a cell. *)
Lemma cell_before_cell (el sib : node) (s : self) :
  hasAttribute el "colspan" = false ->
  is_element sib = true -> Columns.is_cell_tag (tagName_of sib) = true ->
  process_cell el (Some sib) s = Ok (plain_content el ++ " &", bump s 1).
Proof.
  intros Ha He Ht. unfold process_cell, bind. rewrite Ha. unfold ret.
  unfold Columns.is_cell_tag in Ht. rewrite He, Ht. reflexivity.
Qed.

(** It is not written when the node right after the cell is text, even when
    another cell follows that text. *)
Lemma cell_before_text (el : node) (d : str) (s : self) :
  hasAttribute el "colspan" = false ->
  process_cell el (Some (Text d)) s = Ok (plain_content el, bump s 1).
Proof.
  intros Ha. unfold process_cell, bind. rewrite Ha. reflexivity.
Qed.

End CellFacts.

(** C4, the code at a failing input: a row of two cells with whitespace
    between them.  The first cell is followed by a text node, so
    [process_cell] writes no [ &] after it and the row comes out as
    [a b \\], without a column separator. *)
Theorem C4_separator_lost_after_whitespace :
  Table2Latex.convert "<table><tr><td>a</td> <td>b</td></tr></table>" Table2Latex.new
  = Ok (Table2Latex.table_latex "|c|c|" ("\hline" ++ [NL] ++ "a b \\") "",
        {| Table2Latex.numcols := 0; Table2Latex.maxcols := 2 |})
  /\ Table2Latex.process_cell (Element "td" [] [Text "a"]) (Some (Text " "))
       Table2Latex.new
     = Ok (" a", {| Table2Latex.numcols := 1; Table2Latex.maxcols := 0 |}).
Proof. split; vm_compute; reflexivity. Qed.

(** Without the whitespace the separator is there. *)
Example separator_between_adjacent_cells :
  Table2Latex.convert "<table><tr><td>a</td><td>b</td></tr></table>" Table2Latex.new
  = Ok (Table2Latex.table_latex "|c|c|" ("\hline" ++ [NL] ++ "a & b \\") "",
        {| Table2Latex.numcols := 0; Table2Latex.maxcols := 2 |}).
Proof. vm_compute. reflexivity. Qed.

(** ** The tree walker: paragraphs *)

Module TreeFacts.
Import LaTeXTreeProcessor Paths.

Lemma tolatex_eq (e : Element) :
  tolatex e = Elem (tag e) (text e) (map step (children e)).
Proof. destruct e as [tg tx kids]. reflexivity. Qed.

Lemma set_text_tag (e : Element) (t : str) : tag (set_text e t) = tag e.
Proof. reflexivity. Qed.

Lemma set_text_children (e : Element) (t : str) :
  children (set_text e t) = children e.
Proof. reflexivity. Qed.

Ltac rule_case :=
  match goal with
  | |- context [if ?b then _ else _] => destruct b; try reflexivity
  end.

Lemma rewrite_tag (tags : list str) (e : Element) : tag (rewrite tags e) = tag e.
Proof.
  unfold rewrite. cbv zeta.
  assert (H1 : forall x, tag (if_h1 x) = tag x) by (intro; unfold if_h1; rule_case).
  assert (H2 : forall x, tag (if_h2 x) = tag x) by (intro; unfold if_h2; rule_case).
  assert (H3 : forall x, tag (if_h3 x) = tag x) by (intro; unfold if_h3; rule_case).
  assert (H4 : forall x, tag (if_h4 x) = tag x) by (intro; unfold if_h4; rule_case).
  assert (H5 : forall x, tag (if_li x) = tag x) by (intro; unfold if_li; rule_case).
  assert (H6 : forall x, tag (if_p tags x) = tag x) by (intro; unfold if_p; rule_case).
  assert (H7 : forall x, tag (if_em x) = tag x) by (intro; unfold if_em; rule_case).
  rewrite H7, H6, H5, H4, H3, H2, H1. reflexivity.
Qed.

Lemma rewrite_children (tags : list str) (e : Element) :
  children (rewrite tags e) = children e.
Proof.
  unfold rewrite. cbv zeta.
  assert (H1 : forall x, children (if_h1 x) = children x)
    by (intro; unfold if_h1; rule_case).
  assert (H2 : forall x, children (if_h2 x) = children x)
    by (intro; unfold if_h2; rule_case).
  assert (H3 : forall x, children (if_h3 x) = children x)
    by (intro; unfold if_h3; rule_case).
  assert (H4 : forall x, children (if_h4 x) = children x)
    by (intro; unfold if_h4; rule_case).
  assert (H5 : forall x, children (if_li x) = children x)
    by (intro; unfold if_li; rule_case).
  assert (H6 : forall x, children (if_p tags x) = children x)
    by (intro; unfold if_p; rule_case).
  assert (H7 : forall x, children (if_em x) = children x)
    by (intro; unfold if_em; rule_case).
  rewrite H7, H6, H5, H4, H3, H2, H1. reflexivity.
Qed.

(** On a paragraph only the rule for [p] can fire. *)
Lemma rewrite_text_p (tags : list str) (e : Element) :
  tag e = "p" ->
  text (rewrite tags e)
  = if existsb (str_eqb "sup") tags || existsb (str_eqb "em") tags
    then text e
    else Some (pct_s (text e) ++ [NL]).
Proof.
  intros Hp. unfold rewrite. cbv zeta.
  assert (H1 : if_h1 e = e) by (unfold if_h1; rewrite Hp; reflexivity).
  assert (H2 : if_h2 e = e) by (unfold if_h2; rewrite Hp; reflexivity).
  assert (H3 : if_h3 e = e) by (unfold if_h3; rewrite Hp; reflexivity).
  assert (H4 : if_h4 e = e) by (unfold if_h4; rewrite Hp; reflexivity).
  assert (H5 : if_li e = e) by (unfold if_li; rewrite Hp; reflexivity).
  rewrite H1, H2, H3, H4, H5.
  assert (H6 : tag (if_p tags e) = "p") by (unfold if_p; rule_case; exact Hp).
  assert (H7 : if_em (if_p tags e) = if_p tags e)
    by (unfold if_em; rewrite H6; reflexivity).
  rewrite H7. unfold if_p. rewrite Hp.
  change (str_eqb "p" "p") with true.
  destruct (existsb (str_eqb "sup") tags), (existsb (str_eqb "em") tags); reflexivity.
Qed.

Lemma step_tag (c : Element) : tag (step c) = tag c.
Proof.
  unfold step. rewrite rewrite_tag.
  destruct (Nat.ltb 0 (List.length (children c))); [|reflexivity].
  rewrite tolatex_eq. reflexivity.
Qed.

Lemma step_text_p (c : Element) :
  tag c = "p" ->
  text (step c)
  = if has_child "sup" c || has_child "em" c
    then text c
    else Some (pct_s (text c) ++ [NL]).
Proof.
  intros H. unfold step, has_child.
  destruct (Nat.ltb 0 (List.length (children c))).
  - rewrite rewrite_text_p by (rewrite tolatex_eq; exact H).
    rewrite tolatex_eq. reflexivity.
  - apply rewrite_text_p, H.
Qed.

Lemma step_below (c : Element) (j : nat) (p : list nat) :
  at_path (step c) (j :: p) = at_path (tolatex c) (j :: p).
Proof.
  unfold step. simpl. rewrite rewrite_children.
  destruct (children c) as [|k kids] eqn:E; simpl.
  - rewrite tolatex_eq. simpl. rewrite E. reflexivity.
  - reflexivity.
Qed.

(** The walker at an element below the root. *)
Lemma tolatex_below (p : list nat) : forall (root : Element) (i : nat) (e : Element),
  at_path root (i :: p) = Some e ->
  exists e', at_path (tolatex root) (i :: p) = Some e'
             /\ tag e' = tag e
             /\ (tag e = "p" ->
                 text e' = if has_child "sup" e || has_child "em" e
                           then text e
                           else Some (pct_s (text e) ++ [NL])).
Proof.
  induction p as [|j p IH]; intros root i e H.
  - simpl in H. destruct (nth_error (children root) i) as [c|] eqn:E; [|discriminate].
    injection H as ->. exists (step e). split.
    + rewrite tolatex_eq. simpl. rewrite nth_error_map, E. reflexivity.
    + split; [apply step_tag | apply step_text_p].
  - change (at_path root (i :: j :: p))
      with (match nth_error (children root) i with
            | Some c => at_path c (j :: p)
            | None => None
            end) in H.
    destruct (nth_error (children root) i) as [c|] eqn:E; [|discriminate].
    destruct (IH c j e H) as (e' & H1 & H2 & H3).
    exists e'. split; [|split; assumption].
    rewrite tolatex_eq.
    change (at_path (Elem (tag root) (text root) (map step (children root))) (i :: j :: p))
      with (match nth_error (map step (children root)) i with
            | Some c => at_path c (j :: p)
            | None => None
            end).
    rewrite nth_error_map, E. simpl option_map. cbv iota.
    rewrite step_below. exact H1.
Qed.

End TreeFacts.

(** C10, the code at a failing input: a paragraph whose text is [None], as
    it is when the paragraph starts with an element (here an image), below
    the [div] the walker is given, with no [sup] and no [em] child.  The
    rule formats the text with [%s] and a newline without testing for
    [None], so the paragraph gets the word None and a newline as its text,
    where one newline was to be appended to a text that holds nothing. *)
Theorem C10_paragraph_without_text :
  let p := LaTeXTreeProcessor.Elem "p" None [LaTeXTreeProcessor.Elem "img" None []] in
  Paths.has_child "sup" p = false
  /\ Paths.has_child "em" p = false
  /\ LaTeXTreeProcessor.run (LaTeXTreeProcessor.Elem "div" None [p])
     = LaTeXTreeProcessor.Elem "div" None
         [LaTeXTreeProcessor.Elem "p" (Some ("None" ++ [NL]))
            [LaTeXTreeProcessor.Elem "img" None []]].
Proof. repeat split. Qed.

(** X23.  For every element with tag [p] below the node the walker is
    given that has a text, the walker leaves the tag alone and appends a
    newline to the text exactly when no direct child has tag [sup] or [em];
    when such a child is present the text is left as it is. *)
Theorem X23_paragraph_newline (root : LaTeXTreeProcessor.Element) (i : nat)
  (p : list nat) (e : LaTeXTreeProcessor.Element) (t : str) :
  Paths.at_path root (i :: p) = Some e ->
  LaTeXTreeProcessor.tag e = "p" ->
  LaTeXTreeProcessor.text e = Some t ->
  exists e',
    Paths.at_path (LaTeXTreeProcessor.run root) (i :: p) = Some e'
    /\ LaTeXTreeProcessor.tag e' = "p"
    /\ LaTeXTreeProcessor.text e'
       = Some (if Paths.has_child "sup" e || Paths.has_child "em" e
               then t else t ++ [NL]).
Proof.
  intros H Htag Htext.
  destruct (TreeFacts.tolatex_below p root i H) as (e' & H1 & H2 & H3).
  exists e'. split; [exact H1|]. split; [congruence|].
  rewrite (H3 Htag), Htext. simpl.
  destruct (Paths.has_child "sup" e || Paths.has_child "em" e); reflexivity.
Qed.

Lemma X23_paragraph_newline_witness :
  let root :=
    LaTeXTreeProcessor.Elem "div" None
      [LaTeXTreeProcessor.Elem "h1" (Some "Title") [];
       LaTeXTreeProcessor.Elem "p" (Some "Some text.") []] in
  exists e',
    Paths.at_path (LaTeXTreeProcessor.run root) [1] = Some e'
    /\ LaTeXTreeProcessor.tag e' = "p"
    /\ LaTeXTreeProcessor.text e' = Some ("Some text." ++ [NL]).
Proof.
  intro root.
  exact (@X23_paragraph_newline root 1 []
           (LaTeXTreeProcessor.Elem "p" (Some "Some text.") []) "Some text."
           eq_refl eq_refl eq_refl).
Defined.

(** ** The substitution scan *)

Module ReFacts.

Section Scan.
Variables (fl : flags) (r : regex) (repl : matchobj -> str).

Lemma sub_from_nil (skip : nat) (adj : bool) (prev : option ascii) :
  match_here fl r prev [] = None -> sub_from fl r repl skip adj prev [] = [].
Proof. intros H. destruct skip; simpl; [rewrite H|]; reflexivity. Qed.

Lemma sub_from_skip (n : nat) (adj : bool) (prev : option ascii) (c : ascii) (t : str) :
  sub_from fl r repl (S n) adj prev (c :: t)
  = sub_from fl r repl n (Nat.eqb n 0) (Some c) t.
Proof. reflexivity. Qed.

Lemma sub_from_miss (adj : bool) (prev : option ascii) (c : ascii) (t : str) :
  match_here fl r prev (c :: t) = None ->
  sub_from fl r repl 0 adj prev (c :: t) = c :: sub_from fl r repl 0 false (Some c) t.
Proof. intros H. simpl. rewrite H. reflexivity. Qed.

Lemma sub_from_hit (adj : bool) (prev : option ascii) (c : ascii) (t : str)
  (m : matchobj) (n : nat) :
  match_here fl r prev (c :: t) = Some m -> List.length (m_text m) = S n ->
  sub_from fl r repl 0 adj prev (c :: t)
  = repl m ++ sub_from fl r repl n (Nat.eqb n 0) (Some c) t.
Proof. intros H L. simpl. rewrite H, L. reflexivity. Qed.

End Scan.

(** When the pattern matches at no position of [s], the substitution leaves
    [s] as it is. *)
Lemma sub_from_no_match (fl : flags) (r : regex) (repl : matchobj -> str) (s : str) :
  forall adj prev,
  (forall pre t, s = pre ++ t ->
     match_here fl r (match rev pre with [] => prev | c :: _ => Some c end) t = None) ->
  sub_from fl r repl 0 adj prev s = s.
Proof.
  induction s as [|c t IH]; intros adj prev H.
  - apply sub_from_nil. apply (H [] []). reflexivity.
  - rewrite sub_from_miss by (apply (H [] (c :: t)); reflexivity).
    f_equal. apply IH. intros pre t' E.
    specialize (H (c :: pre) t'). simpl in H. rewrite E in H.
    specialize (H eq_refl).
    destruct (rev pre) as [|x l] eqn:R; simpl in H; exact H.
Qed.

End ReFacts.

(** ** The currency substitution *)

Module CurrencyFacts.
Import MathTextPostProcessor ReFacts Currency.

Lemma match_here_pat2 (prev : option ascii) (s : str) :
  match_here no_flags pat2 prev s
  = match s with
    | x :: y :: z :: _ =>
        if not_dollar x && Ascii.eqb y DOLLAR && not_dollar z
        then Some {| m_text := [x; y; z]; m_groups := [(2, [z]); (1, [x])] |}
        else None
    | _ => None
    end.
Proof.
  unfold match_here, pat2, not_dollar.
  destruct s as [|x [|y [|z t]]]; simpl;
    repeat match goal with
           | |- context [Ascii.eqb ?a DOLLAR] => destruct (Ascii.eqb a DOLLAR); simpl
           end; reflexivity.
Qed.

(** The scan does not depend on what precedes the position. *)
Lemma scan_indep (s : str) : forall skip adj prev adj' prev',
  sub_from no_flags pat2 (expand tpl) skip adj prev s
  = sub_from no_flags pat2 (expand tpl) skip adj' prev' s.
Proof.
  induction s as [|c t IH]; intros skip adj prev adj' prev'.
  - rewrite !sub_from_nil by apply match_here_pat2. reflexivity.
  - destruct skip as [|n]; [|reflexivity].
    destruct (match_here no_flags pat2 prev (c :: t)) as [m|] eqn:E.
    + assert (E' := E). rewrite match_here_pat2 in E.
      destruct t as [|y [|z t']]; try discriminate.
      destruct (not_dollar c && Ascii.eqb y DOLLAR && not_dollar z); [|discriminate].
      injection E as <-.
      rewrite (@sub_from_hit _ _ _ _ _ _ _ _ 2 E' eq_refl).
      rewrite match_here_pat2 in E'.
      assert (E2 : match_here no_flags pat2 prev' (c :: y :: z :: t')
                   = Some {| m_text := [c; y; z]; m_groups := [(2, [z]); (1, [c])] |})
        by (rewrite match_here_pat2; exact E').
      rewrite (@sub_from_hit _ _ _ _ _ _ _ _ 2 E2 eq_refl).
      reflexivity.
    + assert (E2 : match_here no_flags pat2 prev' (c :: t) = None)
        by (rewrite match_here_pat2; rewrite match_here_pat2 in E; exact E).
      rewrite !sub_from_miss by assumption. reflexivity.
Qed.

Lemma last_is_tail (c x y : ascii) (t : str) :
  last_is c (x :: y :: t) = last_is c (y :: t).
Proof. reflexivity. Qed.

(** A prefix that does not end with a dollar, before a rest that does not
    start with one, is scanned as if it stood alone. *)
Lemma scan_app (pre rest : str) :
  last_is DOLLAR pre = false -> starts_ok rest = true ->
  forall skip adj prev, skip <= List.length pre ->
  sub_from no_flags pat2 (expand tpl) skip adj prev (pre ++ rest)
  = sub_from no_flags pat2 (expand tpl) skip adj prev pre
    ++ sub_from no_flags pat2 (expand tpl) 0 false None rest.
Proof.
  intros Hlast Hrest. induction pre as [|x pre IH]; intros skip adj prev Hskip.
  - simpl in Hskip. assert (skip = 0) by lia. subst skip.
    rewrite sub_from_nil by apply match_here_pat2.
    rewrite !app_nil_l. apply scan_indep.
  - assert (Hlast' : last_is DOLLAR pre = false).
    { destruct pre as [|y pre']; [reflexivity|]. exact Hlast. }
    specialize (IH Hlast').
    rewrite <- app_comm_cons.
    destruct skip as [|n].
    + assert (Hstep : forall E1 : match_here no_flags pat2 prev (x :: pre ++ rest) = None,
                 match_here no_flags pat2 prev (x :: pre) = None ->
                 sub_from no_flags pat2 (expand tpl) 0 adj prev (x :: pre ++ rest)
                 = sub_from no_flags pat2 (expand tpl) 0 adj prev (x :: pre)
                   ++ sub_from no_flags pat2 (expand tpl) 0 false None rest).
      { intros E1 E2.
        rewrite (@sub_from_miss _ _ (expand tpl) adj _ _ _ E1),
          (@sub_from_miss _ _ (expand tpl) adj _ _ _ E2).
        rewrite <- app_comm_cons. f_equal. apply IH. lia. }
      destruct pre as [|y [|z pre']].
      * (* x is the last character of the prefix *)
        simpl in Hlast. apply Hstep.
        -- rewrite match_here_pat2. rewrite app_nil_l.
           destruct rest as [|r0 [|r1 rest']]; try reflexivity.
           simpl in Hrest. unfold not_dollar in *.
           destruct (Ascii.eqb r0 DOLLAR); [discriminate|].
           rewrite andb_false_r. reflexivity.
        -- rewrite match_here_pat2. reflexivity.
      * (* two characters left in the prefix *)
        simpl in Hlast. apply Hstep.
        -- rewrite match_here_pat2. rewrite <- app_comm_cons, app_nil_l.
           destruct rest as [|r0 rest']; [reflexivity|].
           rewrite Hlast. rewrite andb_false_r. reflexivity.
        -- rewrite match_here_pat2. reflexivity.
      * (* the three characters the pattern looks at are in the prefix *)
        destruct (match_here no_flags pat2 prev (x :: y :: z :: pre')) as [m|] eqn:E.
        -- assert (E' := E). rewrite match_here_pat2 in E'.
           destruct (not_dollar x && Ascii.eqb y DOLLAR && not_dollar z) eqn:C;
             [|discriminate].
           injection E' as <-.
           assert (E1 : match_here no_flags pat2 prev (x :: (y :: z :: pre') ++ rest)
                        = Some {| m_text := [x; y; z];
                                  m_groups := [(2, [z]); (1, [x])] |}).
           { rewrite match_here_pat2. rewrite <- !app_comm_cons. rewrite C.
             reflexivity. }
           rewrite (@sub_from_hit _ _ (expand tpl) adj _ _ _ _ 2 E1 eq_refl).
           rewrite (@sub_from_hit _ _ (expand tpl) adj _ _ _ _ 2 E eq_refl).
           rewrite <- app_assoc. f_equal.
           apply IH. simpl. lia.
        -- apply Hstep; [|reflexivity].
           rewrite match_here_pat2. rewrite match_here_pat2 in E.
           rewrite <- !app_comm_cons. exact E.
    + rewrite !sub_from_skip. apply IH. simpl in Hskip. lia.
Qed.

End CurrencyFacts.

(** C5, the code at a failing input: in [a$b$c] both dollars stand between
    two characters that are no dollars, but the match of [a$b] has taken
    [b] and the substitution goes on after it, so the second dollar finds no
    character before it and stays as it is.  The same happens to the second
    dollar of [$x$] in a sentence, while both dollars of [$xy$] are
    escaped. *)
Theorem C5_second_dollar_not_escaped :
  MathTextPostProcessor.run "a$b$c" = "a\$b$c"
  /\ contains "b\$c" (MathTextPostProcessor.run "a$b$c") = false
  /\ MathTextPostProcessor.run "the value $x$ is" = "the value \$x$ is"
  /\ MathTextPostProcessor.run "the value $xy$ is" = "the value \$xy\$ is".
Proof. repeat split; vm_compute; reflexivity. Qed.

(** X22.  In the currency substitution, a dollar between two characters
    [a] and [b] that are not dollars, in a text whose part before [a] does
    not end with a dollar, is written [a\$b] with both characters kept; what
    comes before and what comes after are substituted on their own. *)
Theorem X22_currency_escaped (pre post : str) (a b : ascii) :
  Currency.last_is DOLLAR pre = false ->
  Ascii.eqb a DOLLAR = false -> Ascii.eqb b DOLLAR = false ->
  MathTextPostProcessor.currency_pass (pre ++ [a; DOLLAR; b] ++ post)
  = MathTextPostProcessor.currency_pass pre ++ [a; BS; DOLLAR; b]
    ++ MathTextPostProcessor.currency_pass post.
Proof.
  intros Hpre Ha Hb.
  unfold MathTextPostProcessor.currency_pass, sub, sub_fn.
  change [G 1; T "\$"; G 2] with Currency.tpl.
  rewrite CurrencyFacts.scan_app; try assumption; try lia.
  - f_equal.
    assert (E : match_here no_flags MathTextPostProcessor.pat2 None
                  ([a; DOLLAR; b] ++ post)
                = Some {| m_text := [a; DOLLAR; b];
                          m_groups := [(2, [b]); (1, [a])] |}).
    { rewrite CurrencyFacts.match_here_pat2. simpl. unfold Currency.not_dollar.
      rewrite Ha, Hb. reflexivity. }
    simpl app in *.
    rewrite (@ReFacts.sub_from_hit _ _ _ _ _ _ _ _ 2 E eq_refl).
    rewrite !ReFacts.sub_from_skip. simpl.
    do 4 f_equal. apply CurrencyFacts.scan_indep.
  - simpl. unfold Currency.not_dollar. rewrite Ha. reflexivity.
Qed.

Lemma X22_currency_escaped_witness :
  Currency.last_is DOLLAR "Price is" = false
  /\ MathTextPostProcessor.currency_pass ("Price is" ++ [" "%char; DOLLAR; "5"%char] ++ " today")
  = MathTextPostProcessor.currency_pass "Price is" ++ [" "%char; BS; DOLLAR; "5"%char]
    ++ MathTextPostProcessor.currency_pass " today".
Proof.
  split; [reflexivity|].
  apply (@X22_currency_escaped "Price is" " today" " "%char "5"%char); reflexivity.
Defined.

(** ** The percent substitution *)

Module PercentFacts.
Import MathTextPostProcessor ReFacts Percent.

(** A repetition followed by nothing more to match always succeeds. *)
Lemma star_Some (fl : flags) (i : item) (s : str) : forall st,
  exists r, star fl i s st Some = Some r.
Proof.
  induction s as [|c t IH]; intros st; simpl.
  - eexists; reflexivity.
  - destruct (item_ok fl i c); [|eexists; reflexivity].
    destruct (IH (advance c t st)) as [r ->]. eexists; reflexivity.
Qed.

(** The look-ahead [\s-*] fails exactly on a text that starts with
    whitespace: [-*] is content with no dash at all. *)
Lemma match_here_percent (prev : option ascii) (c : ascii) (t : str) :
  match_here no_flags percent_re prev (c :: t)
  = if Ascii.eqb c PERCENT && negb (starts_space t)
    then Some {| m_text := [c]; m_groups := [] |}
    else None.
Proof.
  unfold match_here, percent_re. simpl.
  destruct (Ascii.eqb c PERCENT); simpl; [|reflexivity].
  destruct t as [|d t']; simpl; [reflexivity|].
  destruct (is_space d); simpl; [|reflexivity].
  match goal with |- context [star ?fl ?i ?s ?st Some] =>
    destruct (star_Some fl i s st) as [r ->] end.
  reflexivity.
Qed.

Lemma match_here_percent_nil (prev : option ascii) :
  match_here no_flags percent_re prev [] = None.
Proof. reflexivity. Qed.

Lemma sub_percent (s : str) : forall adj prev,
  sub_from no_flags percent_re (expand [T "\%"]) 0 adj prev s = percent_spec s.
Proof.
  induction s as [|c t IH]; intros adj prev.
  - apply sub_from_nil, match_here_percent_nil.
  - simpl percent_spec.
    destruct (Ascii.eqb c PERCENT && negb (starts_space t)) eqn:E.
    + assert (M : match_here no_flags percent_re prev (c :: t)
                  = Some {| m_text := [c]; m_groups := [] |})
        by (rewrite match_here_percent, E; reflexivity).
      rewrite (@sub_from_hit _ _ (expand [T "\%"]) adj _ _ _ _ 0 M eq_refl).
      rewrite IH. reflexivity.
    + assert (M : match_here no_flags percent_re prev (c :: t) = None)
        by (rewrite match_here_percent, E; reflexivity).
      rewrite (@sub_from_miss _ _ (expand [T "\%"]) adj _ _ _ M).
      rewrite IH. reflexivity.
Qed.

Lemma percent_pass_spec (s : str) : percent_pass s = percent_spec s.
Proof. apply sub_percent. Qed.

Lemma percent_spec_app (pre post : str) :
  percent_spec (pre ++ PERCENT :: post)
  = percent_spec pre
    ++ (if starts_space post then [PERCENT] else [BS; PERCENT])
    ++ percent_spec post.
Proof.
  induction pre as [|c pre IH].
  - simpl. destruct (starts_space post); reflexivity.
  - rewrite <- app_comm_cons. simpl percent_spec. rewrite IH.
    assert (S : starts_space (pre ++ PERCENT :: post) = starts_space pre)
      by (destruct pre; reflexivity).
    rewrite S.
    destruct (Ascii.eqb c PERCENT && negb (starts_space pre)); reflexivity.
Qed.

(** A text without a percent sign goes through unchanged. *)
Lemma percent_spec_none (s : str) :
  forallb (fun c => negb (Ascii.eqb c PERCENT)) s = true -> percent_spec s = s.
Proof.
  induction s as [|c t IH]; intro H; [reflexivity|].
  simpl in H. apply andb_true_iff in H. destruct H as [Hc Ht].
  simpl. apply negb_true_iff in Hc. rewrite Hc. simpl. rewrite IH by assumption.
  reflexivity.
Qed.

End PercentFacts.

(** C6, the claim as stated fails: nothing before a percent sign is looked
    at, so a percent sign that is already escaped gets a second
    backslash. *)
Lemma C6_escaped_percent_escaped_again :
  MathTextPostProcessor.percent_pass "up by 50\%." = "up by 50\\%."
  /\ MathTextPostProcessor.percent_pass "up by 50\%." <> "up by 50\%.".
Proof. split; vm_compute; [reflexivity | discriminate]. Qed.

(** C6, amended.  In the percent substitution every percent sign is looked
    at on its own, whatever stands before it: it is rewritten to [\%] when
    the text ends after it or goes on with a character that is no
    whitespace, and it is kept when a whitespace character and a dash
    follow; the text before and the text after are substituted on their
    own. *)
Theorem C6_percent_rule (pre post : str) (b : bool) :
  Percent.follows post = Some b ->
  MathTextPostProcessor.percent_pass (pre ++ [PERCENT] ++ post)
  = MathTextPostProcessor.percent_pass pre
    ++ (if b then [BS; PERCENT] else [PERCENT])
    ++ MathTextPostProcessor.percent_pass post.
Proof.
  intros H. rewrite !PercentFacts.percent_pass_spec.
  change ([PERCENT] ++ post) with (PERCENT :: post).
  rewrite PercentFacts.percent_spec_app. do 2 f_equal.
  destruct post as [|c t]; cbn [Percent.follows Percent.starts_space] in *.
  - injection H as <-. reflexivity.
  - destruct (is_space c).
    + destruct t as [|d t]; [discriminate|].
      destruct (Ascii.eqb d "-"); [|discriminate]. injection H as <-. reflexivity.
    + injection H as <-. reflexivity.
Qed.

Lemma C6_percent_rule_witness :
  MathTextPostProcessor.percent_pass ("a gain of 50" ++ [PERCENT] ++ ", and 3% more")
  = MathTextPostProcessor.percent_pass "a gain of 50" ++ [BS; PERCENT]
    ++ MathTextPostProcessor.percent_pass ", and 3% more"
  /\ MathTextPostProcessor.percent_pass ("x = 1 " ++ [PERCENT] ++ " --- a rule")
     = MathTextPostProcessor.percent_pass "x = 1 " ++ [PERCENT]
       ++ MathTextPostProcessor.percent_pass " --- a rule".
Proof.
  split.
  - apply (@C6_percent_rule "a gain of 50" ", and 3% more" true). reflexivity.
  - apply (@C6_percent_rule "x = 1 " " --- a rule" false). reflexivity.
Defined.

(** The look-ahead of the pattern is content with no dash at all, so a
    percent sign followed by whitespace and a word is kept as well. *)
Example percent_before_a_word :
  MathTextPostProcessor.percent_pass "50 % of them" = "50 % of them".
Proof. vm_compute. reflexivity. Qed.

(** ** The display substitutions *)

Module DisplayFacts.
Import MathTextPostProcessor ReFacts Display.

Lemma after_cons (x : ascii) (c t : str) (st : mstate) :
  after c t (advance x (c ++ t) st) = after (x :: c) t st.
Proof.
  unfold after, advance. simpl. f_equal.
  - destruct (rev c) as [|y l]; reflexivity.
  - lia.
Qed.

(** A repetition takes all the characters it can when the rest of the
    pattern then succeeds. *)
Lemma star_greedy (fl : flags) (i : item) (c t : str) (k : cont) (r : mstate) :
  forall st, rest st = c ++ t ->
  forallb (item_ok fl i) c = true ->
  star fl i t (after c t st) k = Some r ->
  star fl i (c ++ t) st k = Some r.
Proof.
  induction c as [|x c IH]; intros st Hrest Hc H.
  - simpl in *. replace st with (after [] t st); [exact H|].
    unfold after. simpl. destruct st; simpl in *. subst. reflexivity.
  - simpl in Hc. apply andb_true_iff in Hc. destruct Hc as [Hx Hc].
    simpl. rewrite Hx.
    rewrite (IH (advance x (c ++ t) st)); [reflexivity | reflexivity | assumption |].
    rewrite after_cons. exact H.
Qed.


Lemma star_all (fl : flags) (i : item) (c : str) (k : cont) (r : mstate) :
  forall st, rest st = c ->
  forallb (item_ok fl i) c = true ->
  k (after c [] st) = Some r ->
  star fl i c st k = Some r.
Proof.
  intros st Hrest Hc H.
  rewrite <- (app_nil_r c) at 1.
  apply star_greedy; [rewrite app_nil_r; exact Hrest | exact Hc | exact H].
Qed.

(** The end of the two display patterns on a block [$$c$$] followed by
    whitespace up to the end of the text. *)
Lemma display_tail_matches (c w : str) (st : mstate) :
  rest st = "$$" ++ c ++ "$$" ++ w ->
  forallb not_dollar c = true -> forallb is_space w = true ->
  exists r, rmatch ML display_tail st Some = Some r
            /\ pos r = List.length ("$$" ++ c ++ "$$" ++ w) + pos st
            /\ lookup 1 (groups r) = c.
Proof.
  intros Hrest Hc Hw. destruct st as [b rs p g]. simpl in Hrest. subst rs.
  unfold display_tail. simpl.
  eexists. split.
  - eapply star_greedy; [reflexivity | exact Hc |].
    simpl.
    eapply star_all; [reflexivity | exact Hw |].
    simpl. reflexivity.
  - simpl. split.
    + rewrite length_app. simpl. lia.
    + replace (List.length c + S (S p) - S (S p)) with (List.length c + 0) by lia.
      rewrite firstn_app_2. simpl. apply app_nil_r.
Qed.

Lemma match_pat1_block (c w : str) :
  forallb not_dollar c = true -> forallb is_space w = true ->
  exists m, match_here ML pat1 None ("$$" ++ c ++ "$$" ++ w) = Some m
            /\ m_text m = "$$" ++ c ++ "$$" ++ w
            /\ group m 1 = c.
Proof.
  intros Hc Hw. unfold match_here, pat1.
  change (rmatch ML (Seq Bol display_tail)
            {| before := None; rest := "$$" ++ c ++ "$$" ++ w; pos := 0; groups := [] |}
            Some)
    with (rmatch ML display_tail
            {| before := None; rest := "$$" ++ c ++ "$$" ++ w; pos := 0; groups := [] |}
            Some).
  destruct (@display_tail_matches c w
              {| before := None; rest := "$$" ++ c ++ "$$" ++ w; pos := 0; groups := [] |}
              eq_refl Hc Hw) as (r & E & P & G).
  rewrite E. eexists. split; [reflexivity|]. split.
  - cbn [m_text]. rewrite P. cbn [pos]. rewrite Nat.add_0_r. apply firstn_all.
  - exact G.
Qed.

Lemma match_pat_block (c w : str) :
  forallb not_dollar c = true -> forallb is_space w = true ->
  exists m, match_here ML pat None ("<p>$$" ++ c ++ "$$" ++ w) = Some m
            /\ m_text m = "<p>$$" ++ c ++ "$$" ++ w
            /\ group m 1 = c.
Proof.
  intros Hc Hw. unfold match_here, pat.
  set (st := {| before := Some ">"%char; rest := "$$" ++ c ++ "$$" ++ w;
                pos := 3; groups := [] |}).
  change (rmatch ML (Seq (Str "<p>") display_tail)
            {| before := None; rest := "<p>$$" ++ c ++ "$$" ++ w; pos := 0; groups := [] |}
            Some)
    with (rmatch ML display_tail st Some).
  destruct (@display_tail_matches c w st eq_refl Hc Hw) as (r & E & P & G).
  rewrite E. eexists. split; [reflexivity|]. split.
  - cbn [m_text]. rewrite P. subst st. cbn [pos].
    replace (List.length ("$$" ++ c ++ "$$" ++ w) + 3)
      with (List.length ("<p>$$" ++ c ++ "$$" ++ w)) by (simpl; lia).
    apply firstn_all.
  - exact G.
Qed.

(** Passing the characters of the last match. *)
Lemma sub_from_skip_all (fl : flags) (r : regex) (repl : matchobj -> str) :
  (forall prev, match_here fl r prev [] = None) ->
  forall t adj prev, sub_from fl r repl (List.length t) adj prev t = [].
Proof.
  intros H t. induction t as [|c t IH]; intros adj prev.
  - apply sub_from_nil, H.
  - simpl List.length. rewrite sub_from_skip. apply IH.
Qed.

(** A match that covers the whole text. *)
Lemma sub_whole (fl : flags) (r : regex) (repl : matchobj -> str) (s : str)
  (m : matchobj) (adj : bool) (prev : option ascii) :
  (forall prev, match_here fl r prev [] = None) ->
  match_here fl r prev s = Some m -> m_text m = s ->
  sub_from fl r repl 0 adj prev s = repl m.
Proof.
  intros Hnil E T. destruct s as [|c t].
  - rewrite Hnil in E. discriminate.
  - assert (L : List.length (m_text m) = S (List.length t)) by (rewrite T; reflexivity).
    rewrite (@sub_from_hit fl r repl adj prev c t m (List.length t) E L).
    rewrite sub_from_skip_all by exact Hnil. apply app_nil_r.
Qed.

Lemma pat_nil (prev : option ascii) : match_here ML pat prev [] = None.
Proof. reflexivity. Qed.

Lemma pat1_nil (prev : option ascii) : match_here ML pat1 prev [] = None.
Proof. unfold match_here, pat1. simpl. destruct (at_bol ML _); reflexivity. Qed.

(** Neither display pattern matches where no dollar follows. *)
Lemma pat_needs_dollar (prev : option ascii) (t : str) :
  forallb not_dollar t = true -> match_here ML pat prev t = None.
Proof.
  intros H. unfold match_here, pat.
  destruct t as [|a [|b [|c [|d t']]]]; simpl; try reflexivity;
    repeat match goal with
           | |- context [if Ascii.eqb ?x ?y then _ else _] =>
               destruct (Ascii.eqb x y) eqn:?; try reflexivity
           end.
  cbn [forallb] in H. unfold not_dollar, DOLLAR in H.
  do 3 (apply andb_true_iff in H; destruct H as [_ H]).
  apply andb_true_iff in H. destruct H as [Hd _].
  apply negb_true_iff in Hd. congruence.
Qed.

Lemma pat1_needs_dollar (prev : option ascii) (t : str) :
  forallb not_dollar t = true -> match_here ML pat1 prev t = None.
Proof.
  intros H. unfold match_here, pat1. simpl.
  destruct (at_bol ML _); [|reflexivity].
  destruct t as [|a t']; simpl; [reflexivity|].
  cbn [forallb] in H. unfold not_dollar, DOLLAR in H.
  apply andb_true_iff in H. destruct H as [Ha _].
  apply negb_true_iff in Ha. rewrite Ha. reflexivity.
Qed.

Lemma forallb_suffix (P : ascii -> bool) (pre t : str) :
  forallb P (pre ++ t) = true -> forallb P t = true.
Proof. rewrite forallb_app. intros H. apply andb_true_iff in H. apply H. Qed.

(** A text without a dollar goes through both display substitutions
    unchanged. *)
Lemma display_passes_no_dollar (x : str) :
  forallb not_dollar x = true -> display_passes x = x.
Proof.
  intros H. unfold display_passes, sub_fn.
  rewrite (@sub_from_no_match ML pat repl_1 x false None).
  - apply sub_from_no_match. intros pre t ->.
    apply pat1_needs_dollar. exact (forallb_suffix _ _ _ H).
  - intros pre t ->. apply pat_needs_dollar. exact (forallb_suffix _ _ _ H).
Qed.

(** What a repetition that succeeds has taken. *)
Lemma star_inv (fl : flags) (i : item) (s : str) : forall st k r,
  rest st = s -> star fl i s st k = Some r ->
  exists c t st', s = c ++ t /\ rest st' = t /\ k st' = Some r.
Proof.
  induction s as [|x s IH]; intros st k r Hrest H; simpl in H.
  - exists [], [], st. auto.
  - destruct (item_ok fl i x).
    + destruct (star fl i s (advance x s st) k) as [r0|] eqn:E.
      * injection H as ->.
        destruct (IH (advance x s st) k r eq_refl E) as (c & t & st' & -> & R & K).
        exists (x :: c), t, st'. auto.
      * exists [], (x :: s), st. auto.
    + exists [], (x :: s), st. auto.
Qed.

(** A match of the first display pattern starts with [<p>$$] and holds a
    second pair of dollars. *)
Lemma pat_inv (prev : option ascii) (t : str) (m : matchobj) :
  match_here ML pat prev t = Some m ->
  exists c' t', t = "<p>$$" ++ c' ++ "$$" ++ t'.
Proof.
  unfold match_here, pat. intros H.
  destruct t as [|a1 [|a2 [|a3 [|a4 [|a5 u]]]]]; simpl in H; try discriminate;
    repeat match type of H with
           | context [if Ascii.eqb ?x ?y then _ else _] =>
               let E := fresh "E" in
               destruct (Ascii.eqb x y) eqn:E; try discriminate;
               apply Ascii.eqb_eq in E; subst x
           end.
  match type of H with
  | context [star ?fl ?i ?s ?st ?k] => destruct (star fl i s st k) as [r|] eqn:S
  end; [|discriminate].
  apply star_inv in S; [|reflexivity].
  destruct S as (c' & t1 & st' & -> & R & K).
  rewrite R in K.
  destruct t1 as [|b1 [|b2 t']]; try discriminate;
    repeat match type of K with
           | context [if Ascii.eqb ?x ?y then _ else _] =>
               let E := fresh "E" in
               destruct (Ascii.eqb x y) eqn:E; try discriminate;
               apply Ascii.eqb_eq in E; subst x
           end.
  exists c', t'. reflexivity.
Qed.

Lemma dollars_none (c : str) : forallb not_dollar c = true -> dollars c = 0.
Proof.
  unfold dollars. induction c as [|x c IH]; intro H; [reflexivity|].
  cbn [forallb] in H. apply andb_true_iff in H. destruct H as [Hx Hc].
  simpl. destruct (ascii_dec x DOLLAR) as [->|_]; [discriminate | apply IH, Hc].
Qed.

Lemma space_not_dollar (w : str) :
  forallb is_space w = true -> forallb not_dollar w = true.
Proof.
  induction w as [|x w IH]; intro H; [reflexivity|].
  cbn [forallb] in *. apply andb_true_iff in H. destruct H as [Hx Hw].
  rewrite IH by assumption. rewrite andb_true_r.
  unfold not_dollar. destruct (Ascii.eqb x DOLLAR) eqn:E; [|reflexivity].
  apply Ascii.eqb_eq in E. subst x. discriminate.
Qed.

(** The first display pattern matches nowhere in a block that does not
    start with [<p>]: from any later position fewer than two pairs of
    dollars are left. *)
Lemma pat_not_in_block (c w pre t : str) (prev : option ascii) :
  forallb not_dollar c = true -> forallb is_space w = true ->
  "$$" ++ c ++ "$$" ++ w = pre ++ t ->
  match_here ML pat prev t = None.
Proof.
  intros Hc Hw E.
  destruct (match_here ML pat prev t) as [m|] eqn:M; [|reflexivity].
  exfalso. apply pat_inv in M. destruct M as (c' & t' & ->).
  assert (D : dollars ("$$" ++ c ++ "$$" ++ w)
              = dollars (pre ++ "<p>$$" ++ c' ++ "$$" ++ t')) by (rewrite E; reflexivity).
  unfold dollars in D. rewrite !count_occ_app in D.
  fold (dollars c) (dollars w) (dollars pre) (dollars c') (dollars t') in D.
  rewrite (dollars_none c Hc), (dollars_none w (space_not_dollar w Hw)) in D.
  change (count_occ ascii_dec "$$" DOLLAR) with 2 in D.
  change (count_occ ascii_dec "<p>$$" DOLLAR) with 2 in D.
  destruct pre as [|x pre].
  - discriminate E.
  - injection E as <- _. unfold dollars in D. simpl in D. lia.
Qed.

Lemma repl_1_guarded (m : matchobj) :
  already_latex (unescape_latex_entities (group m 1)) = true ->
  repl_1 m = unescape_latex_entities (group m 1).
Proof. unfold repl_1, already_latex. intros ->. reflexivity. Qed.

Lemma unescape_no_dollar (c : str) :
  forallb not_dollar c = true ->
  forallb not_dollar (unescape_latex_entities c) = true.
Proof.
  unfold unescape_latex_entities, replace.
  generalize 0. induction c as [|x c IH]; intros skip H; [reflexivity|].
  cbn [forallb] in H. apply andb_true_iff in H. destruct H as [Hx Hc].
  cbn [replace_from]. destruct skip as [|n]; [|apply IH, Hc].
  destruct (startswith "\&" (x :: c)).
  - simpl. apply IH, Hc.
  - cbn [forallb]. rewrite Hx. apply IH, Hc.
Qed.

(** Both display substitutions on a block. *)
Lemma display_block (c w : str) :
  forallb not_dollar c = true -> forallb is_space w = true ->
  already_latex (unescape_latex_entities c) = true ->
  display_passes ("$$" ++ c ++ "$$" ++ w) = unescape_latex_entities c
  /\ display_passes ("<p>$$" ++ c ++ "$$" ++ w) = unescape_latex_entities c.
Proof.
  intros Hc Hw Hg. unfold display_passes, sub_fn. split.
  - rewrite (@sub_from_no_match ML pat repl_1 ("$$" ++ c ++ "$$" ++ w) false None)
      by (intros pre t E; exact (pat_not_in_block c w pre t _ Hc Hw E)).
    destruct (match_pat1_block c w Hc Hw) as (m & M & T & G).
    rewrite (@sub_whole ML pat1 repl_1 _ m false None pat1_nil M T).
    rewrite repl_1_guarded; rewrite G; [reflexivity | exact Hg].
  - destruct (match_pat_block c w Hc Hw) as (m & M & T & G).
    rewrite (@sub_whole ML pat repl_1 _ m false None pat_nil M T).
    rewrite repl_1_guarded; rewrite G; [|exact Hg].
    apply sub_from_no_match. intros pre t E.
    apply pat1_needs_dollar.
    apply (forallb_suffix _ pre). rewrite <- E. apply unescape_no_dollar, Hc.
Qed.

End DisplayFacts.

(** ** Stripping and unescaping *)

Module StripFacts.

Lemma startswith_app (p v : str) : startswith p (p ++ v) = true.
Proof.
  induction p as [|x p IH]; [reflexivity|]. simpl. rewrite Ascii.eqb_refl. exact IH.
Qed.

Lemma startswith_split (p s : str) :
  startswith p s = true -> exists v, s = p ++ v.
Proof.
  revert s. induction p as [|x p IH]; intros s H.
  - exists s. reflexivity.
  - destruct s as [|y s]; [discriminate|]. simpl in H.
    apply andb_true_iff in H. destruct H as [Hxy Hp].
    apply Ascii.eqb_eq in Hxy. subst y.
    destruct (IH s Hp) as [v ->]. exists v. reflexivity.
Qed.



Lemma lstrip_keeps (a b : str) (z : ascii) :
  isspace z = false -> exists a', lstrip (a ++ z :: b) = a' ++ z :: b.
Proof.
  intros Hz. induction a as [|x a [a' IH]]; simpl.
  - rewrite Hz. exists []. reflexivity.
  - destruct (isspace x).
    + exists a'. exact IH.
    + exists (x :: a). reflexivity.
Qed.

(** Nothing is stripped from the right of a text up to a character that is
    no whitespace. *)
Lemma rstrip_keeps (q v : str) (z : ascii) :
  isspace z = false -> exists v', rstrip ((q ++ [z]) ++ v) = (q ++ [z]) ++ v'.
Proof.
  intros Hz. unfold rstrip. rewrite rev_app_distr, rev_app_distr. simpl.
  destruct (@lstrip_keeps (rev v) (rev q) z Hz) as [a' E]. rewrite E.
  exists (rev a'). rewrite rev_app_distr. simpl. rewrite rev_involutive.
  rewrite <- app_assoc. reflexivity.
Qed.




End StripFacts.


(** ** Escaping *)

Module EscapeFacts.
Import ReFacts Escape.

Lemma replace_char (c : ascii) (new s : str) :
  replace [c] new s = flat_map (fun x => if Ascii.eqb c x then new else [x]) s.
Proof.
  unfold replace. induction s as [|x s IH]; [reflexivity|].
  cbn [replace_from startswith flat_map List.length Nat.sub].
  rewrite andb_true_r. destruct (Ascii.eqb c x); rewrite IH; reflexivity.
Qed.

Lemma flat_map_twice (f g : ascii -> str) (s : str) :
  flat_map f (flat_map g s) = flat_map (fun x => flat_map f (g x)) s.
Proof.
  induction s as [|x s IH]; [reflexivity|].
  simpl. rewrite flat_map_app, IH. reflexivity.
Qed.

Lemma eqb_true (a b : ascii) : Ascii.eqb a b = true -> b = a.
Proof. intros H. apply Ascii.eqb_eq in H. auto. Qed.

(** The three replacements of [escape_latex_entities] together. *)
Lemma three_replaces (s : str) :
  replace "#" "\#" (replace "&" "\&" (replace "%" "\%" s)) = flat_map esc s.
Proof.
  rewrite !replace_char, !flat_map_twice.
  apply flat_map_ext. intros x. unfold esc, special.
  destruct (Ascii.eqb "%" x) eqn:E1.
  { apply eqb_true in E1. subst x. vm_compute. reflexivity. }
  destruct (Ascii.eqb "&" x) eqn:E2.
  { apply eqb_true in E2. subst x. reflexivity. }
  destruct (Ascii.eqb "#" x) eqn:E3.
  { apply eqb_true in E3. subst x. reflexivity. }
  rewrite (Ascii.eqb_sym x "%"), (Ascii.eqb_sym x "&"), (Ascii.eqb_sym x "#").
  rewrite E1, E2, E3. cbn [orb flat_map app].
  rewrite E2. cbn [flat_map app]. rewrite E3. reflexivity.
Qed.

Lemma contains_cons (p : str) (x : ascii) (t : str) :
  contains p (x :: t) = startswith p (x :: t) || contains p t.
Proof. reflexivity. Qed.

Lemma special_not_bs (x : ascii) : special x = true -> Ascii.eqb BS x = false.
Proof.
  intros H. destruct (Ascii.eqb BS x) eqn:E; [|reflexivity].
  apply eqb_true in E. subst x. discriminate.
Qed.

(** What [flat_map esc] yields never starts with one of the three
    characters: a backslash comes first. *)
Lemma head_not_special (s : str) (c : ascii) :
  special c = true -> startswith [c] (flat_map esc s) = false.
Proof.
  intros Hc. destruct s as [|y s]; [reflexivity|].
  cbn [flat_map]. unfold esc at 1. destruct (special y) eqn:Sy; cbn [app startswith].
  - rewrite Ascii.eqb_sym, (special_not_bs c Hc). reflexivity.
  - destruct (Ascii.eqb c y) eqn:E; [|reflexivity].
    apply eqb_true in E. subst y. congruence.
Qed.

(** Escaping a text in which the character [c] is nowhere escaped yields no
    doubly escaped [c]. *)
Lemma no_double (c : ascii) (s : str) :
  special c = true ->
  contains [BS; c] s = false ->
  contains [BS; BS; c] (flat_map esc s) = false.
Proof.
  intros Hc. induction s as [|x s IH]; intros H; [reflexivity|].
  rewrite contains_cons in H. apply orb_false_iff in H. destruct H as [H1 H2].
  specialize (IH H2). cbn [flat_map]. unfold esc at 1.
  destruct (special x) eqn:Sx; cbn [app].
  - rewrite !contains_cons, IH. cbn [startswith].
    rewrite (special_not_bs x Sx). rewrite !andb_false_r. reflexivity.
  - rewrite contains_cons, IH, orb_false_r. cbn [startswith].
    destruct (Ascii.eqb BS x) eqn:Ex; [|reflexivity].
    apply eqb_true in Ex. subst x. cbn [andb].
    destruct s as [|y s']; [reflexivity|].
    cbn [flat_map]. unfold esc at 1.
    destruct (special y) eqn:Sy; cbn [app startswith].
    + rewrite Ascii.eqb_refl. cbn [andb].
      destruct (Ascii.eqb c y) eqn:Ecy; [|reflexivity].
      apply eqb_true in Ecy. subst y.
      cbn [startswith] in H1. rewrite !Ascii.eqb_refl in H1. discriminate.
    + destruct (Ascii.eqb BS y); [|reflexivity]. cbn [andb].
      apply head_not_special, Hc.
Qed.

Section Requote.
Variable new : str.
Hypothesis new_plain : forallb (fun x => negb (sharp x)) new = true.
Hypothesis new_not_empty : new <> [].

Lemma sharp_not_in_new (a : ascii) (n : ascii) (l : str) :
  sharp a = true -> forallb (fun x => negb (sharp x)) (n :: l) = true ->
  Ascii.eqb a n = false.
Proof.
  intros Ha H. cbn [forallb] in H. apply andb_true_iff in H. destruct H as [Hn _].
  destruct (Ascii.eqb a n) eqn:E; [|reflexivity].
  apply eqb_true in E. subst n. rewrite Ha in Hn. discriminate.
Qed.

Lemma requote_startswith (s o : str) :
  requote new s o ->
  forall p, forallb sharp p = true -> startswith p o = true -> startswith p s = true.
Proof.
  induction 1 as [|x s o R IH|x s o Hx R IH]; intros p Hp H.
  - exact H.
  - destruct p as [|a p]; [reflexivity|].
    cbn [forallb] in Hp. apply andb_true_iff in Hp. destruct Hp as [Ha Hp].
    cbn [startswith] in *. apply andb_true_iff in H. destruct H as [H1 H2].
    rewrite H1. cbn [andb]. apply IH; assumption.
  - destruct p as [|a p]; [reflexivity|].
    cbn [forallb] in Hp. apply andb_true_iff in Hp. destruct Hp as [Ha Hp].
    destruct new as [|n l]; [contradiction|].
    cbn [app startswith] in H.
    rewrite (@sharp_not_in_new a n l Ha new_plain) in H. discriminate.
Qed.

Lemma contains_past_new (a : ascii) (p o : str) :
  sharp a = true ->
  forall l, forallb (fun x => negb (sharp x)) l = true ->
  contains (a :: p) (l ++ o) = contains (a :: p) o.
Proof.
  intros Ha. induction l as [|n l IH]; intros Hl; [reflexivity|].
  cbn [app]. rewrite contains_cons. cbn [startswith].
  rewrite (@sharp_not_in_new a n l Ha Hl). cbn [andb orb].
  apply IH. cbn [forallb] in Hl. apply andb_true_iff in Hl. apply Hl.
Qed.

(** Replacing characters by [new] brings in no occurrence of a text made of
    backslashes and the three characters. *)
Lemma requote_contains (s o : str) (a : ascii) (p : str) :
  requote new s o ->
  forallb sharp (a :: p) = true ->
  contains (a :: p) s = false -> contains (a :: p) o = false.
Proof.
  intros R Hp. induction R as [|x s o R IH|x s o Hx R IH]; intros H.
  - exact H.
  - rewrite contains_cons in *. apply orb_false_iff in H. destruct H as [H1 H2].
    rewrite (IH H2), orb_false_r.
    destruct (startswith (a :: p) (x :: o)) eqn:E; [|reflexivity].
    rewrite (@requote_startswith _ _ (rq_keep x R) _ Hp E) in H1. discriminate.
  - rewrite contains_cons in H. apply orb_false_iff in H. destruct H as [_ H2].
    cbn [forallb] in Hp. apply andb_true_iff in Hp. destruct Hp as [Ha _].
    rewrite (@contains_past_new a p o Ha new new_plain). apply IH, H2.
Qed.

End Requote.

Lemma requote_sub (fl : flags) (re : regex) (tpl : list piece) (new : str) :
  (forall prev s m, match_here fl re prev s = Some m -> shape new tpl s m) ->
  forall n s, List.length s <= n ->
  forall adj prev, requote new s (sub_from fl re (expand tpl) 0 adj prev s).
Proof.
  intros Hshape. induction n as [|n IH]; intros s Hlen adj prev.
  - destruct s as [|c t]; [|simpl in Hlen; lia].
    destruct (match_here fl re prev []) as [m|] eqn:E.
    + destruct (Hshape _ _ _ E) as [(q & t & Es & _)|[(w & q & t & Es & _)|(q & x & t & Es & _)]];
        discriminate.
    + rewrite sub_from_nil by exact E. constructor.
  - destruct s as [|c t].
    + destruct (match_here fl re prev []) as [m|] eqn:E.
      * destruct (Hshape _ _ _ E) as [(q & t & Es & _)|[(w & q & t & Es & _)|(q & x & t & Es & _)]];
          discriminate.
      * rewrite sub_from_nil by exact E. constructor.
    + simpl in Hlen.
      destruct (match_here fl re prev (c :: t)) as [m|] eqn:E.
      * destruct (Hshape _ _ _ E)
          as [(q & t0 & Es & Hq & Et & Ex)|[(w & q & t0 & Es & Hq & Et & Ex)
                                           |(q & x & t0 & Es & Hq & Et & Ex)]].
        -- injection Es as <- <-.
           assert (L : List.length (m_text m) = 1) by (rewrite Et; reflexivity).
           rewrite (@sub_from_hit fl re (expand tpl) adj prev c t m 0 E L), Ex.
           apply rq_new; [exact Hq|]. apply IH. lia.
        -- injection Es as <- ->.
           assert (L : List.length (m_text m) = 2) by (rewrite Et; reflexivity).
           rewrite (@sub_from_hit fl re (expand tpl) adj prev c (q :: t0) m 1 E L), Ex.
           rewrite sub_from_skip. cbn [app].
           apply rq_keep, rq_new; [exact Hq|]. apply IH. simpl in Hlen. lia.
        -- injection Es as <- ->.
           assert (L : List.length (m_text m) = 2) by (rewrite Et; reflexivity).
           rewrite (@sub_from_hit fl re (expand tpl) adj prev c (x :: t0) m 1 E L), Ex.
           rewrite sub_from_skip. rewrite <- app_assoc. cbn [app].
           apply rq_new; [exact Hq|]. apply rq_keep. apply IH. simpl in Hlen. lia.
      * rewrite (@sub_from_miss fl re (expand tpl) adj prev c t E).
        apply rq_keep. apply IH. lia.
Qed.

Ltac split_ifs H :=
  repeat match type of H with
         | context [if ?b then _ else _] => destruct b eqn:?
         end.

Ltac known_chars :=
  repeat match goal with
         | H : Ascii.eqb ?x ?c = true |- _ => apply Ascii.eqb_eq in H; subst x
         end.

Ltac shape_done :=
  known_chars;
  first
    [ left; do 2 eexists; repeat split; reflexivity
    | right; left; do 3 eexists; repeat split; reflexivity
    | right; right; do 3 eexists; repeat split; reflexivity ].

Lemma start_single_shape (prev : option ascii) (s : str) (m : matchobj) :
  match_here no_flags start_single_quote_re prev s = Some m ->
  shape "`" [G 1; T "`"] s m.
Proof.
  unfold match_here, start_single_quote_re. intros H.
  destruct s as [|a [|b t]]; destruct prev as [c|]; simpl in H;
    split_ifs H; try discriminate; injection H as <-; shape_done.
Qed.

Lemma start_double_shape (prev : option ascii) (s : str) (m : matchobj) :
  match_here no_flags start_double_quote_re prev s = Some m ->
  shape "``" [G 1; T "``"] s m.
Proof.
  unfold match_here, start_double_quote_re. intros H.
  destruct s as [|a [|b t]]; destruct prev as [c|]; simpl in H;
    split_ifs H; try discriminate; injection H as <-; shape_done.
Qed.

Lemma end_double_shape (prev : option ascii) (s : str) (m : matchobj) :
  match_here no_flags end_double_quote_re prev s = Some m ->
  shape "''" [T "''"; G 1] s m.
Proof.
  unfold match_here, end_double_quote_re. intros H.
  destruct s as [|a [|b t]]; simpl in H;
    split_ifs H; try discriminate; injection H as <-; shape_done.
Qed.

Lemma new_quotes_plain :
  forallb (fun x => negb (sharp x)) "`" = true
  /\ forallb (fun x => negb (sharp x)) "``" = true
  /\ forallb (fun x => negb (sharp x)) "''" = true.
Proof. repeat split. Qed.

(** The three quote substitutions bring in no occurrence of a text made of
    backslashes and the three characters. *)
Lemma quotes_keep (s : str) (a : ascii) (p : str) :
  forallb sharp (a :: p) = true ->
  contains (a :: p) s = false ->
  contains (a :: p)
    (sub no_flags end_double_quote_re [T "''"; G 1]
       (sub no_flags start_double_quote_re [G 1; T "``"]
          (sub no_flags start_single_quote_re [G 1; T "`"] s))) = false.
Proof.
  intros Hp H. destruct new_quotes_plain as (P1 & P2 & P3).
  unfold sub, sub_fn.
  apply (@requote_contains "''" P3 ltac:(discriminate) _ _ a p
           (@requote_sub _ _ _ _ end_double_shape _ _ (le_n _) false None) Hp).
  apply (@requote_contains "``" P2 ltac:(discriminate) _ _ a p
           (@requote_sub _ _ _ _ start_double_shape _ _ (le_n _) false None) Hp).
  apply (@requote_contains "`" P1 ltac:(discriminate) _ _ a p
           (@requote_sub _ _ _ _ start_single_shape _ _ (le_n _) false None) Hp).
  exact H.
Qed.

(** A text none of whose characters satisfies [P] keeps that through a
    replacement by a text of the same kind. *)
Lemma replace_keeps (P : ascii -> bool) (old new : str) :
  forallb P new = true ->
  forall s, forallb P s = true -> forallb P (replace old new s) = true.
Proof.
  intros Hnew s Hs. unfold replace. destruct old as [|o old].
  - rewrite forallb_app, Hnew. cbn [andb].
    induction s as [|x s IH]; [reflexivity|].
    cbn [forallb] in Hs. apply andb_true_iff in Hs. destruct Hs as [Hx Hs].
    cbn [flat_map]. rewrite forallb_app. cbn [forallb].
    rewrite Hx, Hnew, (IH Hs). reflexivity.
  - generalize 0. induction s as [|x s IH]; intros skip; [reflexivity|].
    cbn [forallb] in Hs. apply andb_true_iff in Hs. destruct Hs as [Hx Hs].
    cbn [replace_from]. destruct skip as [|n]; [|apply IH, Hs].
    destruct (startswith (o :: old) (x :: s)).
    + rewrite forallb_app, Hnew. apply IH, Hs.
    + cbn [forallb]. rewrite Hx. apply IH, Hs.
Qed.

(** Replacing a text that does not occur changes nothing. *)
Lemma replace_absent (o : ascii) (old new s : str) :
  contains (o :: old) s = false -> replace (o :: old) new s = s.
Proof.
  unfold replace. induction s as [|x s IH]; intro H; [reflexivity|].
  rewrite contains_cons in H. apply orb_false_iff in H. destruct H as [H1 H2].
  cbn [replace_from]. rewrite H1, (IH H2). reflexivity.
Qed.

Lemma no_backslash_not_escaped (s : str) :
  no_backslash s = true -> escaped_in s = false.
Proof.
  intros H.
  assert (L : forall c, contains [BS; c] s = false).
  { intro c. induction s as [|x s IH]; [reflexivity|].
    unfold no_backslash in H. cbn [forallb] in H.
    apply andb_true_iff in H. destruct H as [Hx Hs].
    rewrite contains_cons, (IH Hs), orb_false_r. cbn [startswith].
    apply negb_true_iff in Hx. rewrite Ascii.eqb_sym, Hx. reflexivity. }
  unfold escaped_in. rewrite !L. reflexivity.
Qed.

(** Without a backslash and without the entity [&amp;] in the text,
    removing the entities and tags brings in no backslash. *)
Lemma remove_keeps_plain (text : str) :
  no_backslash text = true -> contains "&amp;" text = false ->
  no_backslash (remove_html_entities text) = true.
Proof.
  intros Hb Ha. unfold remove_html_entities.
  rewrite (@replace_absent _ _ "\&" _ Ha).
  cbn [fold_left html_tags].
  unfold no_backslash in *.
  repeat (apply replace_keeps; [reflexivity|]).
  exact Hb.
Qed.








(** The call as a whole. *)
Lemma escaped_once (text : str) :
  escaped_in (remove_html_entities text) = false ->
  double_escaped (escape_latex_entities text) = false.
Proof.
  intros H. unfold escape_latex_entities. cbv zeta.
  rewrite three_replaces.
  unfold escaped_in in H.
  apply orb_false_iff in H. destruct H as [H H3].
  apply orb_false_iff in H. destruct H as [H1 H2].
  unfold double_escaped.
  rewrite !quotes_keep; try reflexivity;
    apply no_double; (reflexivity || assumption).
Qed.

End EscapeFacts.




(** In particular a text without a backslash and without [&amp;] is never
    escaped twice. *)
Corollary plain_text_escaped_once (text : str) :
  Escape.no_backslash text = true -> contains "&amp;" text = false ->
  Escape.double_escaped (escape_latex_entities text) = false.
Proof.
  intros Hb Ha. apply EscapeFacts.escaped_once.
  apply EscapeFacts.no_backslash_not_escaped, EscapeFacts.remove_keeps_plain; assumption.
Qed.

(** ** Replacing in a text *)

Module ReplaceFacts.
Import EscapeFacts Escape Occurrences.

Lemma decided_no_sound (old p b : str) :
  decided_no old p = true -> startswith old (p ++ b) = false.
Proof.
  revert p. induction old as [|o old IH]; intros p H; [destruct p; discriminate|].
  destruct p as [|x p]; [discriminate|].
  cbn [decided_no] in H. cbn [app startswith].
  destruct (Ascii.eqb o x); [|reflexivity].
  cbn [andb]. apply IH, H.
Qed.

(** Passing the characters of an occurrence that was replaced. *)
Lemma replace_from_skip (old new p b : str) :
  replace_from old new (List.length p) (p ++ b) = replace_from old new 0 b.
Proof.
  induction p as [|x p IH]; [destruct b; reflexivity|].
  cbn [List.length app replace_from]. exact IH.
Qed.

(** The text that starts with [old]. *)
Lemma replace_here (o : ascii) (old new b : str) :
  replace (o :: old) new ((o :: old) ++ b) = new ++ replace (o :: old) new b.
Proof.
  unfold replace. cbn [app replace_from].
  rewrite (StripFacts.startswith_app (o :: old) b : startswith (o :: old) (o :: old ++ b) = true).
  cbn [List.length Nat.sub]. rewrite Nat.sub_0_r. f_equal.
  apply replace_from_skip.
Qed.

(** A start of the text in which [old] starts nowhere is copied. *)
Lemma replace_past (o : ascii) (old new p b : str) :
  never_starts (o :: old) p = true ->
  replace (o :: old) new (p ++ b) = p ++ replace (o :: old) new b.
Proof.
  unfold replace. induction p as [|x p IH]; intros H; [reflexivity|].
  cbn [never_starts] in H. apply andb_true_iff in H. destruct H as [H1 H2].
  cbn [app replace_from].
  rewrite (decided_no_sound (o :: old) (x :: p) b H1 : startswith (o :: old) (x :: p ++ b) = false).
  rewrite (IH H2). reflexivity.
Qed.

(** [old] starts with a character that [p] does not hold. *)
Lemma never_starts_without (o : ascii) (old p : str) :
  forallb (fun x => negb (Ascii.eqb x o)) p = true -> never_starts (o :: old) p = true.
Proof.
  induction p as [|x p IH]; intros H; [reflexivity|].
  cbn [forallb] in H. apply andb_true_iff in H. destruct H as [Hx Hp].
  cbn [never_starts decided_no].
  apply negb_true_iff in Hx. rewrite Ascii.eqb_sym, Hx. apply IH, Hp.
Qed.

(** A text that holds [p] holds every character of [p]. *)
Lemma startswith_char (c : ascii) (p s : str) :
  In c p -> startswith p s = true -> In c s.
Proof.
  revert s. induction p as [|x p IH]; intros s Hc H; [destruct Hc|].
  destruct s as [|y s]; [discriminate|].
  cbn [startswith] in H. apply andb_true_iff in H. destruct H as [Hxy Hp].
  apply Ascii.eqb_eq in Hxy. subst y.
  destruct Hc as [->|Hc]; [left; reflexivity | right; apply IH; assumption].
Qed.

Lemma contains_needs_char (c : ascii) (p s : str) :
  In c p -> forallb (fun x => negb (Ascii.eqb x c)) s = true -> contains p s = false.
Proof.
  intros Hc. induction s as [|x s IH]; intros H.
  - destruct p; [destruct Hc | reflexivity].
  - cbn [forallb] in H. apply andb_true_iff in H. destruct H as [Hx Hs].
    rewrite contains_cons, (IH Hs), orb_false_r.
    destruct (startswith p (x :: s)) eqn:E; [|reflexivity].
    exfalso. apply (startswith_char c) in E; [|exact Hc].
    assert (F : forallb (fun x => negb (Ascii.eqb x c)) (x :: s) = true)
      by (cbn [forallb]; rewrite Hx, Hs; reflexivity).
    rewrite forallb_forall in F. specialize (F c E).
    rewrite Ascii.eqb_refl in F. discriminate.
Qed.

(** A text without the character [c] is not changed by replacing a text
    that holds [c]. *)
Lemma replace_without (c o : ascii) (old new s : str) :
  In c (o :: old) -> forallb (fun x => negb (Ascii.eqb x c)) s = true ->
  replace (o :: old) new s = s.
Proof.
  intros Hc H. apply replace_absent. apply (contains_needs_char c); assumption.
Qed.

End ReplaceFacts.

(** ** Unescaping, dequoting, the template *)

Module HelperFacts.
Import EscapeFacts Escape ReplaceFacts Occurrences.

Lemma amp_head (s : str) : startswith "&" (flat_map amp s) = false.
Proof.
  destruct s as [|y s]; [reflexivity|].
  cbn [flat_map]. unfold amp at 1. destruct (Ascii.eqb "&" y) eqn:E; [reflexivity|].
  cbn [app startswith]. rewrite E. reflexivity.
Qed.

Lemma unescape_amp (s : str) :
  replace_from "\&" "&" 0 (flat_map amp s) = s.
Proof.
  induction s as [|x s IH]; [reflexivity|].
  cbn [flat_map]. unfold amp at 1. destruct (Ascii.eqb "&" x) eqn:E.
  - apply eqb_true in E. subst x.
    change (replace_from "\&" "&" 0 ("\&" ++ flat_map amp s))
      with ("&" ++ replace_from "\&" "&" 0 (flat_map amp s)).
    rewrite IH. reflexivity.
  - cbn [app replace_from startswith].
    rewrite (amp_head s : startswith "&" (flat_map amp s) = false) || idtac.
    destruct (Ascii.eqb "\"%char x) eqn:Ex.
    + cbn [andb]. pose proof (amp_head s) as A.
      destruct (flat_map amp s) as [|y l] eqn:F.
      * cbn [replace_from] in IH. subst s. reflexivity.
      * cbn [startswith] in A |- *. rewrite andb_true_r in A. rewrite A. cbn [andb].
        rewrite IH. reflexivity.
    + cbn [andb]. rewrite IH. reflexivity.
Qed.

Lemma removelast_snoc (s : str) (q : ascii) : removelast (s ++ [q]) = s.
Proof. apply removelast_last. Qed.

Lemma endswith_snoc (q : ascii) (s : str) : endswith [q] (s ++ [q]) = true.
Proof.
  unfold endswith. rewrite rev_app_distr. cbn [rev app startswith].
  rewrite Ascii.eqb_refl. reflexivity.
Qed.

(** Where [old] first occurs. *)
Lemma startswith_longer (old u v : str) :
  List.length old <= List.length u ->
  startswith old (u ++ v) = startswith old u.
Proof.
  revert u. induction old as [|o old IH]; intros u H; [reflexivity|].
  destruct u as [|x u]; [simpl in H; lia|].
  cbn [app startswith]. rewrite IH; [reflexivity | simpl in H; lia].
Qed.

Lemma replace_first (o : ascii) (old new a b : str) :
  contains (o :: old) (a ++ removelast (o :: old)) = false ->
  replace (o :: old) new (a ++ (o :: old) ++ b)
  = a ++ new ++ replace (o :: old) new b.
Proof.
  induction a as [|x a IH]; intros H.
  - apply replace_here.
  - rewrite <- app_comm_cons in H. rewrite contains_cons in H.
    apply orb_false_iff in H. destruct H as [H1 H2].
    specialize (IH H2). unfold replace in *.
    rewrite <- app_comm_cons. cbn [replace_from].
    assert (E : startswith (o :: old) (x :: a ++ (o :: old) ++ b) = false).
    { pose proof (@app_removelast_last _ (o :: old) "000"%char ltac:(discriminate)) as Hold.
      set (r := removelast (o :: old)) in *.
      set (l := last (o :: old) "000"%char) in *.
      assert (L : List.length (o :: old) = S (List.length r)).
      { rewrite Hold at 1. rewrite length_app. simpl. lia. }
      replace (x :: a ++ (o :: old) ++ b) with ((x :: a ++ r) ++ l :: b).
      - rewrite startswith_longer; [exact H1|].
        cbn [List.length] in *. rewrite length_app. lia.
      - rewrite Hold. rewrite <- app_comm_cons, <- !app_assoc. reflexivity. }
    rewrite E, IH. reflexivity.
Qed.

End HelperFacts.

(** X1.  Unescaping undoes the ampersand escape: whatever the text, putting
    a backslash before every ampersand, as [escape_latex_entities] does, and
    then calling [unescape_latex_entities] gives the text back. *)
Theorem X1_unescape_after_escape (text : str) :
  unescape_latex_entities (replace "&" "\&" text) = text.
Proof.
  rewrite EscapeFacts.replace_char.
  exact (HelperFacts.unescape_amp text).
Qed.

(** X2.  [dequote] takes one pair of matching quotes away: a text between
    two double quotes, or between two single quotes, comes back as it was;
    a text that is a single quote character comes out empty. *)
Theorem X2_dequote_quoted (s : str) :
  dequote ([DQ] ++ s ++ [DQ]) = s
  /\ dequote ("'" ++ s ++ "'") = s
  /\ dequote [DQ] = [] /\ dequote "'" = [].
Proof.
  split; [|split; [|split; reflexivity]].
  - unfold dequote. cbn [app startswith]. rewrite Ascii.eqb_refl.
    rewrite app_comm_cons, HelperFacts.endswith_snoc. cbn [andb orb].
    unfold slice_1_m1. cbn [tl]. apply HelperFacts.removelast_snoc.
  - unfold dequote.
    change (startswith [DQ] ("'" ++ s ++ "'")) with false.
    change (startswith "'" ("'" ++ s ++ "'")) with true.
    cbn [app]. rewrite app_comm_cons, HelperFacts.endswith_snoc. cbn [andb orb].
    unfold slice_1_m1. cbn [tl app]. apply HelperFacts.removelast_snoc.
Qed.

(** X3.  In a template, the text before the first marker is kept, the
    marker is replaced by the LaTeX to insert, which is not itself searched
    for the marker, and what follows the marker is treated in the same
    way. *)
Theorem X3_template_first_marker (a b latex : str) :
  contains "INSERT-TEXT-HERE" (a ++ "INSERT-TEXT-HER") = false ->
  template (a ++ "INSERT-TEXT-HERE" ++ b) latex = a ++ latex ++ template b latex.
Proof.
  intros H. unfold template. apply HelperFacts.replace_first. exact H.
Qed.

Lemma X3_template_first_marker_witness :
  contains "INSERT-TEXT-HERE" ("\begin{document}" ++ "INSERT-TEXT-HER") = false
  /\ template ("\begin{document}" ++ "INSERT-TEXT-HERE" ++ "\end{document}")
       "See INSERT-TEXT-HERE."
     = "\begin{document}" ++ "See INSERT-TEXT-HERE."
       ++ template "\end{document}" "See INSERT-TEXT-HERE.".
Proof.
  split; [reflexivity|].
  apply (@X3_template_first_marker "\begin{document}" "\end{document}"
           "See INSERT-TEXT-HERE.").
  reflexivity.
Defined.

(** ** The HTML blocks and entities *)

Module HtmlFacts.
Import EscapeFacts Escape ReplaceFacts Plain Occurrences.

Ltac pass_marker :=
  repeat first
    [ rewrite replace_here
    | rewrite replace_past by reflexivity ].

Lemma fix_past (a b : str) :
  forallb (is_not "<") a = true -> fix_html_blocks (a ++ b) = a ++ fix_html_blocks b.
Proof.
  intros H. unfold fix_html_blocks. cbv zeta.
  repeat rewrite replace_past by (apply never_starts_without; exact H).
  reflexivity.
Qed.

End HtmlFacts.

(** X4.  [fix_html_blocks] touches nothing before the first [<] of the
    text: that start is copied and what follows is treated on its own.  A
    text without [<] comes back unchanged. *)
Theorem X4_fix_html_blocks_prefix (a b : str) :
  forallb (Plain.is_not "<") a = true ->
  fix_html_blocks (a ++ b) = a ++ fix_html_blocks b
  /\ fix_html_blocks a = a.
Proof.
  intros H. split; [apply HtmlFacts.fix_past, H|].
  rewrite <- (app_nil_r a) at 1. rewrite HtmlFacts.fix_past by exact H.
  rewrite app_nil_r. reflexivity.
Qed.

Lemma X4_fix_html_blocks_prefix_witness :
  forallb (Plain.is_not "<") "Some text " = true
  /\ fix_html_blocks ("Some text " ++ "<ul>a</ul>") = "Some text " ++ fix_html_blocks "<ul>a</ul>"
  /\ fix_html_blocks "Some text " = "Some text ".
Proof.
  split; [reflexivity|].
  apply (@X4_fix_html_blocks_prefix "Some text " "<ul>a</ul>"). reflexivity.
Defined.

(** X5.  [fix_html_blocks] translates each of its ten markers where the
    text starts with it, and goes on with what follows the marker: list
    tags open and close [itemize] and [enumerate], [sup] becomes a
    footnote, [blockquote] a [quotation], and [pre] with [code] a
    [verbatim]. *)
Theorem X5_fix_html_blocks_markers (b : str) :
  fix_html_blocks ("<ul>" ++ b) = "\begin{itemize}" ++ fix_html_blocks b
  /\ fix_html_blocks ("</ul>" ++ b) = ("\end{itemize}" ++ [NL]) ++ fix_html_blocks b
  /\ fix_html_blocks ("<ol>" ++ b) = "\begin{enumerate}" ++ fix_html_blocks b
  /\ fix_html_blocks ("</ol>" ++ b) = ("\end{enumerate}" ++ [NL]) ++ fix_html_blocks b
  /\ fix_html_blocks ("<sup>" ++ b) = "\footnote{" ++ fix_html_blocks b
  /\ fix_html_blocks ("</sup>" ++ b) = "}" ++ fix_html_blocks b
  /\ fix_html_blocks ("<blockquote>" ++ b) = "\begin{quotation}" ++ fix_html_blocks b
  /\ fix_html_blocks ("</blockquote>" ++ b) = ("\end{quotation}" ++ [NL]) ++ fix_html_blocks b
  /\ fix_html_blocks ("<pre><code>" ++ b) = ("\begin{verbatim}" ++ [NL]) ++ fix_html_blocks b
  /\ fix_html_blocks ("</code></pre>" ++ b) = ("\end{verbatim}" ++ [NL]) ++ fix_html_blocks b.
Proof.
  unfold fix_html_blocks. cbv zeta.
  repeat split; HtmlFacts.pass_marker; reflexivity.
Qed.

Module EntityFacts.
Import EscapeFacts Escape ReplaceFacts HtmlFacts Occurrences Plain.

Lemma forallb_app3 (P : ascii -> bool) (a m b : str) :
  forallb P a = true -> forallb P m = true -> forallb P b = true ->
  forallb P (a ++ m ++ b) = true.
Proof. intros Ha Hm Hb. rewrite !forallb_app, Ha, Hm, Hb. reflexivity. Qed.

(** The tags of [html_tags] all hold [>]: nothing is removed from a text
    without it. *)
Lemma tags_absent (s : str) :
  forallb (is_not ">") s = true ->
  fold_left
    (fun out tag =>
       let out := replace ("<" ++ tag ++ ">") "" out in
       replace ("</" ++ tag ++ ">") "" out)
    html_tags s = s.
Proof.
  intros H. cbn [fold_left html_tags]. cbv zeta. cbn [app].
  repeat rewrite (@replace_without ">"%char _ _ _ s) by (try exact H; simpl; tauto).
  reflexivity.
Qed.

(** One entity between two texts without [&] and without [>]. *)
Lemma one_entity (a b ent dec : str) :
  forallb (is_not "&") a = true -> forallb (is_not "&") b = true ->
  forallb (is_not ">") a = true -> forallb (is_not ">") b = true ->
  forallb (is_not ">") dec = true ->
  (forall x, replace "&quot;" [DQ]
               (replace "&gt;" "<"
                  (replace "&lt;" "<"
                     (replace "&amp;" "\&" (ent ++ x))))
             = dec ++ replace "&quot;" [DQ]
                        (replace "&gt;" "<"
                           (replace "&lt;" "<"
                              (replace "&amp;" "\&" x)))) ->
  remove_html_entities (a ++ ent ++ b) = a ++ dec ++ b.
Proof.
  intros Ha Hb Ga Gb Gd Hent. unfold remove_html_entities. cbv zeta.
  assert (Pa : forall o old, o = "&"%char -> never_starts (o :: old) a = true)
    by (intros o old ->; apply never_starts_without, Ha).
  rewrite !replace_past by (apply Pa; reflexivity).
  rewrite Hent.
  rewrite !(@replace_without "&"%char _ _ _ b) by (try exact Hb; simpl; tauto).
  apply tags_absent. apply forallb_app3; assumption.
Qed.

End EntityFacts.

(** X6.  Between two texts that hold neither [&] nor [>],
    [remove_html_entities] decodes its entities in place: [&lt;] becomes
    [<], [&gt;] becomes the same [<], [&quot;] a double quote; and the
    ampersand written for [&amp;] is read again by the later replacements,
    so that [&amp;lt;] comes out as a backslash and [<]. *)
Theorem X6_entities_decoded (a b : str) :
  forallb (Plain.is_not "&") (a ++ b) = true ->
  forallb (Plain.is_not ">") (a ++ b) = true ->
  remove_html_entities (a ++ "&lt;" ++ b) = a ++ "<" ++ b
  /\ remove_html_entities (a ++ "&gt;" ++ b) = a ++ "<" ++ b
  /\ remove_html_entities (a ++ "&quot;" ++ b) = a ++ [DQ] ++ b
  /\ remove_html_entities (a ++ "&amp;lt;" ++ b) = a ++ "\<" ++ b.
Proof.
  intros H1 H2. rewrite forallb_app in H1, H2.
  apply andb_true_iff in H1. apply andb_true_iff in H2.
  destruct H1 as [Ha Hb]. destruct H2 as [Ga Gb].
  repeat split; apply EntityFacts.one_entity; try assumption; try reflexivity;
    intros x; vm_compute; reflexivity.
Qed.

Lemma X6_entities_decoded_witness :
  forallb (Plain.is_not "&") ("1 " ++ " 2") = true
  /\ forallb (Plain.is_not ">") ("1 " ++ " 2") = true
  /\ remove_html_entities ("1 " ++ "&gt;" ++ " 2") = "1 " ++ "<" ++ " 2".
Proof.
  split; [reflexivity|]. split; [reflexivity|].
  apply (@X6_entities_decoded "1 " " 2"); reflexivity.
Defined.

(** ** Escaping a text without markup *)

Module PlainFacts.
Import EscapeFacts Escape ReplaceFacts HtmlFacts ReFacts Plain Occurrences.

Lemma tags_absent_lt (s : str) :
  forallb (is_not "<") s = true ->
  fold_left
    (fun out tag =>
       let out := replace ("<" ++ tag ++ ">") "" out in
       replace ("</" ++ tag ++ ">") "" out)
    html_tags s = s.
Proof.
  intros H. cbn [fold_left html_tags]. cbv zeta. cbn [app].
  repeat rewrite (@replace_without "<"%char _ _ _ s) by (try exact H; simpl; tauto).
  reflexivity.
Qed.

Lemma remove_nothing (text : str) :
  no_entity text = true -> forallb (is_not "<") text = true ->
  remove_html_entities text = text.
Proof.
  intros H L. unfold no_entity in H.
  repeat (apply andb_true_iff in H; let H' := fresh "E" in destruct H as [H H']).
  apply negb_true_iff in H, E, E0, E1.
  unfold remove_html_entities. cbv zeta.
  rewrite (@replace_absent _ _ "\&" text H), (@replace_absent _ _ "<" text E1),
    (@replace_absent _ _ "<" text E0), (@replace_absent _ _ [DQ] text E).
  apply tags_absent_lt, L.
Qed.

Lemma no_quote_esc (s : str) :
  forallb no_quote s = true -> forallb no_quote (flat_map esc s) = true.
Proof.
  induction s as [|x s IH]; intros H; [reflexivity|].
  cbn [forallb] in H. apply andb_true_iff in H. destruct H as [Hx Hs].
  cbn [flat_map]. rewrite forallb_app, (IH Hs), andb_true_r.
  unfold esc. destruct (special x); cbn [forallb]; rewrite Hx; reflexivity.
Qed.

Ltac use_no_quote H :=
  cbn [forallb] in H; unfold no_quote, is_not in H;
  repeat match type of H with
         | _ && _ = true =>
             let A := fresh "Q" in
             apply andb_true_iff in H; destruct H as [A H];
             try (apply andb_true_iff in A; destruct A as [A ?])
         end;
  repeat match goal with
         | Q : negb _ = true |- _ => apply negb_true_iff in Q
         end.

Ltac no_quote_case :=
  repeat match goal with
         | Q : Ascii.eqb ?x ?y = false |- context [Ascii.eqb ?x ?y] => rewrite Q
         end;
  cbn [andb orb];
  repeat match goal with
         | |- context [if ?b then _ else _] => destruct b; try reflexivity
         end;
  try reflexivity.

Lemma start_single_none (prev : option ascii) (s : str) :
  forallb no_quote s = true ->
  match_here no_flags start_single_quote_re prev s = None.
Proof.
  intros H. unfold match_here, start_single_quote_re.
  destruct s as [|a [|b t]]; destruct prev as [c|]; simpl; try reflexivity;
    use_no_quote H; no_quote_case.
Qed.

Lemma start_double_none (prev : option ascii) (s : str) :
  forallb no_quote s = true ->
  match_here no_flags start_double_quote_re prev s = None.
Proof.
  intros H. unfold match_here, start_double_quote_re.
  destruct s as [|a [|b t]]; destruct prev as [c|]; simpl; try reflexivity;
    use_no_quote H; no_quote_case.
Qed.

Lemma end_double_none (prev : option ascii) (s : str) :
  forallb no_quote s = true ->
  match_here no_flags end_double_quote_re prev s = None.
Proof.
  intros H. unfold match_here, end_double_quote_re.
  destruct s as [|a t]; simpl; try reflexivity;
    use_no_quote H; no_quote_case.
Qed.

(** The three quote substitutions leave a text without quotes alone. *)
Lemma quotes_nothing (s : str) :
  forallb no_quote s = true ->
  sub no_flags end_double_quote_re [T "''"; G 1]
    (sub no_flags start_double_quote_re [G 1; T "``"]
       (sub no_flags start_single_quote_re [G 1; T "`"] s)) = s.
Proof.
  intros H. unfold sub, sub_fn.
  rewrite (@sub_from_no_match no_flags start_single_quote_re _ s false None)
    by (intros pre t ->; apply start_single_none;
        exact (DisplayFacts.forallb_suffix _ _ _ H)).
  rewrite (@sub_from_no_match no_flags start_double_quote_re _ s false None)
    by (intros pre t ->; apply start_double_none;
        exact (DisplayFacts.forallb_suffix _ _ _ H)).
  apply sub_from_no_match. intros pre t ->. apply end_double_none.
  exact (DisplayFacts.forallb_suffix _ _ _ H).
Qed.

Lemma forallb_weaken (P Q : ascii -> bool) (s : str) :
  (forall x, P x = true -> Q x = true) -> forallb P s = true -> forallb Q s = true.
Proof.
  intros I H. rewrite forallb_forall in *. intros x Hx. apply I, H, Hx.
Qed.

Lemma escape_plain (text : str) :
  no_entity text = true -> forallb no_markup text = true ->
  escape_latex_entities text = flat_map esc text.
Proof.
  intros E M. unfold escape_latex_entities. cbv zeta.
  rewrite remove_nothing; [|exact E|].
  - rewrite three_replaces. apply quotes_nothing, no_quote_esc.
    apply (forallb_weaken no_markup); [|exact M].
    intros x Hx. unfold no_markup in Hx. apply andb_true_iff in Hx. apply Hx.
  - apply (forallb_weaken no_markup); [|exact M].
    intros x Hx. unfold no_markup in Hx. apply andb_true_iff in Hx. apply Hx.
Qed.

End PlainFacts.

(** X7.  On a text without tags, quotes and entities,
    [escape_latex_entities] does one thing only: it puts one backslash
    before every [%], [&] and [#] and keeps every other character. *)
Theorem X7_escape_plain_text (text : str) :
  Plain.no_entity text = true ->
  forallb Plain.no_markup text = true ->
  escape_latex_entities text = flat_map Escape.esc text.
Proof. exact (PlainFacts.escape_plain text). Qed.

Lemma X7_escape_plain_text_witness :
  Plain.no_entity "R&D: 100% of #1" = true
  /\ forallb Plain.no_markup "R&D: 100% of #1" = true
  /\ escape_latex_entities "R&D: 100% of #1" = flat_map Escape.esc "R&D: 100% of #1".
Proof.
  split; [reflexivity|]. split; [reflexivity|].
  apply (@X7_escape_plain_text "R&D: 100% of #1"); reflexivity.
Defined.

(** ** More of the math postprocessor *)

Module MathFacts.
Import MathTextPostProcessor ReFacts Display DisplayFacts ReplaceFacts HtmlFacts Plain Occurrences.

Lemma repl_1_wrapped (m : matchobj) :
  already_latex (unescape_latex_entities (group m 1)) = false ->
  repl_1 m = "\[" ++ unescape_latex_entities (group m 1) ++ "\]".
Proof. unfold repl_1, already_latex. intros ->. reflexivity. Qed.

Lemma wrapped_no_dollar (c : str) :
  forallb not_dollar c = true ->
  forallb not_dollar ("\[" ++ unescape_latex_entities c ++ "\]") = true.
Proof.
  intros H. rewrite !forallb_app, (unescape_no_dollar c H). reflexivity.
Qed.

(** Both display substitutions on a block that is not LaTeX yet. *)
Lemma display_block_wrapped (c w : str) :
  forallb not_dollar c = true -> forallb is_space w = true ->
  already_latex (unescape_latex_entities c) = false ->
  display_passes ("$$" ++ c ++ "$$" ++ w) = "\[" ++ unescape_latex_entities c ++ "\]"
  /\ display_passes ("<p>$$" ++ c ++ "$$" ++ w)
     = "\[" ++ unescape_latex_entities c ++ "\]".
Proof.
  intros Hc Hw Hg. unfold display_passes, sub_fn. split.
  - rewrite (@sub_from_no_match ML pat repl_1 ("$$" ++ c ++ "$$" ++ w) false None)
      by (intros pre t E; exact (pat_not_in_block c w pre t _ Hc Hw E)).
    destruct (match_pat1_block c w Hc Hw) as (m & M & T & G).
    rewrite (@sub_whole ML pat1 repl_1 _ m false None pat1_nil M T).
    rewrite repl_1_wrapped; rewrite G; [reflexivity | exact Hg].
  - destruct (match_pat_block c w Hc Hw) as (m & M & T & G).
    rewrite (@sub_whole ML pat repl_1 _ m false None pat_nil M T).
    rewrite repl_1_wrapped; rewrite G; [|exact Hg].
    apply sub_from_no_match. intros pre t E.
    apply pat1_needs_dollar.
    apply (forallb_suffix _ pre). rewrite <- E. apply wrapped_no_dollar, Hc.
Qed.

(** The inline pattern needs a dollar where it starts. *)
Lemma pat3_needs_dollar (prev : option ascii) (x : ascii) (t : str) :
  not_dollar x = true -> match_here no_flags pat3 prev (x :: t) = None.
Proof.
  intros H. unfold match_here, pat3. simpl.
  unfold not_dollar, DOLLAR in H. apply negb_true_iff in H. rewrite H. reflexivity.
Qed.

Lemma pat3_nil (prev : option ascii) : match_here no_flags pat3 prev [] = None.
Proof. reflexivity. Qed.

Lemma pat3_none (prev : option ascii) (t : str) :
  forallb not_dollar t = true -> match_here no_flags pat3 prev t = None.
Proof.
  destruct t as [|x t]; intros H; [reflexivity|].
  cbn [forallb] in H. apply andb_true_iff in H. apply pat3_needs_dollar, H.
Qed.

(** The substitution copies a start of the text in which no match starts. *)
Lemma sub_from_past (fl : flags) (r : regex) (repl : matchobj -> str) (pre rest : str) :
  (forall prev x t, In x pre -> match_here fl r prev (x :: t) = None) ->
  forall adj prev, exists adj' prev',
    sub_from fl r repl 0 adj prev (pre ++ rest)
    = pre ++ sub_from fl r repl 0 adj' prev' rest.
Proof.
  induction pre as [|x pre IH]; intros H adj prev.
  - exists adj, prev. reflexivity.
  - rewrite <- app_comm_cons.
    rewrite (@sub_from_miss fl r repl adj prev x (pre ++ rest))
      by (apply H; left; reflexivity).
    destruct (IH (fun p y t Hy => H p y t (or_intror Hy)) false (Some x))
      as (adj' & prev' & E).
    exists adj', prev'. rewrite E. reflexivity.
Qed.

(** Passing the characters of a match. *)
Lemma sub_from_over (fl : flags) (r : regex) (repl : matchobj -> str) (p rest : str) :
  forall adj prev, exists adj' prev',
    sub_from fl r repl (List.length p) adj prev (p ++ rest)
    = sub_from fl r repl 0 adj' prev' rest.
Proof.
  induction p as [|x p IH]; intros adj prev.
  - exists adj, prev. reflexivity.
  - cbn [List.length app]. rewrite sub_from_skip. apply IH.
Qed.

(** The inline pattern on a block. *)
Lemma match_pat3_block (c post : str) (prev : option ascii) :
  forallb not_dollar c = true ->
  exists m, match_here no_flags pat3 prev ("$$" ++ c ++ "$$" ++ post) = Some m
            /\ m_text m = "$$" ++ c ++ "$$"
            /\ group m 1 = c.
Proof.
  intros Hc. unfold match_here, pat3. simpl.
  erewrite star_greedy; [| reflexivity | exact Hc | simpl; reflexivity].
  eexists. split; [reflexivity|]. simpl. split.
  - do 2 f_equal. rewrite firstn_app_2. reflexivity.
  - replace (List.length c + 2 - 2) with (List.length c + 0) by lia.
    rewrite firstn_app_2. simpl. apply app_nil_r.
Qed.

Lemma inline_block (pre c post : str) :
  forallb not_dollar pre = true -> forallb not_dollar c = true ->
  forallb not_dollar post = true ->
  inline_pass (pre ++ "$$" ++ c ++ "$$" ++ post)
  = pre ++ "$" ++ unescape_latex_entities c ++ "$" ++ post.
Proof.
  intros Hpre Hc Hpost. unfold inline_pass, sub_fn.
  destruct (@sub_from_past no_flags pat3 repl_2 pre ("$$" ++ c ++ "$$" ++ post))
    with (adj := false) (prev := @None ascii) as (adj1 & prev1 & E1).
  { intros prev x t Hx. apply pat3_needs_dollar.
    rewrite forallb_forall in Hpre. apply Hpre, Hx. }
  rewrite E1. f_equal.
  destruct (match_pat3_block c post prev1 Hc) as (m & M & T & G).
  assert (L : List.length (m_text m) = S (List.length ("$" ++ c ++ "$$")))
    by (rewrite T; reflexivity).
  change ("$$" ++ c ++ "$$" ++ post) with ("$"%char :: "$" ++ c ++ "$$" ++ post) in *.
  rewrite (@sub_from_hit no_flags pat3 repl_2 adj1 prev1 _ _ m _ M L).
  change (repl_2 m) with ("$" ++ unescape_latex_entities (group m 1) ++ "$").
  rewrite G.
  replace ("$" ++ c ++ "$$" ++ post) with (("$" ++ c ++ "$$") ++ post)
    by (rewrite <- !app_assoc; reflexivity).
  destruct (@sub_from_over no_flags pat3 repl_2 ("$" ++ c ++ "$$") post
              (Nat.eqb (List.length ("$" ++ c ++ "$$")) 0) (Some "$"%char))
    as (adj2 & prev2 & E2).
  rewrite E2.
  rewrite sub_from_no_match
    by (intros p t ->; apply pat3_none; exact (forallb_suffix _ _ _ Hpost)).
  rewrite <- !app_assoc. reflexivity.
Qed.

Lemma pat2_none (prev : option ascii) (t : str) :
  forallb not_dollar t = true -> match_here no_flags pat2 prev t = None.
Proof.
  intros H. rewrite CurrencyFacts.match_here_pat2.
  destruct t as [|x [|y [|z t']]]; try reflexivity.
  cbn [forallb] in H. apply andb_true_iff in H. destruct H as [_ H].
  apply andb_true_iff in H. destruct H as [Hy _].
  unfold not_dollar in Hy. apply negb_true_iff in Hy.
  rewrite Hy, andb_false_r. reflexivity.
Qed.

Lemma prose_unchanged (text : str) :
  forallb prose text = true -> run text = text.
Proof.
  intros H.
  assert (D : forallb not_dollar text = true).
  { apply (PlainFacts.forallb_weaken prose); [|exact H].
    intros x Hx. unfold prose in Hx. rewrite !andb_true_iff in Hx. tauto. }
  assert (P : forallb (is_not PERCENT) text = true).
  { apply (PlainFacts.forallb_weaken prose); [|exact H].
    intros x Hx. unfold prose in Hx. rewrite !andb_true_iff in Hx. tauto. }
  assert (B : forallb (is_not BS) text = true).
  { apply (PlainFacts.forallb_weaken prose); [|exact H].
    intros x Hx. unfold prose in Hx. rewrite !andb_true_iff in Hx. tauto. }
  assert (S : forallb (is_not "*") text = true).
  { apply (PlainFacts.forallb_weaken prose); [|exact H].
    intros x Hx. unfold prose in Hx. rewrite !andb_true_iff in Hx. tauto. }
  unfold run. cbv zeta.
  rewrite (display_passes_no_dollar text D).
  assert (C : currency_pass text = text).
  { unfold currency_pass, sub, sub_fn. apply sub_from_no_match.
    intros pre t ->. apply pat2_none. exact (forallb_suffix _ _ _ D). }
  rewrite C.
  assert (I : inline_pass text = text).
  { unfold inline_pass, sub_fn. apply sub_from_no_match.
    intros pre t ->. apply pat3_none. exact (forallb_suffix _ _ _ D). }
  rewrite I.
  rewrite PercentFacts.percent_pass_spec, (PercentFacts.percent_spec_none text P).
  rewrite (@replace_without BS _ _ _ text) by (try exact B; simpl; tauto).
  rewrite (@replace_without "*"%char _ _ _ text) by (try exact S; simpl; tauto).
  rewrite (@replace_without BS _ _ _ text) by (try exact B; simpl; tauto).
  reflexivity.
Qed.

Lemma leading_dollar (s : str) :
  currency_pass (DOLLAR :: s) = DOLLAR :: currency_pass s.
Proof.
  unfold currency_pass, sub, sub_fn.
  change [G 1; T "\$"; G 2] with Currency.tpl.
  rewrite sub_from_miss.
  - f_equal. apply CurrencyFacts.scan_indep.
  - rewrite CurrencyFacts.match_here_pat2. destruct s as [|y [|z t]]; reflexivity.
Qed.

End MathFacts.

(** ** A display block on a line of a text *)

Module LineFacts.
Import MathTextPostProcessor ReFacts Display DisplayFacts MathFacts.

Lemma repl_1_converted (m : matchobj) : repl_1 m = converted (group m 1).
Proof. reflexivity. Qed.


Lemma converted_wrapped (c : str) :
  already_latex (unescape_latex_entities c) = false ->
  converted c = "\[" ++ unescape_latex_entities c ++ "\]".
Proof. unfold converted. intros ->. reflexivity. Qed.

Lemma converted_no_dollar (c : str) :
  forallb not_dollar c = true -> forallb not_dollar (converted c) = true.
Proof.
  intros H. unfold converted.
  destruct (already_latex (unescape_latex_entities c));
    [apply unescape_no_dollar, H | apply wrapped_no_dollar, H].
Qed.

Lemma not_space_not_newline (x : ascii) : is_space x = false -> Ascii.eqb x NL = false.
Proof.
  intros H. destruct (Ascii.eqb x NL) eqn:E; [|reflexivity].
  apply Ascii.eqb_eq in E. subst x. discriminate H.
Qed.

(** On a line that goes on, after blanks, with a character that is no
    whitespace, the repetition finds no end of line. *)
Lemma star_no_eol (t : str) :
  reaches_word t = true ->
  forall st, Re.rest st = t ->
  star ML Space t st (fun st' => rmatch ML Eol st' Some) = None.
Proof.
  induction t as [|y t IH]; intros H st Hrest; [discriminate|].
  cbn [reaches_word] in H. cbn [star item_ok].
  assert (K : rmatch ML Eol st Some = None).
  { change (rmatch ML Eol st Some) with (if at_eol ML st then Some st else None).
    unfold at_eol. rewrite Hrest.
    destruct (Ascii.eqb y NL) eqn:E; [|reflexivity].
    exfalso. apply Ascii.eqb_eq in E. subst y. simpl in H. discriminate H. }
  destruct (is_space y).
  - apply andb_true_iff in H. destruct H as [_ H].
    rewrite (IH H (advance y t st) eq_refl). exact K.
  - exact K.
Qed.

(** The whitespace after the block, up to the end of the line: the
    repetition runs over the newline, finds no end of line behind it and
    gives the newline back. *)
Lemma space_to_eol (w rest : str) (st : mstate) :
  Re.rest st = w ++ rest ->
  forallb is_space w = true -> line_end rest = true ->
  star ML Space (w ++ rest) st (fun st' => rmatch ML Eol st' Some)
  = Some (after w rest st).
Proof.
  intros Hrest Hw Hend.
  apply star_greedy; [exact Hrest | exact Hw |].
  destruct rest as [|x t].
  - reflexivity.
  - cbn [line_end] in Hend. apply andb_true_iff in Hend. destruct Hend as [Hx Ht].
    apply Ascii.eqb_eq in Hx. subst x.
    cbn [star item_ok]. change (is_space NL) with true. cbv iota.
    rewrite (@star_no_eol t Ht (advance NL t (after w (NL :: t) st)) eq_refl).
    reflexivity.
Qed.

(** The end of the two display patterns on a block followed by whitespace
    up to the end of its line. *)
Lemma display_tail_line (c w rest : str) (st : mstate) :
  Re.rest st = "$$" ++ c ++ "$$" ++ w ++ rest ->
  forallb not_dollar c = true -> forallb is_space w = true -> line_end rest = true ->
  exists r, rmatch ML display_tail st Some = Some r
            /\ pos r = List.length ("$$" ++ c ++ "$$" ++ w) + pos st
            /\ lookup 1 (groups r) = c.
Proof.
  intros Hrest Hc Hw Hend. destruct st as [b rs p g]. simpl in Hrest. subst rs.
  unfold display_tail. simpl.
  eexists. split.
  - eapply star_greedy; [reflexivity | exact Hc |].
    simpl.
    apply (@space_to_eol w rest); [reflexivity | exact Hw | exact Hend].
  - simpl. split.
    + rewrite length_app. simpl. lia.
    + replace (List.length c + S (S p) - S (S p)) with (List.length c + 0) by lia.
      rewrite firstn_app_2. simpl. apply app_nil_r.
Qed.

Lemma firstn_block (b t : str) (n : nat) :
  n = List.length b -> firstn n (b ++ t) = b.
Proof.
  intros ->. rewrite <- (Nat.add_0_r (List.length b)).
  rewrite firstn_app_2. cbn [firstn]. apply app_nil_r.
Qed.

Lemma match_pat1_line (c w rest : str) (prev : option ascii) :
  forallb not_dollar c = true -> forallb is_space w = true -> line_end rest = true ->
  match prev with None => true | Some x => Ascii.eqb x NL end = true ->
  exists m, match_here ML pat1 prev ("$$" ++ c ++ "$$" ++ w ++ rest) = Some m
            /\ m_text m = "$$" ++ c ++ "$$" ++ w
            /\ group m 1 = c.
Proof.
  intros Hc Hw Hend Hprev. unfold match_here, pat1.
  set (st := {| before := prev; Re.rest := "$$" ++ c ++ "$$" ++ w ++ rest;
                pos := 0; groups := [] |}).
  assert (B : at_bol ML st = true).
  { unfold at_bol, st. cbn [before]. destruct prev as [x|]; [|reflexivity].
    rewrite Hprev. reflexivity. }
  change (rmatch ML (Seq Bol display_tail) st Some)
    with (if at_bol ML st then rmatch ML display_tail st Some else None).
  rewrite B.
  destruct (@display_tail_line c w rest st eq_refl Hc Hw Hend) as (r & E & P & G).
  rewrite E. eexists. split; [reflexivity|]. split.
  - cbn [m_text]. rewrite P. unfold st. cbn [pos]. rewrite Nat.add_0_r.
    replace ("$$" ++ c ++ "$$" ++ w ++ rest) with (("$$" ++ c ++ "$$" ++ w) ++ rest)
      by (rewrite <- !app_assoc; reflexivity).
    apply firstn_block. reflexivity.
  - exact G.
Qed.

Lemma match_pat_line (c w rest : str) (prev : option ascii) :
  forallb not_dollar c = true -> forallb is_space w = true -> line_end rest = true ->
  exists m, match_here ML pat prev ("<p>$$" ++ c ++ "$$" ++ w ++ rest) = Some m
            /\ m_text m = "<p>$$" ++ c ++ "$$" ++ w
            /\ group m 1 = c.
Proof.
  intros Hc Hw Hend. unfold match_here, pat.
  set (st := {| before := Some ">"%char; Re.rest := "$$" ++ c ++ "$$" ++ w ++ rest;
                pos := 3; groups := [] |}).
  change (rmatch ML (Seq (Str "<p>") display_tail)
            {| before := prev; Re.rest := "<p>$$" ++ c ++ "$$" ++ w ++ rest;
               pos := 0; groups := [] |} Some)
    with (rmatch ML display_tail st Some).
  destruct (@display_tail_line c w rest st eq_refl Hc Hw Hend) as (r & E & P & G).
  rewrite E. eexists. split; [reflexivity|]. split.
  - cbn [m_text]. rewrite P. subst st. cbn [pos].
    replace ("<p>$$" ++ c ++ "$$" ++ w ++ rest)
      with (("<p>$$" ++ c ++ "$$" ++ w) ++ rest)
      by (rewrite <- !app_assoc; reflexivity).
    apply firstn_block. simpl. lia.
  - exact G.
Qed.

(** The substitution copies a start of the text in which no match starts,
    and knows the character it stops after. *)
Lemma sub_from_before (fl : flags) (r : regex) (repl : matchobj -> str) (rest : str) :
  forall (pre : str),
  (forall a b prev, pre = a ++ b -> b <> [] -> match_here fl r prev (b ++ rest) = None) ->
  forall adj prev, exists adj',
    sub_from fl r repl 0 adj prev (pre ++ rest)
    = pre ++ sub_from fl r repl 0 adj'
               (match rev pre with [] => prev | c :: _ => Some c end) rest.
Proof.
  induction pre as [|x pre IH]; intros H adj prev.
  - exists adj. reflexivity.
  - rewrite <- app_comm_cons.
    rewrite (@sub_from_miss fl r repl adj prev x (pre ++ rest))
      by (apply (H [] (x :: pre) prev eq_refl); discriminate).
    destruct (IH (fun a b p E Hb => H (x :: a) b p (f_equal (cons x) E) Hb) false (Some x))
      as (adj' & E).
    exists adj'. rewrite E. do 2 f_equal.
    cbn [rev]. destruct (rev pre) as [|y l]; reflexivity.
Qed.

Lemma pat1_first (prev : option ascii) (x : ascii) (t : str) :
  not_dollar x = true -> match_here ML pat1 prev (x :: t) = None.
Proof.
  intros H. unfold match_here, pat1. simpl.
  destruct (at_bol ML _); [|reflexivity].
  unfold not_dollar, DOLLAR in H. apply negb_true_iff in H. rewrite H. reflexivity.
Qed.

Lemma dollars_zero (s : str) : dollars s = 0 -> forallb not_dollar s = true.
Proof.
  unfold dollars. induction s as [|x s IH]; intros H; [reflexivity|].
  cbn [count_occ] in H. destruct (ascii_dec x DOLLAR) as [->|N]; [discriminate|].
  cbn [forallb]. rewrite (IH H), andb_true_r.
  unfold not_dollar. apply negb_true_iff. apply Ascii.eqb_neq. exact N.
Qed.

(** Where the first dollar of a text stands. *)
Lemma first_dollar (u : str) : forall (v x y : str),
  forallb not_dollar u = true -> forallb not_dollar v = true ->
  u ++ DOLLAR :: x = v ++ DOLLAR :: y -> u = v.
Proof.
  induction u as [|a u IH]; intros v x y Hu Hv E.
  - destruct v as [|b v]; [reflexivity|].
    cbn [app] in E. injection E as <- _. discriminate Hv.
  - destruct v as [|b v].
    + cbn [app] in E. injection E as -> _. discriminate Hu.
    + cbn [app] in E. injection E as <- E.
      cbn [forallb] in Hu, Hv.
      apply andb_true_iff in Hu. apply andb_true_iff in Hv.
      f_equal. apply (IH v x y); tauto.
Qed.

Lemma dollars_app4 (pre c w rest : str) (b : str) :
  forallb not_dollar pre = true -> forallb not_dollar c = true ->
  forallb is_space w = true -> forallb not_dollar rest = true ->
  dollars b = 2 ->
  dollars (pre ++ b ++ c ++ "$$" ++ w ++ rest) = 4.
Proof.
  intros Hpre Hc Hw Hrest Hb. unfold dollars in *. rewrite !count_occ_app.
  fold (dollars pre) (dollars c) (dollars w) (dollars rest).
  rewrite (dollars_none pre Hpre), (dollars_none c Hc),
    (dollars_none w (space_not_dollar w Hw)), (dollars_none rest Hrest), Hb.
  reflexivity.
Qed.

(** A match of the first display pattern in a text with two pairs of
    dollars starts three characters before the first dollar. *)
Lemma pat_place (s a t : str) (prev : option ascii) (m : matchobj) :
  dollars s = 4 -> s = a ++ t -> match_here ML pat prev t = Some m ->
  forallb not_dollar (a ++ "<p>") = true
  /\ exists y, s = (a ++ "<p>") ++ DOLLAR :: y.
Proof.
  intros D E M. apply pat_inv in M. destruct M as (c' & t' & ->).
  rewrite E in D. unfold dollars in D. rewrite !count_occ_app in D.
  change (count_occ ascii_dec "<p>$$" DOLLAR) with 2 in D.
  change (count_occ ascii_dec "$$" DOLLAR) with 2 in D.
  fold (dollars a) (dollars c') (dollars t') in D.
  split.
  - rewrite forallb_app, (dollars_zero a) by lia. reflexivity.
  - exists ("$" ++ c' ++ "$$" ++ t'). rewrite E, <- app_assoc. reflexivity.
Qed.

(** The first display pattern matches nowhere in a text whose block starts
    a line. *)
Lemma pat_not_on_line (pre c w rest : str) :
  forallb not_dollar pre = true -> forallb not_dollar c = true ->
  forallb is_space w = true -> forallb not_dollar rest = true ->
  line_start pre = true ->
  forall a t prev, pre ++ "$$" ++ c ++ "$$" ++ w ++ rest = a ++ t ->
  match_here ML pat prev t = None.
Proof.
  intros Hpre Hc Hw Hrest Hstart a t prev E.
  destruct (match_here ML pat prev t) as [m|] eqn:M; [|reflexivity].
  exfalso.
  destruct (@pat_place _ a t prev m
              (@dollars_app4 pre c w rest "$$" Hpre Hc Hw Hrest eq_refl) E M)
    as (Ha & y & Ey).
  assert (P : pre = a ++ "<p>").
  { apply (@first_dollar pre (a ++ "<p>") ("$" ++ c ++ "$$" ++ w ++ rest) y Hpre Ha).
    exact Ey. }
  unfold line_start in Hstart. rewrite P, rev_app_distr in Hstart.
  discriminate Hstart.
Qed.

(** Nor before a block that starts with [<p>]. *)
Lemma pat_not_before (pre c w rest : str) :
  forallb not_dollar pre = true -> forallb not_dollar c = true ->
  forallb is_space w = true -> forallb not_dollar rest = true ->
  forall a b prev, pre = a ++ b -> b <> [] ->
  match_here ML pat prev (b ++ "<p>$$" ++ c ++ "$$" ++ w ++ rest) = None.
Proof.
  intros Hpre Hc Hw Hrest a b prev E Hb.
  destruct (match_here ML pat prev (b ++ "<p>$$" ++ c ++ "$$" ++ w ++ rest))
    as [m|] eqn:M; [|reflexivity].
  exfalso.
  assert (Hb' : forallb not_dollar b = true).
  { rewrite E, forallb_app in Hpre. apply andb_true_iff in Hpre. apply Hpre. }
  destruct (@pat_place (b ++ "<p>$$" ++ c ++ "$$" ++ w ++ rest) []
              (b ++ "<p>$$" ++ c ++ "$$" ++ w ++ rest) prev m
              (@dollars_app4 b c w rest "<p>$$" Hb' Hc Hw Hrest eq_refl) eq_refl M)
    as (_ & y & Ey).
  assert (P : b ++ "<p>" = "<p>").
  { apply (@first_dollar (b ++ "<p>") "<p>" ("$" ++ c ++ "$$" ++ w ++ rest) y).
    - rewrite forallb_app, Hb'. reflexivity.
    - reflexivity.
    - rewrite <- app_assoc. exact Ey. }
  apply (f_equal (@List.length ascii)) in P. rewrite length_app in P.
  destruct b as [|x b]; [contradiction|]. simpl in P. lia.
Qed.

(** One display substitution at a block: the start is copied, the block is
    replaced, the rest is copied. *)
Lemma sub_block (r : regex) (pre block rest : str) (c : str) :
  (forall a b prev, pre = a ++ b -> b <> [] ->
     match_here ML r prev (b ++ block ++ rest) = None) ->
  (exists m, match_here ML r (match rev pre with [] => None | x :: _ => Some x end)
               (block ++ rest) = Some m
             /\ m_text m = block /\ group m 1 = c) ->
  block <> [] ->
  (forall prev t, forallb not_dollar t = true -> match_here ML r prev t = None) ->
  forallb not_dollar rest = true ->
  sub_from ML r repl_1 0 false None (pre ++ block ++ rest) = pre ++ converted c ++ rest.
Proof.
  intros Hpre (m & M & T & G) Hblock Hnone Hrest.
  destruct (@sub_from_before ML r repl_1 (block ++ rest) pre Hpre false None)
    as (adj1 & E1).
  rewrite E1. f_equal.
  destruct block as [|x block]; [contradiction|].
  assert (L : List.length (m_text m) = S (List.length block)) by (rewrite T; reflexivity).
  rewrite <- app_comm_cons in *.
  rewrite (@sub_from_hit ML r repl_1 adj1 _ x (block ++ rest) m _ M L).
  rewrite repl_1_converted, G. f_equal.
  destruct (@sub_from_over ML r repl_1 block rest
              (Nat.eqb (List.length block) 0) (Some x)) as (adj2 & prev2 & E2).
  rewrite E2.
  apply sub_from_no_match. intros p t ->. apply Hnone.
  exact (forallb_suffix _ _ _ Hrest).
Qed.

(** Both display substitutions on a block that ends a line of a text. *)
Lemma display_line (pre c w rest : str) :
  forallb not_dollar pre = true -> forallb not_dollar c = true ->
  forallb is_space w = true ->
  forallb not_dollar rest = true -> line_end rest = true ->
  (line_start pre = true ->
   display_passes (pre ++ "$$" ++ c ++ "$$" ++ w ++ rest) = pre ++ converted c ++ rest)
  /\ display_passes (pre ++ "<p>$$" ++ c ++ "$$" ++ w ++ rest)
     = pre ++ converted c ++ rest.
Proof.
  intros Hpre Hc Hw Hrest Hend. unfold display_passes, sub_fn. split.
  - intros Hstart.
    rewrite (@sub_from_no_match ML pat repl_1
               (pre ++ "$$" ++ c ++ "$$" ++ w ++ rest) false None)
      by (intros a t E;
          exact (@pat_not_on_line pre c w rest Hpre Hc Hw Hrest Hstart a t _ E)).
    replace ("$$" ++ c ++ "$$" ++ w ++ rest) with (("$$" ++ c ++ "$$" ++ w) ++ rest)
      by (rewrite <- !app_assoc; reflexivity).
    apply (@sub_block pat1 pre ("$$" ++ c ++ "$$" ++ w) rest c).
    + intros a b prev E Hb. destruct b as [|x b]; [contradiction|].
      rewrite <- app_comm_cons. apply pat1_first.
      rewrite E, forallb_app in Hpre. apply andb_true_iff in Hpre.
      destruct Hpre as [_ Hx]. cbn [forallb] in Hx. apply andb_true_iff in Hx. apply Hx.
    + rewrite <- !app_assoc.
      apply (@match_pat1_line c w rest _ Hc Hw Hend).
      unfold line_start in Hstart. destruct (rev pre); [reflexivity | exact Hstart].
    + discriminate.
    + intros prev t Ht. apply pat1_needs_dollar, Ht.
    + exact Hrest.
  - replace ("<p>$$" ++ c ++ "$$" ++ w ++ rest)
      with (("<p>$$" ++ c ++ "$$" ++ w) ++ rest)
      by (rewrite <- !app_assoc; reflexivity).
    rewrite (@sub_block pat pre ("<p>$$" ++ c ++ "$$" ++ w) rest c).
    + apply sub_from_no_match. intros a t E. apply pat1_needs_dollar.
      apply (forallb_suffix _ a). rewrite <- E.
      rewrite !forallb_app, Hpre, Hrest, (converted_no_dollar c Hc). reflexivity.
    + intros a b prev E Hb. rewrite <- !app_assoc.
      exact (@pat_not_before pre c w rest Hpre Hc Hw Hrest a b prev E Hb).
    + rewrite <- !app_assoc. apply (@match_pat_line c w rest _ Hc Hw Hend).
    + discriminate.
    + intros prev t Ht. apply pat_needs_dollar, Ht.
    + exact Hrest.
Qed.

End LineFacts.



(** X8.  A block [$$c$$] that starts a line, or a block [<p>$$c$$],
    followed by whitespace up to the end of its line, in a text with no
    other dollar: when the content holds no dollar and, unescaped and
    stripped, starts with neither [\[] nor [\begin], the display passes put
    in the place of the block, from its [<p>] to the whitespace after it,
    the display block made of [\[], the unescaped content and [\]], and
    keep the lines before and after. *)
Theorem X8_display_block (pre c w rest : str) :
  forallb Display.not_dollar pre = true ->
  forallb Display.not_dollar c = true ->
  forallb is_space w = true ->
  forallb Display.not_dollar rest = true ->
  Display.line_end rest = true ->
  Display.already_latex (unescape_latex_entities c) = false ->
  (Display.line_start pre = true ->
   MathTextPostProcessor.display_passes (pre ++ "$$" ++ c ++ "$$" ++ w ++ rest)
   = pre ++ ("\[" ++ unescape_latex_entities c ++ "\]") ++ rest)
  /\ MathTextPostProcessor.display_passes (pre ++ "<p>$$" ++ c ++ "$$" ++ w ++ rest)
     = pre ++ ("\[" ++ unescape_latex_entities c ++ "\]") ++ rest.
Proof.
  intros Hpre Hc Hw Hrest Hend Hg.
  destruct (@LineFacts.display_line pre c w rest Hpre Hc Hw Hrest Hend) as [H1 H2].
  rewrite (LineFacts.converted_wrapped c Hg) in H1, H2.
  split; [exact H1 | exact H2].
Qed.

Lemma X8_display_block_witness :
  MathTextPostProcessor.display_passes
    ("We get" ++ [NL] ++ "$$ a \& b $$  " ++ [NL] ++ "as said.")
  = "We get" ++ [NL] ++ "\[ a & b \]" ++ [NL] ++ "as said."
  /\ MathTextPostProcessor.display_passes ("<p>$$ a \& b $$" ++ [NL])
     = "\[ a & b \]".
Proof.
  split.
  - exact (proj1 (@X8_display_block ("We get" ++ [NL]) " a \& b " "  " (NL :: "as said.")
                    eq_refl eq_refl eq_refl eq_refl eq_refl eq_refl) eq_refl).
  - exact (proj2 (@X8_display_block "" " a \& b " [NL] ""
                    eq_refl eq_refl eq_refl eq_refl eq_refl eq_refl)).
Defined.

(** X9.  Math in the middle of a sentence: in a text with no other dollar,
    a [$$c$$] span becomes the inline math [$c$] with its content
    unescaped, and the text around it is kept. *)
Theorem X9_inline_math (pre c post : str) :
  forallb Display.not_dollar pre = true ->
  forallb Display.not_dollar c = true ->
  forallb Display.not_dollar post = true ->
  MathTextPostProcessor.inline_pass (pre ++ "$$" ++ c ++ "$$" ++ post)
  = pre ++ "$" ++ unescape_latex_entities c ++ "$" ++ post.
Proof. exact (MathFacts.inline_block pre c post). Qed.

Lemma X9_inline_math_witness :
  MathTextPostProcessor.inline_pass ("Jones, " ++ "$$" ++ "x=3" ++ "$$" ++ ", is")
  = "Jones, " ++ "$" ++ unescape_latex_entities "x=3" ++ "$" ++ ", is".
Proof.
  apply (@X9_inline_math "Jones, " "x=3" ", is"); reflexivity.
Defined.

(** X10.  The math postprocessor returns unchanged every text that holds
    no dollar, no percent sign, no backslash and no asterisk. *)
Theorem X10_prose_unchanged (text : str) :
  forallb Plain.prose text = true -> MathTextPostProcessor.run text = text.
Proof. exact (MathFacts.prose_unchanged text). Qed.

Lemma X10_prose_unchanged_witness :
  forallb Plain.prose "<p>Plain prose, nothing else.</p>" = true
  /\ MathTextPostProcessor.run "<p>Plain prose, nothing else.</p>"
     = "<p>Plain prose, nothing else.</p>".
Proof.
  split; [reflexivity|].
  apply (@X10_prose_unchanged "<p>Plain prose, nothing else.</p>"). reflexivity.
Defined.

(** X11.  A dollar that is the first character of the text is never
    escaped by the currency substitution, which needs a character before
    the dollar: the dollar is kept and the rest is substituted on its
    own. *)
Theorem X11_leading_dollar (s : str) :
  MathTextPostProcessor.currency_pass (DOLLAR :: s)
  = DOLLAR :: MathTextPostProcessor.currency_pass s.
Proof. exact (MathFacts.leading_dollar s). Qed.

(** ** The image postprocessor *)

Module ImageFacts.
Import ImageTextPostProcessor Images.

Lemma split_on_not_nil (c : ascii) (s : str) : split_on c s <> [].
Proof.
  destruct s as [|x t]; simpl; [discriminate|].
  destruct (Ascii.eqb x c); [discriminate|].
  destruct (split_on c t); discriminate.
Qed.

(** Joining what was split gives the text back. *)
Lemma join_split (c : ascii) (s : str) : join [c] (split_on c s) = s.
Proof.
  induction s as [|x t IH]; [reflexivity|].
  cbn [split_on]. destruct (Ascii.eqb x c) eqn:E.
  - apply Ascii.eqb_eq in E. subst x.
    pose proof (split_on_not_nil c t) as N.
    destruct (split_on c t) as [|h r]; [contradiction|].
    change (join [c] ([] :: h :: r)) with ([] ++ [c] ++ join [c] (h :: r)).
    rewrite IH. reflexivity.
  - pose proof (split_on_not_nil c t) as N.
    destruct (split_on c t) as [|h r]; [contradiction|].
    destruct r as [|h' r'].
    + cbn [join] in *. rewrite IH. reflexivity.
    + change (join [c] ((x :: h) :: h' :: r'))
        with (x :: (h ++ [c] ++ join [c] (h' :: r'))).
      change (join [c] (h :: h' :: r')) with (h ++ [c] ++ join [c] (h' :: r')) in IH.
      rewrite IH. reflexivity.
Qed.

Lemma split_on_app (c : ascii) (a b : str) :
  split_on c (a ++ c :: b) = split_on c a ++ split_on c b.
Proof.
  induction a as [|x a IH].
  - cbn [app split_on]. rewrite Ascii.eqb_refl. reflexivity.
  - rewrite <- app_comm_cons. cbn [split_on]. rewrite IH.
    destruct (Ascii.eqb x c); [reflexivity|].
    pose proof (split_on_not_nil c a) as N.
    destruct (split_on c a) as [|h r]; [contradiction|]. reflexivity.
Qed.

Lemma join_app (sep : str) (l1 l2 : list str) :
  l1 <> [] -> l2 <> [] -> join sep (l1 ++ l2) = join sep l1 ++ sep ++ join sep l2.
Proof.
  intros N1 N2. induction l1 as [|x l1 IH]; [contradiction|].
  destruct l1 as [|y l1].
  - destruct l2 as [|z l2]; [contradiction|]. reflexivity.
  - change (join sep ((x :: y :: l1) ++ l2)) with (x ++ sep ++ join sep ((y :: l1) ++ l2)).
    rewrite IH by discriminate.
    change (join sep (x :: y :: l1)) with (x ++ sep ++ join sep (y :: l1)).
    rewrite <- !app_assoc. reflexivity.
Qed.

(** The loop adds to the blocks it was given what it makes of the new
    ones. *)
Lemma loop_acc (blocks acc : list str) :
  loop blocks acc
  = match loop blocks [] with
    | Ok r => Ok (acc ++ r)
    | Raise e => Raise e
    end.
Proof.
  revert acc. induction blocks as [|b blocks IH]; intros acc.
  - simpl. rewrite app_nil_r. reflexivity.
  - cbn [loop]. destruct (block_out b) as [o|e]; [|reflexivity].
    rewrite (IH (acc ++ [o])), (IH ([] ++ [o])).
    destruct (loop blocks []) as [r|e]; [|reflexivity].
    rewrite <- app_assoc. reflexivity.
Qed.

Lemma loop_app (l1 l2 : list str) :
  loop (l1 ++ l2) []
  = match loop l1 [] with
    | Ok r1 => match loop l2 [] with
               | Ok r2 => Ok (r1 ++ r2)
               | Raise e => Raise e
               end
    | Raise e => Raise e
    end.
Proof.
  induction l1 as [|b l1 IH].
  - simpl. destruct (loop l2 []); reflexivity.
  - cbn [app loop]. destruct (block_out b) as [o|e]; [|reflexivity].
    rewrite (loop_acc (l1 ++ l2)), (loop_acc l1), IH.
    destruct (loop l1 []) as [r1|e]; [|reflexivity].
    destruct (loop l2 []) as [r2|e]; [|reflexivity].
    rewrite app_assoc. reflexivity.
Qed.

Lemma loop_not_nil (l r : list str) : l <> [] -> loop l [] = Ok r -> r <> [].
Proof.
  destruct l as [|b l]; [contradiction|]. intros _. cbn [loop].
  destruct (block_out b) as [o|e]; [|discriminate].
  rewrite loop_acc. destruct (loop l []) as [r'|e]; [|discriminate].
  intros H. injection H as <-. discriminate.
Qed.

Lemma loop_no_image (l : list str) :
  forallb (fun b => negb (is_img_block b)) l = true -> loop l [] = Ok l.
Proof.
  induction l as [|b l IH]; intros H; [reflexivity|].
  cbn [forallb] in H. apply andb_true_iff in H. destruct H as [Hb Hl].
  cbn [loop]. unfold block_out. unfold is_img_block in Hb.
  apply negb_true_iff in Hb. cbv zeta. rewrite Hb.
  rewrite loop_acc, (IH Hl). reflexivity.
Qed.

Lemma run_no_image (instr : str) :
  forallb (fun b => negb (is_img_block b)) (split_on NL instr) = true ->
  run instr = Ok instr.
Proof.
  intros H. unfold run. rewrite (loop_no_image _ H), join_split. reflexivity.
Qed.

Lemma run_lines (a b : str) :
  run (a ++ [NL] ++ b)
  = match run a with
    | Ok x => match run b with
              | Ok y => Ok (x ++ [NL] ++ y)
              | Raise e => Raise e
              end
    | Raise e => Raise e
    end.
Proof.
  unfold run. cbn [app]. rewrite split_on_app, loop_app.
  destruct (loop (split_on NL a) []) as [r1|e] eqn:E1; [|reflexivity].
  destruct (loop (split_on NL b) []) as [r2|e] eqn:E2; [|reflexivity].
  rewrite join_app; [reflexivity| |].
  - exact (loop_not_nil (split_on_not_nil NL a) E1).
  - exact (loop_not_nil (split_on_not_nil NL b) E2).
Qed.

End ImageFacts.

(** X12.  The image postprocessor returns unchanged every text none of
    whose lines is taken for an image, that is, starts with [<img] once
    stripped and freed of [<p>]. *)
Theorem X12_no_image_unchanged (instr : str) :
  forallb (fun b => negb (Images.is_img_block b)) (split_on NL instr) = true ->
  ImageTextPostProcessor.run instr = Ok instr.
Proof. exact (ImageFacts.run_no_image instr). Qed.

Lemma X12_no_image_unchanged_witness :
  forallb (fun b => negb (Images.is_img_block b))
    (split_on NL ("Some text" ++ [NL] ++ [NL] ++ "with <img/> inside a line")) = true
  /\ ImageTextPostProcessor.run ("Some text" ++ [NL] ++ [NL] ++ "with <img/> inside a line")
     = Ok ("Some text" ++ [NL] ++ [NL] ++ "with <img/> inside a line").
Proof.
  split; [reflexivity|].
  apply (@X12_no_image_unchanged
           ("Some text" ++ [NL] ++ [NL] ++ "with <img/> inside a line")).
  reflexivity.
Defined.

(** X13.  The image postprocessor works line by line: the result for two
    texts joined by a newline is the two results joined by a newline, and
    it raises what the first failing part raises. *)
Theorem X13_image_lines (a b : str) :
  ImageTextPostProcessor.run (a ++ [NL] ++ b)
  = match ImageTextPostProcessor.run a with
    | Ok x => match ImageTextPostProcessor.run b with
              | Ok y => Ok (x ++ [NL] ++ y)
              | Raise e => Raise e
              end
    | Raise e => Raise e
    end.
Proof. exact (ImageFacts.run_lines a b). Qed.

(** ** Reading a numeral back *)

Module IntFacts.
Import Numerals.

Ltac digit_step IH :=
  match goal with
  | |- digits_value ?a (chars (?D ?d)) = _ =>
      change (chars (D d)) with (hd "0"%char (chars (D Decimal.Nil)) :: chars d)
  end;
  cbn [hd chars NilEmpty.string_of_uint list_ascii_of_string];
  cbn [digits_value Pos.of_uint_acc];
  match goal with
  | |- (if isdigit ?c then _ else _) = _ => change (isdigit c) with true; cbv iota
  end;
  match goal with
  | |- context [Z.of_nat ?k] =>
      let v := eval vm_compute in (Z.of_nat k) in change (Z.of_nat k) with v
  end;
  match goal with
  | |- digits_value ?a _ = Some (Zpos (Pos.of_uint_acc _ ?b)) =>
      replace a with (Zpos b) by lia
  end;
  apply IH.

(** The digits after a first digit that is not zero. *)
Lemma digits_acc (d : Decimal.uint) : forall acc : positive,
  digits_value (Zpos acc) (chars d) = Some (Zpos (Pos.of_uint_acc d acc)).
Proof.
  induction d as [|d IH|d IH|d IH|d IH|d IH|d IH|d IH|d IH|d IH|d IH]; intros acc;
    [reflexivity| digit_step IH ..].
Qed.

Ltac first_digit :=
  match goal with
  | |- digits_value ?a (chars (?D ?d)) = _ =>
      change (chars (D d)) with (hd "0"%char (chars (D Decimal.Nil)) :: chars d)
  end;
  cbn [hd chars NilEmpty.string_of_uint list_ascii_of_string];
  cbn [digits_value Pos.of_uint];
  match goal with
  | |- (if isdigit ?c then _ else _) = _ => change (isdigit c) with true; cbv iota
  end;
  match goal with
  | |- context [Z.of_nat ?k] =>
      let v := eval vm_compute in (Z.of_nat k) in change (Z.of_nat k) with v
  end;
  cbn [Z.mul Z.add].

Lemma digits_uint (d : Decimal.uint) :
  digits_value 0 (chars d) = Some (Z.of_N (Pos.of_uint d)).
Proof.
  induction d as [|d IH|d IH|d IH|d IH|d IH|d IH|d IH|d IH|d IH|d IH];
    [reflexivity | first_digit; exact IH | first_digit; apply digits_acc ..].
Qed.

Lemma chars_digits (d : Decimal.uint) : forallb isdigit (chars d) = true.
Proof.
  induction d as [|d IH|d IH|d IH|d IH|d IH|d IH|d IH|d IH|d IH|d IH];
    [reflexivity | exact IH ..].
Qed.

Lemma digit_no_space (c : ascii) : isdigit c = true -> isspace c = false.
Proof.
  destruct c as [[] [] [] [] [] [] [] []]; intros H; try reflexivity; discriminate H.
Qed.

Lemma forallb_rev (P : ascii -> bool) (s : str) :
  forallb P s = true -> forallb P (rev s) = true.
Proof.
  rewrite !forallb_forall. intros H x Hx. apply H, in_rev, Hx.
Qed.

Lemma lstrip_same (s : str) : forallb isdigit s = true -> lstrip s = s.
Proof.
  destruct s as [|x t]; [reflexivity|]. cbn [forallb lstrip]. intros H.
  apply andb_true_iff in H. destruct H as [Hx _].
  rewrite (digit_no_space x Hx). reflexivity.
Qed.

Lemma strip_same (s : str) : forallb isdigit s = true -> strip s = s.
Proof.
  intros H. unfold strip, rstrip. rewrite (lstrip_same s H).
  rewrite (lstrip_same (rev s) (forallb_rev _ _ H)). apply rev_involutive.
Qed.

Lemma int_digits (s : str) :
  s <> [] -> forallb isdigit s = true -> int s = digits_value 0 s.
Proof.
  intros Hs H. unfold int. rewrite (strip_same s H).
  destruct s as [|x t]; [contradiction|].
  cbn [forallb] in H. apply andb_true_iff in H. destruct H as [Hx _].
  destruct x as [[] [] [] [] [] [] [] []]; try discriminate Hx; reflexivity.
Qed.

Lemma str_of_positive (p : positive) : str_of_int (Zpos p) = chars (Pos.to_uint p).
Proof.
  unfold str_of_int, chars. cbn [Z.to_int NilZero.string_of_int].
  pose proof (DecimalPos.Unsigned.to_uint_nonnil p) as N.
  destruct (Pos.to_uint p); [contradiction|reflexivity ..].
Qed.

(** [int] reads back the numeral [%s] writes for a number that is not
    negative. *)
Lemma int_str_of_int (n : Z) : (0 <= n)%Z -> int (str_of_int n) = Some n.
Proof.
  intros Hn. destruct n as [|p|p]; [reflexivity| |lia].
  rewrite str_of_positive.
  rewrite int_digits.
  - rewrite digits_uint, DecimalPos.Unsigned.of_to. reflexivity.
  - pose proof (DecimalPos.Unsigned.to_uint_nonnil p) as N.
    destruct (Pos.to_uint p); [contradiction|discriminate ..].
  - apply chars_digits.
Qed.

End IntFacts.

(** ** More of the table converter *)

Module TableMore.
Import Table2Latex Columns TableFacts Cells CellFacts Rows.






Lemma cell_width_contributes (c : node) (w : Z) :
  cell_width c = Some w -> contributes c w.
Proof.
  destruct c as [tg attrs kids|d]; cbn [cell_width].
  - destruct (is_cell_tag tg) eqn:C; [|discriminate].
    destruct (forallb is_text kids) eqn:K; [|discriminate]. cbn [andb].
    destruct (assoc "colspan" attrs) as [v|] eqn:A.
    + intros Hv. eapply spanning_cell_contributes; eassumption.
    + intros [= <-]. apply plain_cell_contributes; assumption.
  - intros [= <-]. apply text_contributes.
Qed.

Lemma cells_contribute (cells : list node) (w : Z) :
  fold_right
    (fun c acc =>
       match cell_width c, acc with
       | Some w, Some a => Some (w + a)%Z
       | _, _ => None
       end)
    (Some 0%Z) cells = Some w ->
  exists ws, Forall2 contributes cells ws /\ fold_right Z.add 0%Z ws = w.
Proof.
  revert w. induction cells as [|c cells IH]; intros w; cbn [fold_right].
  - intros [= <-]. exists []. split; [constructor | reflexivity].
  - destruct (cell_width c) as [wc|] eqn:C; [|discriminate].
    match goal with |- match ?f with _ => _ end = _ -> _ => destruct f as [a|] eqn:E end;
      [|discriminate].
    intros [= <-]. destruct (IH a eq_refl) as [ws [F S]].
    exists (wc :: ws). split.
    + constructor; [apply cell_width_contributes, C | exact F].
    + simpl. rewrite S. reflexivity.
Qed.

Lemma rows_loop (rows : list node) (ws : list Z) :
  map row_width rows = map Some ws ->
  forall acc s, numcols s = 0%Z -> (0 <= maxcols s)%Z ->
  exists out,
    children_loop rows acc s
    = Ok (out, {| numcols := 0; maxcols := fold_left (fun m w => Z.max w m) ws (maxcols s) |}).
Proof.
  revert ws. induction rows as [|r rows IH]; intros [|w ws] H acc s Hs Hm;
    try discriminate.
  - exists acc. simpl. unfold ret. destruct s as [n m]; simpl in *. subst. reflexivity.
  - cbn [map] in H. injection H as Hr Hrows.
    cbn [children_loop fold_left]. unfold bind.
    destruct r as [tg attrs cells|d].
    + cbn [row_width] in Hr. destruct (str_eqb tg "tr") eqn:T; [|discriminate].
      apply str_eqb_eq in T. subst tg.
      destruct (@cells_contribute cells w Hr) as [cws [F S]].
      destruct (@row_updates_maxcols attrs cells cws F (hd_error rows) s) as [b Hb].
      rewrite Hb. rewrite Hs, Z.add_0_l, S.
      match goal with |- context [children_loop rows ?a ?t] =>
        destruct (IH ws Hrows a t eq_refl) as [out E]; [simpl; lia|] end.
      exists out. rewrite E. reflexivity.
    + injection Hr as <-. simpl tolatex. unfold ret.
      match goal with |- context [children_loop rows ?a s] =>
        destruct (IH ws Hrows a s Hs Hm) as [out E] end.
      exists out. rewrite E. rewrite Z.max_r by assumption. reflexivity.
Qed.

Lemma cell_no_caption (c : node) (w : Z) :
  cell_width c = Some w ->
  (if is_element c && str_eqb (tagName_of c) "caption" then [c] else [])
  ++ descendants_by_tag "caption" c = [].
Proof.
  destruct c as [tg attrs kids|d]; [|reflexivity]. cbn [cell_width].
  destruct (is_cell_tag tg) eqn:C; [|discriminate].
  destruct (forallb is_text kids) eqn:K; [|discriminate]. intros _.
  assert (T : str_eqb tg "caption" = false).
  { destruct (str_eqb tg "caption") eqn:E; [|reflexivity].
    apply str_eqb_eq in E. subst tg. discriminate. }
  cbn [is_element tagName_of andb]. rewrite T. cbn [app descendants_by_tag].
  clear - K. induction kids as [|k kids IH]; [reflexivity|].
  simpl in K. apply andb_true_iff in K. destruct K as [Hk Hkids].
  destruct k as [tg' a' k'|d]; [discriminate|]. simpl. apply IH, Hkids.
Qed.

Lemma row_no_caption (r : node) (w : Z) :
  row_width r = Some w ->
  (if is_element r && str_eqb (tagName_of r) "caption" then [r] else [])
  ++ descendants_by_tag "caption" r = [].
Proof.
  destruct r as [tg attrs cells|d]; [|reflexivity]. cbn [row_width].
  destruct (str_eqb tg "tr") eqn:T; [|discriminate].
  apply str_eqb_eq in T. subst tg. cbn [is_element tagName_of andb].
  change (str_eqb "tr" "caption") with false. cbn [app descendants_by_tag].
  unfold cells_width.
  revert w. induction cells as [|c cells IH]; intros w; [reflexivity|].
  cbn [fold_right flat_map].
  destruct (cell_width c) as [wc|] eqn:C; [|discriminate].
  match goal with |- match ?f with _ => _ end = _ -> _ => destruct f as [a|] eqn:E end;
    [|discriminate].
  intros _. rewrite (@cell_no_caption c wc C). apply (IH a eq_refl).
Qed.

Lemma rows_no_caption (attrs : list (str * str)) (rows : list node) (ws : list Z) :
  map row_width rows = map Some ws ->
  getElementsByTagName (Element "table" attrs rows) "caption" = [].
Proof.
  unfold getElementsByTagName. cbn [descendants_by_tag].
  revert ws. induction rows as [|r rows IH]; intros [|w ws] H; try discriminate;
    [reflexivity|].
  cbn [map] in H. injection H as Hr Hrows. cbn [flat_map].
  rewrite (@row_no_caption r w Hr). apply (IH ws Hrows).
Qed.

Lemma widest_table (attrs : list (str * str)) (rows : list node) (ws : list Z) :
  map row_width rows = map Some ws ->
  (widest ws <= repeat_limit)%Z ->
  exists core,
    convert_dom (Element "table" attrs rows) new
    = Ok (table_latex (repeat_str "|c" (Z.to_nat (widest ws)) ++ "|") core "",
          {| numcols := 0; maxcols := widest ws |}).
Proof.
  intros H L. unfold convert_dom, bind. rewrite tolatex_unfold. unfold bind.
  destruct (@rows_loop rows ws H "" new eq_refl) as [out E]; [simpl; lia|].
  rewrite E. rewrite (@rows_no_caption attrs rows ws H).
  assert (F : forall s0, finish (Element "table" attrs rows) None "table" out s0
                         = Ok (strip out, s0)) by reflexivity.
  rewrite F. unfold colformat. cbn [maxcols new]. fold (widest ws).
  assert (E1 : (max_size <? 2 * widest ws)%Z = false).
  { apply Z.ltb_ge. unfold max_size, repeat_limit in *. lia. }
  assert (E2 : (repeat_limit <? widest ws)%Z = false) by (apply Z.ltb_ge; exact L).
  rewrite E1, E2. eexists. reflexivity.
Qed.

(** Text between the cells counts for nothing in the width of a row. *)
Lemma cells_width_elements (cells : list node) :
  cells_width cells = cells_width (filter is_element cells).
Proof.
  induction cells as [|c cells IH]; [reflexivity|].
  destruct c as [tg attrs kids|d].
  - cbn [filter is_element]. unfold cells_width in *. cbn [fold_right].
    rewrite IH. reflexivity.
  - cbn [filter is_element]. rewrite <- IH.
    unfold cells_width. cbn [fold_right cell_width].
    match goal with |- match ?f with _ => _ end = _ => destruct f as [a|] end;
      reflexivity.
Qed.

Lemma plain_cell_width (c : node) : plain_cell c = true -> cell_width c = Some 1%Z.
Proof.
  destruct c as [tg attrs kids|d]; [|discriminate]. cbn [plain_cell cell_width].
  intros H. apply andb_true_iff in H. destruct H as [H K].
  apply andb_true_iff in H. destruct H as [C A].
  rewrite C, K. cbn [andb]. apply negb_true_iff in A. unfold hasAttribute in A.
  destruct (assoc "colspan" attrs); [discriminate | reflexivity].
Qed.

Lemma spanning_cell_width (n : Z) (c : node) :
  (0 <= n)%Z -> spanning_cell n c = true -> cell_width c = Some n.
Proof.
  intros Hn. destruct c as [tg attrs kids|d]; [|discriminate].
  cbn [spanning_cell cell_width].
  intros H. apply andb_true_iff in H. destruct H as [H A].
  rewrite H. destruct (assoc "colspan" attrs) as [v|]; [|discriminate].
  apply str_eqb_eq in A. subst v. apply IntFacts.int_str_of_int, Hn.
Qed.

(** The rows of the table of the claim: three plain cells, and a cell that
    spans [n] columns before a plain one. *)
Lemma row_of_three (a : list (str * str)) (r : list node) (c1 c2 c3 : node) :
  filter is_element r = [c1; c2; c3] ->
  forallb plain_cell [c1; c2; c3] = true ->
  row_width (Element "tr" a r) = Some 3%Z.
Proof.
  intros E P. cbn [forallb] in P.
  apply andb_true_iff in P. destruct P as [P1 P].
  apply andb_true_iff in P. destruct P as [P2 P].
  apply andb_true_iff in P. destruct P as [P3 _].
  cbn [row_width]. change (str_eqb "tr" "tr") with true. cbv iota.
  rewrite cells_width_elements, E. unfold cells_width. cbn [fold_right].
  rewrite (@plain_cell_width c1 P1), (@plain_cell_width c2 P2), (@plain_cell_width c3 P3).
  reflexivity.
Qed.

Lemma row_of_span (a : list (str * str)) (r : list node) (c4 c5 : node) (n : Z) :
  filter is_element r = [c4; c5] ->
  (0 <= n)%Z -> spanning_cell n c4 = true -> plain_cell c5 = true ->
  row_width (Element "tr" a r) = Some (n + 1)%Z.
Proof.
  intros E Hn S P.
  cbn [row_width]. change (str_eqb "tr" "tr") with true. cbv iota.
  rewrite cells_width_elements, E. unfold cells_width. cbn [fold_right].
  rewrite (@spanning_cell_width n c4 Hn S), (@plain_cell_width c5 P).
  f_equal; lia.
Qed.

(** Text between the rows does not change the widest row. *)
Lemma widest_elements (rows : list node) : forall m : Z,
  (0 <= m)%Z ->
  fold_left (fun m w => Z.max w m) (map width_or_zero rows) m
  = fold_left (fun m w => Z.max w m) (map width_or_zero (filter is_element rows)) m.
Proof.
  induction rows as [|r rows IH]; intros m Hm; [reflexivity|].
  destruct r as [tg attrs kids|d].
  - cbn [filter is_element map fold_left]. apply IH. lia.
  - cbn [filter is_element map fold_left].
    change (width_or_zero (Text d)) with 0%Z. rewrite Z.max_r by exact Hm.
    apply IH, Hm.
Qed.

Lemma widths_known (rows : list node) :
  (forall r, In r (filter is_element rows) -> row_width r <> None) ->
  map row_width rows = map Some (map width_or_zero rows).
Proof.
  induction rows as [|r rows IH]; intros H; [reflexivity|].
  cbn [map]. destruct r as [tg attrs kids|d].
  - cbn [filter is_element] in H. rewrite IH by (intros r Hr; apply H; right; exact Hr).
    f_equal. unfold width_or_zero.
    destruct (row_width (Element tg attrs kids)) as [w|] eqn:E; [reflexivity|].
    exfalso. apply (H (Element tg attrs kids)); [left; reflexivity | exact E].
  - cbn [filter is_element] in H. rewrite IH by exact H. reflexivity.
Qed.

Lemma claimed_table (attrs a1 a2 : list (str * str)) (rows r1 r2 : list node)
  (c1 c2 c3 c4 c5 : node) (n : Z) :
  filter is_element rows = [Element "tr" a1 r1; Element "tr" a2 r2] ->
  filter is_element r1 = [c1; c2; c3] ->
  filter is_element r2 = [c4; c5] ->
  forallb plain_cell [c1; c2; c3; c5] = true ->
  spanning_cell n c4 = true ->
  (0 <= n < repeat_limit)%Z ->
  exists core,
    convert_dom (Element "table" attrs rows) new
    = Ok (table_latex (repeat_str "|c" (Z.to_nat (Z.max 3 (n + 1))) ++ "|") core "",
          {| numcols := 0; maxcols := Z.max 3 (n + 1) |}).
Proof.
  intros Erows E1 E2 P S Hn.
  cbn [forallb] in P.
  apply andb_true_iff in P. destruct P as [P1 P].
  apply andb_true_iff in P. destruct P as [P2 P].
  apply andb_true_iff in P. destruct P as [P3 P].
  apply andb_true_iff in P. destruct P as [P5 _].
  assert (W1 : row_width (Element "tr" a1 r1) = Some 3%Z).
  { apply (@row_of_three a1 r1 c1 c2 c3 E1). cbn [forallb]. rewrite P1, P2, P3. reflexivity. }
  assert (W2 : row_width (Element "tr" a2 r2) = Some (n + 1)%Z).
  { apply (@row_of_span a2 r2 c4 c5 n E2); [lia | exact S | exact P5]. }
  assert (K : map row_width rows = map Some (map width_or_zero rows)).
  { apply widths_known. rewrite Erows. intros r [<-|[<-|[]]]; congruence. }
  assert (V : widest (map width_or_zero rows) = Z.max 3 (n + 1)).
  { unfold widest. rewrite widest_elements by lia. rewrite Erows.
    cbn [map fold_left]. unfold width_or_zero. rewrite W1, W2. lia. }
  destruct (@widest_table attrs rows (map width_or_zero rows) K) as [core E].
  - rewrite V. unfold repeat_limit in *. lia.
  - exists core. rewrite E, V. reflexivity.
Qed.

Lemma separator_not_blank (x : str) : str_eqb (strip (x ++ " &")) "" = false.
Proof.
  unfold strip.
  destruct (@StripFacts.lstrip_keeps (x ++ " ") [] "&"%char eq_refl) as [a' E].
  rewrite <- app_assoc in E. change (" " ++ ["&"%char]) with " &" in E. rewrite E.
  destruct (@StripFacts.rstrip_keeps a' [] "&"%char eq_refl) as [v' E'].
  rewrite app_nil_r in E'. change (a' ++ ["&"%char]) with (a' ++ "&") in E'.
  rewrite E'. destruct a'; reflexivity.
Qed.

Lemma plain_cell_tolatex (c : node) (next : option node) (s : self) :
  plain_cell c = true -> tolatex c next s = process_cell c next s.
Proof.
  destruct c as [tg attrs kids|d]; [|discriminate]. cbn [plain_cell].
  intros H. apply andb_true_iff in H. destruct H as [H K].
  apply andb_true_iff in H. destruct H as [C _].
  rewrite tolatex_unfold. unfold bind. rewrite children_loop_text by assumption.
  apply finish_cell, C.
Qed.

Lemma plain_cell_parts (c : node) :
  plain_cell c = true ->
  hasAttribute c "colspan" = false /\ is_element c = true
  /\ is_cell_tag (tagName_of c) = true.
Proof.
  destruct c as [tg attrs kids|d]; [|discriminate]. cbn [plain_cell].
  intros H. apply andb_true_iff in H. destruct H as [H K].
  apply andb_true_iff in H. destruct H as [C A].
  apply negb_true_iff in A. repeat split; assumption.
Qed.

Lemma cell_at_end (el : node) (s : self) :
  hasAttribute el "colspan" = false ->
  process_cell el None s = Ok (plain_content el, bump s 1).
Proof.
  intros Ha. unfold process_cell, bind. rewrite Ha. reflexivity.
Qed.

Lemma cells_loop (cells : list node) :
  forallb plain_cell cells = true ->
  forall acc s,
    children_loop cells acc s
    = Ok (acc ++ row_body cells, bump s (Z.of_nat (List.length cells))).
Proof.
  induction cells as [|c rest IH]; intros H acc s.
  - simpl. unfold ret, bump. rewrite app_nil_r, Z.add_0_r. destruct s; reflexivity.
  - cbn [forallb] in H. apply andb_true_iff in H. destruct H as [Hc Hrest].
    destruct (@plain_cell_parts c Hc) as [Ha _].
    cbn [children_loop]. unfold bind. rewrite (@plain_cell_tolatex c _ s Hc).
    destruct rest as [|c' rest'].
    + cbn [hd_error]. rewrite (@cell_at_end c s Ha). cbn [children_loop row_body].
      unfold ret. cbn [List.length].
      destruct (str_eqb (strip (plain_content c)) ""); cbn [negb];
        [rewrite app_nil_r|]; reflexivity.
    + cbn [hd_error]. pose proof Hrest as Hrest'.
      cbn [forallb] in Hrest'. apply andb_true_iff in Hrest'. destruct Hrest' as [Hc' _].
      destruct (@plain_cell_parts c' Hc') as [_ [He Ht]].
      rewrite (@cell_before_cell c c' s Ha He Ht).
      rewrite separator_not_blank. cbn [negb].
      rewrite (IH Hrest _ _). cbn [row_body]. rewrite <- app_assoc.
      unfold bump. cbn [numcols maxcols]. do 3 f_equal.
      change (List.length (c :: c' :: rest')) with (S (List.length (c' :: rest'))).
      lia.
Qed.

Lemma row_of_plain_cells (attrs : list (str * str)) (cells : list node)
  (next : option node) (s : self) :
  forallb plain_cell cells = true ->
  tolatex (Element "tr" attrs cells) next s
  = Ok ([NL] ++ "\hline" ++ [NL] ++ strip (row_body cells) ++ " \\",
        {| numcols := 0;
           maxcols := Z.max (numcols s + Z.of_nat (List.length cells)) (maxcols s) |}).
Proof.
  intros H. rewrite tolatex_unfold. unfold bind. rewrite (@cells_loop cells H "" s).
  reflexivity.
Qed.

End TableMore.

(** C7.  A table of two rows, the first with three cells without
    [colspan], the second with a cell whose [colspan] is the numeral of [n]
    and a cell without [colspan], whatever the texts of the cells, whether
    they are [td] or [th], and whatever text (the whitespace of a document
    written on several lines) stands between the rows and between the
    cells: the first row counts 1 + 1 + 1 columns and the second [n] + 1,
    [convert] ends with [maxcols] the larger of the two and the count set
    back to 0, and the [tabular] environment gets that many [|c] columns.
    For [colspan=2] that is [maxcols = 3] and [|c|c|c|]. *)
Theorem C7_column_inference (instr : str) (self : Table2Latex.self)
  (attrs a1 a2 : list (str * str)) (rows r1 r2 : list node)
  (c1 c2 c3 c4 c5 : node) (n : Z) :
  parseString instr = Ok (Element "table" attrs rows) ->
  filter is_element rows = [Element "tr" a1 r1; Element "tr" a2 r2] ->
  filter is_element r1 = [c1; c2; c3] ->
  filter is_element r2 = [c4; c5] ->
  forallb Rows.plain_cell [c1; c2; c3; c5] = true ->
  Rows.spanning_cell n c4 = true ->
  (0 <= n < Table2Latex.repeat_limit)%Z ->
  exists core,
    Table2Latex.convert instr self
    = Ok ([NL] ++ "\begin{table}" ++ [NL]
          ++ "\begin{tabular}{"
          ++ (repeat_str "|c" (Z.to_nat (Z.max 3 (n + 1))) ++ "|") ++ "}" ++ [NL]
          ++ core ++ [NL]
          ++ "\hline" ++ [NL]
          ++ "\end{tabular}" ++ [NL]
          ++ "\\[5pt]" ++ [NL]
          ++ "\caption{" ++ "" ++ "}" ++ [NL]
          ++ "\end{table}" ++ [NL],
          {| Table2Latex.numcols := 0; Table2Latex.maxcols := Z.max 3 (n + 1) |}).
Proof.
  intros Hparse Erows E1 E2 P S Hn. unfold Table2Latex.convert. rewrite Hparse.
  exact (@TableMore.claimed_table attrs a1 a2 rows r1 r2 c1 c2 c3 c4 c5 n
           Erows E1 E2 P S Hn).
Qed.

Lemma C7_column_inference_witness :
  exists core,
    Table2Latex.convert
      ("<table>" ++ [NL]
       ++ "  <tr><td>a</td> <td>b</td> <th>c</th></tr>" ++ [NL]
       ++ "  <tr><td colspan='2'>d</td> <td>e</td></tr>" ++ [NL]
       ++ "</table>")
      Table2Latex.new
    = Ok ([NL] ++ "\begin{table}" ++ [NL]
          ++ "\begin{tabular}{" ++ "|c|c|c|" ++ "}" ++ [NL]
          ++ core ++ [NL]
          ++ "\hline" ++ [NL]
          ++ "\end{tabular}" ++ [NL]
          ++ "\\[5pt]" ++ [NL]
          ++ "\caption{" ++ "" ++ "}" ++ [NL]
          ++ "\end{table}" ++ [NL],
          {| Table2Latex.numcols := 0; Table2Latex.maxcols := 3 |}).
Proof.
  apply (@C7_column_inference _ Table2Latex.new [] [] []
           [Text (NL :: "  ");
            Element "tr" []
              [Element "td" [] [Text "a"]; Text " "; Element "td" [] [Text "b"]; Text " ";
               Element "th" [] [Text "c"]];
            Text (NL :: "  ");
            Element "tr" []
              [Element "td" [("colspan", "2")] [Text "d"]; Text " ";
               Element "td" [] [Text "e"]];
            Text [NL]]
           [Element "td" [] [Text "a"]; Text " "; Element "td" [] [Text "b"]; Text " ";
            Element "th" [] [Text "c"]]
           [Element "td" [("colspan", "2")] [Text "d"]; Text " ";
            Element "td" [] [Text "e"]]
           (Element "td" [] [Text "a"]) (Element "td" [] [Text "b"])
           (Element "th" [] [Text "c"])
           (Element "td" [("colspan", "2")] [Text "d"]) (Element "td" [] [Text "e"])
           2%Z).
  - vm_compute. reflexivity.
  - reflexivity.
  - reflexivity.
  - reflexivity.
  - reflexivity.
  - vm_compute. reflexivity.
  - vm_compute. split; [discriminate | reflexivity].
Defined.

(** X14.  A table whose children are rows of cells (and text between them):
    the number of columns [convert] arrives at is the width of the widest
    row, a cell counting for its [colspan] or for one, and, when that number
    is one the model repeats a string for, the [tabular] environment gets
    that many [|c] columns; no caption is found. *)
Theorem X14_widest_row (instr : str) (self : Table2Latex.self)
  (attrs : list (str * str)) (rows : list node) (ws : list Z) :
  parseString instr = Ok (Element "table" attrs rows) ->
  map Rows.row_width rows = map Some ws ->
  (Rows.widest ws <= Table2Latex.repeat_limit)%Z ->
  exists core,
    Table2Latex.convert instr self
    = Ok (Table2Latex.table_latex
            (repeat_str "|c" (Z.to_nat (Rows.widest ws)) ++ "|") core "",
          {| Table2Latex.numcols := 0; Table2Latex.maxcols := Rows.widest ws |}).
Proof.
  intros Hparse Hrows Hlimit. unfold Table2Latex.convert. rewrite Hparse.
  exact (@TableMore.widest_table attrs rows ws Hrows Hlimit).
Qed.

Lemma X14_widest_row_witness :
  exists core,
    Table2Latex.convert
      "<table><tr><td>a</td></tr><tr><td colspan='3'>d</td><th>e</th></tr><tr><td>x</td><td>y</td></tr></table>"
      Table2Latex.new
    = Ok (Table2Latex.table_latex
            (repeat_str "|c" (Z.to_nat (Rows.widest [1; 4; 2]%Z)) ++ "|") core "",
          {| Table2Latex.numcols := 0;
             Table2Latex.maxcols := Rows.widest [1; 4; 2]%Z |}).
Proof.
  apply (@X14_widest_row _ Table2Latex.new []
           [Element "tr" [] [Element "td" [] [Text "a"]];
            Element "tr" [] [Element "td" [("colspan", "3")] [Text "d"];
                             Element "th" [] [Text "e"]];
            Element "tr" [] [Element "td" [] [Text "x"]; Element "td" [] [Text "y"]]]
           [1; 4; 2]%Z).
  - vm_compute. reflexivity.
  - vm_compute. reflexivity.
  - vm_compute. discriminate.
Defined.



(** X16.  A row whose children are cells without [colspan], one right
    after the other: the row is written as the cells' texts with [ &] after
    each but the last, stripped, between [\hline] and the line end, and it
    counts one column for each cell. *)
Theorem X16_row_of_adjacent_cells (attrs : list (str * str)) (cells : list node)
  (next : option node) (s : Table2Latex.self) :
  forallb Rows.plain_cell cells = true ->
  Table2Latex.tolatex (Element "tr" attrs cells) next s
  = Ok ([NL] ++ "\hline" ++ [NL] ++ strip (Rows.row_body cells) ++ " \\",
        {| Table2Latex.numcols := 0;
           Table2Latex.maxcols :=
             Z.max (Table2Latex.numcols s + Z.of_nat (List.length cells))
                   (Table2Latex.maxcols s) |}).
Proof. exact (@TableMore.row_of_plain_cells attrs cells next s). Qed.

Lemma X16_row_of_adjacent_cells_witness :
  Table2Latex.tolatex
    (Element "tr" []
       [Element "td" [] [Text "a"]; Element "th" [] [Text "b"]; Element "td" [] [Text "c"]])
    None Table2Latex.new
  = Ok ([NL] ++ "\hline" ++ [NL] ++ "a & \textbf{b} & c" ++ " \\",
        {| Table2Latex.numcols := 0; Table2Latex.maxcols := 3 |}).
Proof.
  apply (@X16_row_of_adjacent_cells []
           [Element "td" [] [Text "a"]; Element "th" [] [Text "b"];
            Element "td" [] [Text "c"]] None Table2Latex.new).
  vm_compute. reflexivity.
Defined.

(** ** More of the tree walker *)

Module TreeMore.
Import LaTeXTreeProcessor Paths TreeFacts Rules.

Lemma rewrite_text (tags : list str) (e : Element) :
  text (rewrite tags e) = text_after tags (tag e) (text e).
Proof.
  destruct e as [tg tx kids]. unfold text_after. cbn [tag text].
  destruct (str_eqb tg "h1") eqn:E1.
  { apply str_eqb_eq in E1. subst tg. cbv [rewrite]. cbn. rewrite <- !app_assoc. reflexivity. }
  destruct (str_eqb tg "h2") eqn:E2.
  { apply str_eqb_eq in E2. subst tg. reflexivity. }
  destruct (str_eqb tg "h3") eqn:E3.
  { apply str_eqb_eq in E3. subst tg. reflexivity. }
  destruct (str_eqb tg "h4") eqn:E4.
  { apply str_eqb_eq in E4. subst tg. reflexivity. }
  destruct (str_eqb tg "li") eqn:E5.
  { apply str_eqb_eq in E5. subst tg. reflexivity. }
  destruct (str_eqb tg "p") eqn:E6.
  { apply str_eqb_eq in E6. subst tg.
    rewrite (@rewrite_text_p tags (Elem "p" tx kids) eq_refl). reflexivity. }
  unfold rewrite. cbv zeta.
  assert (H1 : if_h1 (Elem tg tx kids) = Elem tg tx kids)
    by (unfold if_h1; cbn [tag]; rewrite E1; reflexivity).
  assert (H2 : if_h2 (Elem tg tx kids) = Elem tg tx kids)
    by (unfold if_h2; cbn [tag]; rewrite E2; reflexivity).
  assert (H3 : if_h3 (Elem tg tx kids) = Elem tg tx kids)
    by (unfold if_h3; cbn [tag]; rewrite E3; reflexivity).
  assert (H4 : if_h4 (Elem tg tx kids) = Elem tg tx kids)
    by (unfold if_h4; cbn [tag]; rewrite E4; reflexivity).
  assert (H5 : if_li (Elem tg tx kids) = Elem tg tx kids)
    by (unfold if_li; cbn [tag]; rewrite E5; reflexivity).
  assert (H6 : if_p tags (Elem tg tx kids) = Elem tg tx kids)
    by (unfold if_p; cbn [tag]; rewrite E6; reflexivity).
  rewrite H1, H2, H3, H4, H5, H6. unfold if_em. cbn [tag].
  destruct (str_eqb tg "em"); reflexivity.
Qed.

Lemma step_text (c : Element) :
  text (step c) = text_after (map tag (children c)) (tag c) (text c).
Proof.
  unfold step. rewrite rewrite_text.
  destruct (Nat.ltb 0 (List.length (children c))); [|reflexivity].
  rewrite tolatex_eq. reflexivity.
Qed.

Lemma step_arity (c : Element) :
  List.length (children (step c)) = List.length (children c).
Proof.
  unfold step. rewrite rewrite_children.
  destruct (Nat.ltb 0 (List.length (children c))); [|reflexivity].
  rewrite tolatex_eq. cbn [children]. apply length_map.
Qed.

(** The walker at an element below the root: the element is still there,
    with its tag, the number of its children and the text one pass of the
    loop body gives it. *)
Lemma below (p : list nat) : forall (root : Element) (i : nat) (e : Element),
  at_path root (i :: p) = Some e ->
  exists e', at_path (tolatex root) (i :: p) = Some e'
             /\ tag e' = tag e
             /\ List.length (children e') = List.length (children e)
             /\ text e' = text_after (map tag (children e)) (tag e) (text e).
Proof.
  induction p as [|j p IH]; intros root i e H.
  - simpl in H. destruct (nth_error (children root) i) as [c|] eqn:E; [|discriminate].
    injection H as ->. exists (step e). split.
    + rewrite tolatex_eq. simpl. rewrite nth_error_map, E. reflexivity.
    + split; [apply step_tag|]. split; [apply step_arity | apply step_text].
  - change (at_path root (i :: j :: p))
      with (match nth_error (children root) i with
            | Some c => at_path c (j :: p)
            | None => None
            end) in H.
    destruct (nth_error (children root) i) as [c|] eqn:E; [|discriminate].
    destruct (IH c j e H) as (e' & H1 & H2).
    exists e'. split; [|exact H2].
    rewrite tolatex_eq.
    change (at_path (Elem (tag root) (text root) (map step (children root))) (i :: j :: p))
      with (match nth_error (map step (children root)) i with
            | Some c => at_path c (j :: p)
            | None => None
            end).
    rewrite nth_error_map, E. simpl option_map. cbv iota.
    rewrite step_below. exact H1.
Qed.

(** Where the tree has no element, the walker makes none. *)
Lemma nothing_below (p : list nat) : forall (root : Element),
  at_path root p = None -> at_path (tolatex root) p = None.
Proof.
  induction p as [|i p IH]; intros root H; [discriminate|].
  destruct p as [|j p].
  - simpl in H. destruct (nth_error (children root) i) as [c|] eqn:E; [discriminate|].
    rewrite tolatex_eq. simpl. rewrite nth_error_map, E. reflexivity.
  - change (at_path root (i :: j :: p))
      with (match nth_error (children root) i with
            | Some c => at_path c (j :: p)
            | None => None
            end) in H.
    rewrite tolatex_eq.
    change (at_path (Elem (tag root) (text root) (map step (children root))) (i :: j :: p))
      with (match nth_error (map step (children root)) i with
            | Some c => at_path c (j :: p)
            | None => None
            end).
    rewrite nth_error_map.
    destruct (nth_error (children root) i) as [c|] eqn:E; [|reflexivity].
    simpl option_map. cbv iota. rewrite step_below. apply IH, H.
Qed.

Lemma shape_kept (root : Element) (p : list nat) :
  option_map (fun e => (tag e, List.length (children e))) (at_path (run root) p)
  = option_map (fun e => (tag e, List.length (children e))) (at_path root p).
Proof.
  unfold run. destruct p as [|i p].
  - simpl. rewrite tolatex_eq. cbn [tag children]. rewrite length_map. reflexivity.
  - destruct (at_path root (i :: p)) as [e|] eqn:E.
    + destruct (@below p root i e E) as (e' & H1 & H2 & H3 & _).
      rewrite H1. simpl. rewrite H2, H3. reflexivity.
    + rewrite (@nothing_below (i :: p) root E). reflexivity.
Qed.


End TreeMore.

(** X17.  The headings, list items and emphasis below the root: the walker
    keeps the tag and wraps the text, [h1] in [\title] followed by
    [\maketitle] between two comment rules, [h2] to [h4] in [\section],
    [\subsection] and [\subsubsection], [li] after [\item], [em] in [\emph].
    An element without text gets the word None there. *)
Theorem X17_heading_item_emphasis (root : LaTeXTreeProcessor.Element) (i : nat)
  (p : list nat) (e : LaTeXTreeProcessor.Element) :
  Paths.at_path root (i :: p) = Some e ->
  exists e',
    Paths.at_path (LaTeXTreeProcessor.run root) (i :: p) = Some e'
    /\ LaTeXTreeProcessor.tag e' = LaTeXTreeProcessor.tag e
    /\ let t := LaTeXTreeProcessor.pct_s (LaTeXTreeProcessor.text e) in
       let r := LaTeXTreeProcessor.rule in
       (LaTeXTreeProcessor.tag e = "h1" ->
        LaTeXTreeProcessor.text e'
        = Some ([NL] ++ "\title{" ++ t ++ "}" ++ [NL] ++ [NL] ++ r ++ [NL]
                  ++ "\maketitle" ++ [NL] ++ r ++ [NL]))
       /\ (LaTeXTreeProcessor.tag e = "h2" ->
           LaTeXTreeProcessor.text e' = Some ([NL] ++ "\section{" ++ t ++ "}" ++ [NL]))
       /\ (LaTeXTreeProcessor.tag e = "h3" ->
           LaTeXTreeProcessor.text e' = Some ([NL] ++ "\subsection{" ++ t ++ "}" ++ [NL]))
       /\ (LaTeXTreeProcessor.tag e = "h4" ->
           LaTeXTreeProcessor.text e'
           = Some ([NL] ++ "\subsubsection{" ++ t ++ "}" ++ [NL]))
       /\ (LaTeXTreeProcessor.tag e = "li" ->
           LaTeXTreeProcessor.text e' = Some ("  \item " ++ t))
       /\ (LaTeXTreeProcessor.tag e = "em" ->
           LaTeXTreeProcessor.text e' = Some ("\emph{" ++ t ++ "}")).
Proof.
  intros H. destruct (@TreeMore.below p root i e H) as (e' & H1 & H2 & _ & H3).
  exists e'. split; [exact H1|]. split; [exact H2|].
  cbv zeta. rewrite H3.
  repeat split; intros ->; reflexivity.
Qed.

Lemma X17_heading_item_emphasis_witness :
  let root :=
    LaTeXTreeProcessor.Elem "div" None
      [LaTeXTreeProcessor.Elem "ul" None
         [LaTeXTreeProcessor.Elem "li" (Some "one") [];
          LaTeXTreeProcessor.Elem "li" None [LaTeXTreeProcessor.Elem "em" (Some "two") []]]] in
  exists e',
    Paths.at_path (LaTeXTreeProcessor.run root) [0; 1]%nat = Some e'
    /\ LaTeXTreeProcessor.tag e' = "li"
    /\ LaTeXTreeProcessor.text e' = Some "  \item None".
Proof.
  intro root.
  destruct (@X17_heading_item_emphasis root 0 [1]%nat
              (LaTeXTreeProcessor.Elem "li" None
                 [LaTeXTreeProcessor.Elem "em" (Some "two") []]) eq_refl)
    as (e' & H1 & H2 & _ & _ & _ & _ & H3 & _).
  exists e'. split; [exact H1|]. split; [exact H2|]. exact (H3 eq_refl).
Defined.



(** X19.  The walker never changes the shape of the tree: at every path the
    result has an element exactly when the tree has one, with the same tag
    and the same number of children. *)
Theorem X19_shape_kept (root : LaTeXTreeProcessor.Element) (p : list nat) :
  option_map
    (fun e => (LaTeXTreeProcessor.tag e, List.length (LaTeXTreeProcessor.children e)))
    (Paths.at_path (LaTeXTreeProcessor.run root) p)
  = option_map
      (fun e => (LaTeXTreeProcessor.tag e, List.length (LaTeXTreeProcessor.children e)))
      (Paths.at_path root p).
Proof. exact (TreeMore.shape_kept root p). Qed.

(** ** The table postprocessor on a text with a table *)

Module OneTableFacts.
Import TableTextPostProcessor Display DisplayFacts Tables.

Lemma rmatch_seq (fl : flags) (a b : regex) (st : mstate) (k : cont) :
  rmatch fl (Seq a b) st k = rmatch fl a st (fun st' => rmatch fl b st' k).
Proof. reflexivity. Qed.

Lemma after_nil (st : mstate) : after [] (rest st) st = st.
Proof. destruct st; reflexivity. Qed.

(** A literal pattern takes the literal when the subject starts with it. *)
Lemma rmatch_Str (fl : flags) (p : str) : forall (st : mstate) (k : cont) (t : str),
  rest st = p ++ t -> rmatch fl (Str p) st k = k (after p t st).
Proof.
  induction p as [|x p IH]; intros st k t H.
  - simpl in H. subst t. rewrite after_nil. reflexivity.
  - cbn [Str]. rewrite rmatch_seq. cbn [rmatch]. rewrite H.
    rewrite <- app_comm_cons. cbn [item_ok]. rewrite Ascii.eqb_refl.
    rewrite (IH (advance x (p ++ t) st) k t eq_refl).
    rewrite after_cons. reflexivity.
Qed.

(** It fails when the subject does not. *)
Lemma rmatch_Str_miss (fl : flags) (p : str) : forall (st : mstate) (k : cont),
  startswith p (rest st) = false -> rmatch fl (Str p) st k = None.
Proof.
  induction p as [|x p IH]; intros st k H; [discriminate|].
  cbn [Str]. rewrite rmatch_seq. cbn [rmatch].
  destruct (rest st) as [|y s] eqn:R; [reflexivity|].
  cbn [startswith] in H. cbn [item_ok].
  destruct (Ascii.eqb y x) eqn:E; [|reflexivity].
  apply Ascii.eqb_eq in E. subst y. rewrite Ascii.eqb_refl in H.
  apply IH. exact H.
Qed.

(** A repetition gives back all it took when the rest of the pattern fails
    wherever the repetition could stop later. *)
Lemma star_fallback (fl : flags) (i : item) (k : cont) (t : str) : forall st,
  (forall a b, t = a ++ b -> a <> [] -> k (after a b st) = None) ->
  star fl i t st k = k st.
Proof.
  induction t as [|x t IH]; intros st H; [reflexivity|].
  cbn [star]. destruct (item_ok fl i x); [|reflexivity].
  rewrite IH.
  - pose proof (H [x] t eq_refl ltac:(discriminate)) as E.
    change (after [x] t st) with (advance x t st) in E. rewrite E. reflexivity.
  - intros a b E Ha. subst t. rewrite after_cons.
    apply (H (x :: a) b eq_refl). discriminate.
Qed.

Lemma contains_suffix (p a b : str) :
  contains p (a ++ b) = false -> startswith p b = false.
Proof.
  induction a as [|x a IH]; intros H.
  - destruct b; simpl in H; apply orb_false_iff in H; destruct H as [H _];
      [|exact H].
    destruct p; [discriminate | reflexivity].
  - rewrite <- app_comm_cons in H. cbn [contains] in H.
    apply orb_false_iff in H. destruct H as [_ H]. apply IH, H.
Qed.

Lemma dot_all (s : str) : forallb (item_ok DOTALL_flags Dot) s = true.
Proof. induction s as [|x s IH]; [reflexivity|]. simpl. exact IH. Qed.

(** The pattern at the first tag: the match runs to the last end tag. *)
Lemma match_table (prev : option ascii) (mid post : str) :
  contains "</table>" ("/table>" ++ post) = false ->
  match_here DOTALL_flags tablematch prev ("<table" ++ mid ++ "</table>" ++ post)
  = Some {| m_text := "<table" ++ mid ++ "</table>"; m_groups := [] |}.
Proof.
  intros Hpost. unfold match_here, tablematch.
  set (st0 := {| before := prev; rest := "<table" ++ mid ++ "</table>" ++ post;
                 pos := 0; groups := [] |}).
  rewrite rmatch_seq.
  rewrite (@rmatch_Str DOTALL_flags "<table" st0 _ (mid ++ "</table>" ++ post) eq_refl).
  rewrite rmatch_seq. cbn [rmatch].
  change (rest (after "<table" (mid ++ "</table>" ++ post) st0))
    with (mid ++ "</table>" ++ post).
  set (st1 := after "<table" (mid ++ "</table>" ++ post) st0).
  change (fun st' => rmatch DOTALL_flags (Str "</table>") st' Some) with close.
  assert (E : star DOTALL_flags Dot (mid ++ "</table>" ++ post) st1 close
              = Some (after "</table>" post (after mid ("</table>" ++ post) st1))).
  { apply star_greedy; [reflexivity | apply dot_all |].
    rewrite star_fallback.
    - unfold close. apply rmatch_Str. reflexivity.
    - intros a b E Ha. unfold close. apply rmatch_Str_miss.
      change (rest (after a b (after mid ("</table>" ++ post) st1))) with b.
      destruct a as [|x a]; [contradiction|].
      change ("</table>" ++ post) with ("<"%char :: "/table>" ++ post) in E.
      rewrite <- app_comm_cons in E. injection E as _ E.
      apply (@contains_suffix "</table>" a b). rewrite <- E. exact Hpost. }
  rewrite E. f_equal. unfold after, st1, after, st0. cbn [pos groups].
  f_equal.
  replace (List.length "</table>" + (List.length mid + (List.length "<table" + 0)))
    with (List.length ("<table" ++ mid ++ "</table>") + 0)
    by (rewrite !length_app; simpl; lia).
  replace ("<table" ++ mid ++ "</table>" ++ post)
    with (("<table" ++ mid ++ "</table>") ++ post)
    by (rewrite <- !app_assoc; reflexivity).
  rewrite firstn_app_2. cbn [firstn]. apply app_nil_r.
Qed.

(** No match where the subject does not start with the tag. *)
Lemma no_match_without_open (prev : option ascii) (s : str) :
  startswith "<table" s = false -> match_here DOTALL_flags tablematch prev s = None.
Proof.
  intros H. unfold match_here, tablematch. rewrite rmatch_seq.
  rewrite rmatch_Str_miss; [reflexivity | exact H].
Qed.

(** No match where no end tag follows. *)
Lemma no_match_without_close (prev : option ascii) (s : str) :
  contains "</table>" s = false -> match_here DOTALL_flags tablematch prev s = None.
Proof.
  intros H. unfold match_here, tablematch.
  set (st0 := {| before := prev; rest := s; pos := 0; groups := [] |}).
  destruct (startswith "<table" s) eqn:S.
  - destruct (StripFacts.startswith_split _ _ S) as [t ->].
    rewrite rmatch_seq.
    rewrite (@rmatch_Str DOTALL_flags "<table" st0 _ t eq_refl).
    rewrite rmatch_seq. cbn [rmatch].
    change (rest (after "<table" t st0)) with t.
    destruct (star DOTALL_flags Dot t (after "<table" t st0)
                (fun st' => rmatch DOTALL_flags (Str "</table>") st' Some))
      as [r|] eqn:E; [|reflexivity].
    apply star_inv in E; [|reflexivity].
    destruct E as (c & t' & st' & -> & R & K).
    rewrite rmatch_Str_miss in K; [discriminate|].
    rewrite R. apply (@contains_suffix "</table>" ("<table" ++ c) t').
    rewrite <- app_assoc. exact H.
  - rewrite rmatch_seq. rewrite rmatch_Str_miss; [reflexivity | exact S].
Qed.

Lemma contains_tail (p a b : str) :
  contains p (a ++ b) = false -> contains p b = false.
Proof.
  induction a as [|x a IH]; intros H; [exact H|].
  rewrite <- app_comm_cons in H. cbn [contains] in H.
  apply orb_false_iff in H. destruct H as [_ H]. apply IH, H.
Qed.

Section Scanning.
Variables (fl : flags) (r : regex).

Lemma scan_none (s : str) : forall prev off,
  (forall a b prev', s = a ++ b -> match_here fl r prev' b = None) ->
  scan fl r 0 prev off s = [].
Proof.
  induction s as [|c t IH]; intros prev off H.
  - cbn [scan]. rewrite (H [] [] prev eq_refl). reflexivity.
  - cbn [scan]. rewrite (H [] (c :: t) prev eq_refl).
    apply IH. intros a b prev' E. apply (H (c :: a) b prev'). rewrite E. reflexivity.
Qed.

Lemma scan_skip_none (a : str) : forall (s : str) prev off,
  (forall u v prev', s = u ++ v -> match_here fl r prev' v = None) ->
  scan fl r (List.length a) prev off (a ++ s) = [].
Proof.
  induction a as [|c a IH]; intros s prev off H.
  - apply scan_none, H.
  - rewrite <- app_comm_cons. cbn [List.length scan]. apply IH, H.
Qed.

Lemma scan_miss (prev : option ascii) (off : nat) (c : ascii) (t : str) :
  match_here fl r prev (c :: t) = None ->
  scan fl r 0 prev off (c :: t) = scan fl r 0 (Some c) (S off) t.
Proof. intros H. cbn [scan]. rewrite H. reflexivity. Qed.

Lemma scan_hit (prev : option ascii) (off : nat) (c : ascii) (t : str)
  (m : matchobj) (n : nat) :
  match_here fl r prev (c :: t) = Some m -> List.length (m_text m) = S n ->
  scan fl r 0 prev off (c :: t) = (off, m) :: scan fl r n (Some c) (S off) t.
Proof. intros H L. cbn [scan]. rewrite H, L. reflexivity. Qed.

End Scanning.

(** The matches in a text whose first start tag and last end tag are known:
    one, from the one to the other. *)
Lemma scan_table (pre mid post : str) : forall prev off,
  contains "<table" (pre ++ "<tabl") = false ->
  contains "</table>" ("/table>" ++ post) = false ->
  scan DOTALL_flags tablematch 0 prev off (pre ++ "<table" ++ mid ++ "</table>" ++ post)
  = [(off + List.length pre,
      {| m_text := "<table" ++ mid ++ "</table>"; m_groups := [] |})].
Proof.
  induction pre as [|x pre IH]; intros prev off Hpre Hpost.
  - rewrite app_nil_l. cbn [List.length]. rewrite Nat.add_0_r.
    pose proof (@match_table prev mid post Hpost) as M.
    assert (Shape : "<table" ++ mid ++ "</table>" ++ post
                    = "<"%char :: ("table" ++ mid ++ "</table>") ++ post)
      by (rewrite <- !app_assoc; reflexivity).
    rewrite Shape in M. rewrite Shape.
    rewrite (@scan_hit DOTALL_flags tablematch prev off "<"%char
               (("table" ++ mid ++ "</table>") ++ post)
               {| m_text := "<table" ++ mid ++ "</table>"; m_groups := [] |}
               (List.length ("table" ++ mid ++ "</table>")) M eq_refl).
    f_equal.
    apply (@scan_skip_none DOTALL_flags tablematch ("table" ++ mid ++ "</table>")
             post (Some "<"%char) (S off)).
    intros u v prev' E.
    apply no_match_without_close.
    apply (@contains_tail "</table>" ("/table>" ++ u) v).
    rewrite <- app_assoc, <- E. exact Hpost.
  - rewrite <- app_comm_cons in Hpre. cbn [contains] in Hpre.
    apply orb_false_iff in Hpre. destruct Hpre as [H1 H2].
    rewrite <- app_comm_cons. rewrite scan_miss.
    + rewrite (IH (Some x) (S off) H2 Hpost). cbn [List.length].
      rewrite Nat.add_succ_r. reflexivity.
    + apply no_match_without_open.
      replace (x :: pre ++ "<table" ++ mid ++ "</table>" ++ post)
        with ((x :: pre ++ "<tabl") ++ "e" ++ mid ++ "</table>" ++ post)
        by (rewrite <- app_comm_cons, <- app_assoc; reflexivity).
      rewrite HelperFacts.startswith_longer; [exact H1|].
      cbn [List.length]. rewrite length_app. simpl. lia.
Qed.

Lemma findall_table (pre mid post : str) :
  contains "<table" (pre ++ "<tabl") = false ->
  contains "</table>" ("/table>" ++ post) = false ->
  findall DOTALL_flags tablematch (pre ++ "<table" ++ mid ++ "</table>" ++ post)
  = ["<table" ++ mid ++ "</table>"].
Proof.
  intros Hpre Hpost. unfold findall.
  rewrite (@scan_table pre mid post None 0 Hpre Hpost). reflexivity.
Qed.

Lemma split_table (pre mid post : str) :
  contains "<table" (pre ++ "<tabl") = false ->
  contains "</table>" ("/table>" ++ post) = false ->
  split DOTALL_flags tablematch (pre ++ "<table" ++ mid ++ "</table>" ++ post)
  = [pre; post].
Proof.
  intros Hpre Hpost. unfold split.
  rewrite (@scan_table pre mid post None 0 Hpre Hpost).
  cbn [filter snd m_text].
  replace (Nat.eqb (List.length ("<table" ++ mid ++ "</table>")) 0) with false
    by (rewrite length_app; reflexivity).
  cbn [negb cut snd m_text]. rewrite Nat.add_0_l, Nat.sub_0_r.
  f_equal.
  - rewrite firstn_app, Nat.sub_diag, firstn_all. cbn [firstn]. apply app_nil_r.
  - f_equal.
    replace (pre ++ "<table" ++ mid ++ "</table>" ++ post)
      with ((pre ++ "<table" ++ mid ++ "</table>") ++ post)
      by (rewrite <- !app_assoc; reflexivity).
    replace (List.length pre + List.length ("<table" ++ mid ++ "</table>"))
      with (List.length (pre ++ "<table" ++ mid ++ "</table>"))
      by (rewrite (length_app pre); reflexivity).
    rewrite skipn_app, skipn_all, Nat.sub_diag. reflexivity.
Qed.

Lemma run_table (pre mid post : str) :
  contains "<table" (pre ++ "<tabl") = false ->
  contains "</table>" ("/table>" ++ post) = false ->
  run (pre ++ "<table" ++ mid ++ "</table>" ++ post)
  = Some match Table2Latex.convert ("<table" ++ mid ++ "</table>") Table2Latex.new with
         | Ok (latex, _) => Ok (join [NL] [pre; strip latex; post])
         | Raise e => Raise e
         end.
Proof.
  intros Hpre Hpost. unfold run.
  rewrite (@findall_table pre mid post Hpre Hpost), (@split_table pre mid post Hpre Hpost).
  set (table := "<table" ++ mid ++ "</table>").
  cbn [List.length loop Nat.ltb Nat.leb pop rev app].
  destruct (Table2Latex.convert table Table2Latex.new) as [[latex conv]|e];
    reflexivity.
Qed.

End OneTableFacts.

(** X20.  A text with a table: when [<table] first occurs after [pre] and
    [</table>] last occurs before [post], the whole stretch between them is
    the one table found, whatever it holds, also further tables or end
    tags.  [run] converts it and returns the text before, the stripped
    result and the text after joined by newlines, or raises what the
    converter raises. *)
Theorem X20_one_table (pre mid post : str) :
  contains "<table" (pre ++ "<tabl") = false ->
  contains "</table>" ("/table>" ++ post) = false ->
  findall TableTextPostProcessor.DOTALL_flags TableTextPostProcessor.tablematch
    (pre ++ "<table" ++ mid ++ "</table>" ++ post)
  = ["<table" ++ mid ++ "</table>"]
  /\ TableTextPostProcessor.run (pre ++ "<table" ++ mid ++ "</table>" ++ post)
     = Some match Table2Latex.convert ("<table" ++ mid ++ "</table>") Table2Latex.new with
            | Ok (latex, _) => Ok (join [NL] [pre; strip latex; post])
            | Raise e => Raise e
            end.
Proof.
  intros Hpre Hpost. split.
  - exact (@OneTableFacts.findall_table pre mid post Hpre Hpost).
  - exact (@OneTableFacts.run_table pre mid post Hpre Hpost).
Qed.

Lemma X20_one_table_witness :
  findall TableTextPostProcessor.DOTALL_flags TableTextPostProcessor.tablematch
    ("a <t" ++ "<table" ++ "></table> b <table>" ++ "</table>" ++ " c</tab")
  = ["<table" ++ "></table> b <table>" ++ "</table>"]
  /\ TableTextPostProcessor.run
       ("a <t" ++ "<table" ++ "></table> b <table>" ++ "</table>" ++ " c</tab")
     = Some match Table2Latex.convert
                   ("<table" ++ "></table> b <table>" ++ "</table>") Table2Latex.new with
            | Ok (latex, _) => Ok (join [NL] ["a <t"; strip latex; " c</tab"])
            | Raise e => Raise e
            end.
Proof.
  apply (@X20_one_table "a <t" "></table> b <table>" " c</tab").
  - vm_compute. reflexivity.
  - vm_compute. reflexivity.
Defined.

(** ** The postprocessor run last *)


